(** * teetool: trajectory ensembles as Gaussian tubes

    A shallow embedding of [teetool/gaussianprocess.py] (class
    [GaussianProcess]) and [teetool/model.py] (class [Model]), and the
    properties of the tube construction and of the grid queries.

    Conventions of the embedding.
    - A Python exception is a value of [exn]; a call that may raise returns a
      [result].
    - A float is an abstract scalar (class [Num], class [Float]).  Two
      instances are given: [Qc] (exact rational arithmetic, no special
      values) and [xfloat] (exact rationals extended with [+inf], [-inf] and
      [NaN], following the IEEE-754 rules for special values).  Rounding,
      overflow and signed zeros are not modelled.  Over [Qc] a division by
      zero gives [0] where NumPy gives [NaN] or an infinity: a result over
      [Qc] speaks for the code only where no divisor is zero (for the
      moments of an ensemble, when the ensemble is not empty).
    - A matrix ([np.array] with two axes) is the list of its rows; a column
      vector [n x 1] is a list of one-element rows.  NumPy's shape errors in
      [@], [+] and [-] are not modelled: operands are conforming wherever
      the source builds them itself.
    - Functions of NumPy and of [teetool.helpers] / [teetool.basis] that the
      two files call but do not define are fields of the classes [Linalg],
      [BasisLib], [Helpers] and [QueryHelpers]. *)

From Stdlib Require Import ZArith QArith Qcanon Field Lia Bool Sorted.
From stdpp Require Import base gmap strings list.

Set Default Proof Using "Type".

(** ** Exceptions and fallible calls *)

Inductive exn :=
| ValueError (msg : string)
| TypeError (msg : string)
| IndexError
| AxisError
| NotImplementedError
| LinAlgError
| ZeroDivisionError.

Inductive result (A : Type) :=
| Ok (a : A)
| Raise (e : exn).
Arguments Ok {A} a.
Arguments Raise {A} e.

Global Instance exn_eq_dec : EqDecision exn.
Proof. solve_decision. Defined.
Global Instance result_eq_dec {A} `{EqDecision A} : EqDecision (result A).
Proof. solve_decision. Defined.

Global Instance result_ret : MRet result := @Ok.
Global Instance result_bind : MBind result :=
  λ A B f m, match m with Ok a => f a | Raise e => Raise e end.
Global Instance result_fmap : FMap result :=
  λ A B f m, match m with Ok a => Ok (f a) | Raise e => Raise e end.

(** [l[i]] with a non-negative index: [IndexError] out of range. *)
Definition at_index {A} (l : list A) (i : nat) : result A :=
  match l !! i with Some a => Ok a | None => Raise IndexError end.

(** [[f(x) for x in l]] where [f] may raise. *)
Fixpoint map_r {A B} (f : A → result B) (l : list A) : result (list B) :=
  match l with
  | [] => Ok []
  | a :: l' => b ← f a; bs ← map_r f l'; Ok (b :: bs)
  end.

(** A [for] loop with an accumulator whose body may raise. *)
Fixpoint fold_r {A S} (f : S → A → result S) (l : list A) (s : S) : result S :=
  match l with
  | [] => Ok s
  | a :: l' => s' ← f s a; fold_r f l' s'
  end.

(** ** Scalars *)

(** Arithmetic and comparisons of Python floats. [of_Z] is the conversion of
    an [int] that takes part in float arithmetic. *)
Class Num (T : Type) := {
  nzero : T;
  nadd : T → T → T;
  nsub : T → T → T;
  nmul : T → T → T;
  ndiv : T → T → T;
  of_Z : Z → T;
  nltb : T → T → bool;
  nleb : T → T → bool;
  neqb : T → T → bool;
}.

(** The part of floats beyond a field: [np.inf], [np.abs], [np.isnan],
    [np.isfinite]. *)
Class Float (T : Type) `{Num T} := {
  finf : T;
  fabs : T → T;
  isnan : T → bool;
  isfinite : T → bool;
}.

Declare Scope num_scope.
Delimit Scope num_scope with num.
Infix "+" := nadd : num_scope.
Infix "-" := nsub : num_scope.
Infix "*" := nmul : num_scope.
Infix "/" := ndiv : num_scope.
Infix "<?" := nltb : num_scope.
Infix "<=?" := nleb : num_scope.
Infix "=?" := neqb : num_scope.

(** *** Exact rationals *)

Definition Qc_of_Z (z : Z) : Qc := Q2Qc (inject_Z z).

Global Instance Qc_Num : Num Qc := {|
  nzero := Qc_of_Z 0;
  nadd := Qcplus;
  nsub := Qcminus;
  nmul := Qcmult;
  ndiv := Qcdiv;
  of_Z := Qc_of_Z;
  nltb := λ a b, bool_decide (a < b)%Qc;
  nleb := λ a b, bool_decide (a ≤ b)%Qc;
  neqb := λ a b, bool_decide (a = b);
|}.

(** *** Rationals extended with the IEEE special values *)

Inductive xfloat :=
| Fin (q : Qc)
| PInf
| NInf
| NaN.

Global Instance xfloat_eq_dec : EqDecision xfloat.
Proof. solve_decision. Defined.

Definition xneg (a : xfloat) : xfloat :=
  match a with
  | Fin q => Fin (- q)%Qc
  | PInf => NInf
  | NInf => PInf
  | NaN => NaN
  end.

Definition xadd (a b : xfloat) : xfloat :=
  match a, b with
  | NaN, _ | _, NaN => NaN
  | Fin p, Fin q => Fin (p + q)%Qc
  | PInf, NInf | NInf, PInf => NaN
  | PInf, _ | _, PInf => PInf
  | NInf, _ | _, NInf => NInf
  end.

Definition xsub (a b : xfloat) : xfloat := xadd a (xneg b).

(** [inf] times a finite value: the sign decides, [inf * 0] is [NaN]. *)
Definition inf_times (positive : bool) (q : Qc) : xfloat :=
  match (q ?= Qc_of_Z 0)%Qc with
  | Eq => NaN
  | Gt => if positive then PInf else NInf
  | Lt => if positive then NInf else PInf
  end.

Definition xmul (a b : xfloat) : xfloat :=
  match a, b with
  | NaN, _ | _, NaN => NaN
  | Fin p, Fin q => Fin (p * q)%Qc
  | PInf, Fin q | Fin q, PInf => inf_times true q
  | NInf, Fin q | Fin q, NInf => inf_times false q
  | PInf, PInf | NInf, NInf => PInf
  | PInf, NInf | NInf, PInf => NaN
  end.

(** Division of NumPy floats: [x / 0] is [+-inf] ([NaN] for [0 / 0]) with a
    warning, a finite value over an infinity is [0]. *)
Definition xdiv (a b : xfloat) : xfloat :=
  match a, b with
  | NaN, _ | _, NaN => NaN
  | Fin p, Fin q =>
      if bool_decide (q = Qc_of_Z 0) then inf_times true p else Fin (p / q)%Qc
  | Fin _, (PInf | NInf) => Fin (Qc_of_Z 0)
  | PInf, Fin q => if bool_decide (q < Qc_of_Z 0)%Qc then NInf else PInf
  | NInf, Fin q => if bool_decide (q < Qc_of_Z 0)%Qc then PInf else NInf
  | (PInf | NInf), (PInf | NInf) => NaN
  end.

Definition xltb (a b : xfloat) : bool :=
  match a, b with
  | NaN, _ | _, NaN => false
  | Fin p, Fin q => bool_decide (p < q)%Qc
  | NInf, (Fin _ | PInf) => true
  | Fin _, PInf => true
  | _, _ => false
  end.

Definition xeqb (a b : xfloat) : bool :=
  match a, b with
  | Fin p, Fin q => bool_decide (p = q)
  | PInf, PInf | NInf, NInf => true
  | _, _ => false
  end.

Definition xleb (a b : xfloat) : bool := xltb a b || xeqb a b.

Global Instance xfloat_Num : Num xfloat := {|
  nzero := Fin (Qc_of_Z 0);
  nadd := xadd;
  nsub := xsub;
  nmul := xmul;
  ndiv := xdiv;
  of_Z := λ z, Fin (Qc_of_Z z);
  nltb := xltb;
  nleb := xleb;
  neqb := xeqb;
|}.

Definition xabs (a : xfloat) : xfloat :=
  match a with
  | Fin q => if bool_decide (q < Qc_of_Z 0)%Qc then Fin (- q)%Qc else Fin q
  | PInf | NInf => PInf
  | NaN => NaN
  end.

Global Instance xfloat_Float : Float xfloat := {|
  finf := PInf;
  fabs := xabs;
  isnan := λ a, match a with NaN => true | _ => false end;
  isfinite := λ a, match a with Fin _ => true | _ => false end;
|}.

(** ** Matrices *)

Abbreviation vector T := (list T) (only parsing).
Abbreviation matrix T := (list (list T)) (only parsing).

Section Matrix.
Context {T : Type} `{Num T}.
Local Open Scope num_scope.

Definition n_one : T := of_Z 1.

(** [np.zeros(shape=(r, c))], [np.eye(n)] *)
Definition zeros (r c : nat) : matrix T := replicate r (replicate c nzero).
Definition eye (n : nat) : matrix T :=
  map (λ i, map (λ j, if Nat.eqb i j then n_one else nzero) (seq 0 n)) (seq 0 n).

Definition nrows (A : matrix T) : nat := length A.
Definition ncols (A : matrix T) : nat := length (hd [] A).

(** [A[:, j]] of a matrix all of whose rows reach column [j] *)
Definition col (j : nat) (A : matrix T) : vector T := map (λ r, nth j r nzero) A.
(** [A[:, j]], [IndexError] when a row is too short *)
Definition col_r (j : nat) (A : matrix T) : result (vector T) :=
  map_r (λ r, at_index r j) A.

(** [A.T] *)
Definition transpose (A : matrix T) : matrix T :=
  map (λ j, col j A) (seq 0 (ncols A)).

Definition vsum (v : vector T) : T := fold_left nadd v nzero.
Definition dot (u v : vector T) : T := vsum (zip_with nmul u v).

(** [A @ B] *)
Definition matmul (A B : matrix T) : matrix T :=
  map (λ r, map (λ c, dot r c) (transpose B)) A.

(** Element-wise [A + B], [A - B], [A * B] of equal shapes *)
Definition madd (A B : matrix T) : matrix T := zip_with (zip_with nadd) A B.
Definition msub (A B : matrix T) : matrix T := zip_with (zip_with nsub) A B.
Definition mhad (A B : matrix T) : matrix T := zip_with (zip_with nmul) A B.

(** [s * A] and [A / s] for a scalar [s] *)
Definition mscale (s : T) (A : matrix T) : matrix T := map (map (nmul s)) A.
Definition mdivs (A : matrix T) (s : T) : matrix T := map (map (λ a, a / s)) A.

(** [np.trace(A)] *)
Definition trace (A : matrix T) : T :=
  vsum (imap (λ i r, nth i r nzero) A).

(** The scalar held by a [1 x 1] array. *)
Definition scalar11 (A : matrix T) : T := nth 0 (hd [] A) nzero.

(** A column vector [n x 1] from its entries, and back. *)
Definition colvec (v : vector T) : matrix T := map (λ a, [a]) v.
Definition uncol (A : matrix T) : vector T := map (λ r, nth 0 r nzero) A.

(** [np.reshape(A, (-1, 1), order='F')]: the columns of [A] one after the
    other, as one column. *)
Definition reshape_F (A : matrix T) : matrix T := colvec (concat (transpose A)).

(** [np.diagflat(D)] for a column vector [D] *)
Definition diagflat (D : matrix T) : matrix T :=
  let d := uncol D in
  imap (λ i a, imap (λ j _, if Nat.eqb i j then a else nzero) d) d.

(** [np.linspace(0, 1, n)]: [ValueError] for a negative [n]; one sample is
    [[0.]]; otherwise [i / (n - 1)] for [i = 0 .. n-1]. *)
Definition linspace01 (n : Z) : result (vector T) :=
  if (n <? 0)%Z then Raise (ValueError "Number of samples must be non-negative")
  else if (n =? 1)%Z then Ok [nzero]
  else Ok (map (λ i, of_Z (Z.of_nat i) / of_Z (n - 1)) (seq 0 (Z.to_nat n))).

(** [np.interp(x, xp, fp)] for one [x] and increasing [xp]: [fp[0]] left of
    the samples, [fp[-1]] right of them, and between [xp[j] <= x < xp[j+1]]
    the value [(fp[j+1] - fp[j]) / (xp[j+1] - xp[j]) * (x - xp[j]) + fp[j]].
    [interp_from] walks the segments from [(x0, y0)]. *)
Fixpoint interp_from (x x0 y0 : T) (xp fp : vector T) : T :=
  match xp, fp with
  | x1 :: xp', y1 :: fp' =>
      if x <? x1 then (y1 - y0) / (x1 - x0) * (x - x0) + y0
      else interp_from x x1 y1 xp' fp'
  | _, _ => y0
  end.

Definition interp1 (x : T) (xp fp : vector T) : T :=
  match xp, fp with
  | x0 :: xp', y0 :: fp' =>
      if x <=? x0 then y0 else interp_from x x0 y0 xp' fp'
  | _, _ => nzero
  end.

(** [np.interp(xs, xp, fp)]: [ValueError] when [xp] is empty or [xp] and
    [fp] differ in length. *)
Definition np_interp (xs xp fp : vector T) : result (vector T) :=
  match xp with
  | [] => Raise (ValueError "array of sample points is empty")
  | _ =>
      if Nat.eqb (length xp) (length fp) then Ok (map (λ x, interp1 x xp fp) xs)
      else Raise (ValueError "fp and xp are not of the same length.")
  end.
End Matrix.


(** ** Python values at the dynamic boundaries *)

(** Values of the [settings] dictionary. *)
Inductive pyval :=
| PyStr (s : string)
| PyInt (z : Z)
| PyNone.

(** A trajectory [(x, Y)]: [x] of length [n], [Y] of shape [n x ndim]. *)
Definition trajectory (T : Type) : Type := vector T * matrix T.

(** ** Functions the two files call but do not define

    They are parameters of the embedding, grouped by where they come from:
    [numpy] and [numpy.linalg]; [teetool.basis.Basis]; the functions of
    [teetool.helpers] used while a model is built; those used by the
    queries.  [ellipse_points] stands for the body of [Model._getEllipse],
    whose [svd], [sqrt], [cos] and [sin] leave exact arithmetic: it receives
    [ndim], the centre, the covariance, the width and the number of
    samples. *)

Class Linalg (T : Type) := {
  np_log : T → T;
  np_pi : T;
  linalg_inv : matrix T → result (matrix T);
  linalg_pinv : matrix T → result (matrix T);
  linalg_det : matrix T → result T;
  linalg_cond : matrix T → result T;
}.

Class BasisLib (T : Type) := {
  basis : Type;
  Basis_new : pyval → Z → nat → result basis;
  Basis_get : basis → vector T → result (matrix T);
}.

Class Helpers (T : Type) := {
  getDimension : list (trajectory T) → result nat;
  get_cluster_data_outline : list (trajectory T) → result (vector T);
  get_cluster_data_norm :
    list (trajectory T) → vector T → result (list (trajectory T));
  nearest_spd : matrix T → result (matrix T);
}.

Class QueryHelpers (T : Type) := {
  unique_rows : matrix T → matrix T;
  in_hull : matrix T → matrix T → result (list bool);
  gauss_logLc : vector T → nat → list (matrix T) → list (matrix T) → result T;
  ellipse_points : nat → matrix T → matrix T → T → nat → result (matrix T);
}.

(** ** The cell decomposition

    [_getMuSigma] and [_getGMMCells] are defined twice in the source, word
    for word, in [GaussianProcess] and in [Model]; both read the dimension
    [D] from [self._ndim]. *)

Section Cells.
Context {T : Type} `{Num T} `{!Helpers T}.

Definition getMuSigma (D : nat) (mu_y sig_y : matrix T) (npoint ngaus : Z)
  : result (matrix T * matrix T) :=
  if (npoint <? 0)%Z || (npoint >=? ngaus)%Z then
    Raise (ValueError "npoint not in [0, ngaus]")
  else
    let pos d := Z.to_nat (npoint + Z.of_nat d * ngaus) in
    rows ← map_r (λ d_row,
              mu_row ← at_index mu_y (pos d_row);
              c ← at_index mu_row 0;
              sig_row ← at_index sig_y (pos d_row);
              A_row ← map_r (λ d_col, at_index sig_row (pos d_col)) (seq 0 D);
              Ok (c, A_row))
            (seq 0 D);
    Ok (colvec (map fst rows), map snd rows).

Definition getGMMCells (D : nat) (mu_y sig_y : matrix T) (ngaus : Z)
  : result (list (matrix T) * list (matrix T)) :=
  cells ← map_r (λ m,
              '(c, A) ← getMuSigma D mu_y sig_y (Z.of_nat m) ngaus;
              A ← nearest_spd A;
              Ok (c, A))
            (seq 0 (Z.to_nat ngaus));
  Ok (map fst cells, map snd cells).
End Cells.

(** ** gaussianprocess.py *)

Module GaussianProcess.
Section GaussianProcess.
Context {T : Type} `{Float T} `{!Linalg T} `{!BasisLib T} `{!Helpers T}.
Local Open Scope num_scope.

Record t := {
  _cluster_data : list (trajectory T);
  _outline : vector T;
  _ngaus : Z;
  _ndim : nat;
}.

Global Instance process_eq_dec `{EqDecision T} : EqDecision t.
Proof. solve_decision. Defined.

(** [GaussianProcess.__init__] *)
Definition __init__ (cluster_data : list (trajectory T)) (ngaus : Z) : result t :=
  outline ← get_cluster_data_outline cluster_data;
  cluster_data_norm ← get_cluster_data_norm cluster_data outline;
  ndim ← getDimension cluster_data;
  Ok {| _cluster_data := cluster_data_norm; _outline := outline;
        _ngaus := ngaus; _ndim := ndim |}.

(** [np.concatenate(l, axis=0)]: [ValueError] on an empty list. *)
Definition np_concatenate (l : list (matrix T)) : result (matrix T) :=
  match l with
  | [] => Raise (ValueError "need at least one array to concatenate")
  | _ => Ok (concat l)
  end.

(** [np.ones(shape=(n, 1)) * s] *)
Definition ones_times (n : nat) (s : T) : matrix T := replicate n [n_one * s].

(** The number of rows of [np.ones(shape=(n, 1))]: [ValueError] for a
    negative [n]. *)
Definition np_ones_rows (n : Z) : result nat :=
  if (n <? 0)%Z then Raise (ValueError "negative dimensions are not allowed")
  else Ok (Z.to_nat n).

Definition _outline2vectors (self : t) : result (matrix T * matrix T) :=
  MD ← map_r (λ d,
          xmin ← at_index (_outline self) (d * 2 + 0);
          xmax ← at_index (_outline self) (d * 2 + 1);
          n ← np_ones_rows (_ngaus self);
          Ok (ones_times n xmin, ones_times n (xmax - xmin)))
        (seq 0 (_ndim self));
  M ← np_concatenate (map fst MD);
  D ← np_concatenate (map snd MD);
  Ok (M, D).

Definition _norm2real (self : t) (mu_y sig_y : matrix T)
  : result (matrix T * matrix T) :=
  '(M, D) ← _outline2vectors self;
  let D_diag := diagflat (mhad D D) in
  let mu_y_real := madd (mhad mu_y D) M in
  let sig_y_real := matmul sig_y D_diag in
  Ok (mu_y_real, sig_y_real).

Definition _getMuSigma (self : t) (mu_y sig_y : matrix T) (npoint ngaus : Z)
  : result (matrix T * matrix T) :=
  getMuSigma (_ndim self) mu_y sig_y npoint ngaus.

Definition _getGMMCells (self : t) (mu_y sig_y : matrix T) (ngaus : Z)
  : result (list (matrix T) * list (matrix T)) :=
  getGMMCells (_ndim self) mu_y sig_y ngaus.

(** The value every estimator returns: [(mu_y, sig_y, cc, cA)]. *)
Definition estimate : Type :=
  matrix T * matrix T * list (matrix T) * list (matrix T).

(** Population mean and covariance of a list of column vectors of length
    [n], as the three estimators accumulate them: the sum starting from
    [np.zeros], divided by the number of vectors. *)
Definition mean_of (n : nat) (vs : list (matrix T)) : matrix T :=
  mdivs (fold_left madd vs (zeros n 1)) (of_Z (Z.of_nat (length vs))).

Definition cov_of (n : nat) (vs : list (matrix T)) (mu : matrix T) : matrix T :=
  mdivs (fold_left (λ acc v, madd acc (matmul (msub v mu) (transpose (msub v mu))))
                   vs (zeros n n))
        (of_Z (Z.of_nat (length vs))).

(** One trajectory resampled at [xp]: [yp[:, d] = np.interp(xp, xn, Yn[:, d])]
    for every dimension, then [np.reshape(yp, (-1, 1), order='F')]. *)
Definition resample (mdim : nat) (xp : vector T) (tr : trajectory T)
  : result (matrix T) :=
  let '(xn, Yn) := tr in
  cols ← map_r (λ d, ynd ← col_r d Yn; np_interp xp xn ynd) (seq 0 mdim);
  let yp := transpose cols in
  Ok (reshape_F yp).

Definition model_by_resampling (self : t) : result estimate :=
  let cluster_data := _cluster_data self in
  let ngaus := _ngaus self in
  let mdim := _ndim self in
  xp ← linspace01 ngaus;
  yc ← map_r (resample mdim xp) cluster_data;
  let mu_y := mean_of (mdim * Z.to_nat ngaus) yc in
  let sig_y := cov_of (mdim * Z.to_nat ngaus) yc mu_y in
  '(mu_y, sig_y) ← _norm2real self mu_y sig_y;
  '(cc, cA) ← _getGMMCells self mu_y sig_y (_ngaus self);
  Ok (mu_y, sig_y, cc, cA).

Definition model_by_ml (self : t) (type_basis : pyval) (nbasis : Z)
  : result estimate :=
  let cluster_data := _cluster_data self in
  let ngaus := _ngaus self in
  let ndim := _ndim self in
  basis ← Basis_new type_basis nbasis ndim;
  wc ← map_r (λ '(xn, Y),
           let yn := reshape_F Y in
           Hn ← Basis_get basis xn;
           Hn_pinv ← linalg_pinv Hn;
           Ok (matmul Hn_pinv yn))
         cluster_data;
  let mu_w := mean_of (ndim * Z.to_nat nbasis) wc in
  let sig_w := cov_of (ndim * Z.to_nat nbasis) wc mu_w in
  xp ← linspace01 ngaus;
  Hp ← Basis_get basis xp;
  let mu_y := matmul Hp mu_w in
  let sig_y := matmul (matmul Hp sig_w) (transpose Hp) in
  '(mu_y, sig_y) ← _norm2real self mu_y sig_y;
  '(cc, cA) ← _getGMMCells self mu_y sig_y (_ngaus self);
  Ok (mu_y, sig_y, cc, cA).

(** *** Expectation maximization

    [BETA_EM] and the log-likelihoods are [1 x 1] arrays after the first
    update; NumPy broadcasts them as scalars, and they are scalars here. *)

Definition _from_clusterdata2cells (cluster_data : list (trajectory T)) (b : basis)
  : result (list (matrix T) * list (matrix T)) :=
  cells ← map_r (λ '(xn, Yn),
              let yn := reshape_F Yn in
              Hn ← Basis_get b xn;
              Ok (yn, Hn))
            cluster_data;
  Ok (map fst cells, map snd cells).

Definition _Ewn_Ewnwn (yn Hn mu_w sig_w_inv : matrix T) (BETA_EM : T)
  : result (matrix T * matrix T) :=
  let Sn_inv := madd sig_w_inv (mscale BETA_EM (matmul (transpose Hn) Hn)) in
  Sn ← linalg_inv Sn_inv;
  let Ewn := matmul Sn (madd (mscale BETA_EM (matmul (transpose Hn) yn))
                             (matmul sig_w_inv mu_w)) in
  let Ewnwn := madd Sn (matmul Ewn (transpose Ewn)) in
  Ok (Ewn, Ewnwn).

Definition _Ewc_Ewwc (yc Hc : list (matrix T)) (mu_w sig_w_inv : matrix T)
    (BETA_EM : T) : result (list (matrix T) * list (matrix T)) :=
  let ntraj := length yc in
  Es ← map_r (λ n,
           yn ← at_index yc n;
           Hn ← at_index Hc n;
           _Ewn_Ewnwn yn Hn mu_w sig_w_inv BETA_EM)
         (seq 0 ntraj);
  Ok (map fst Es, map snd Es).

(** [np.zeros_like(A)] *)
Definition zeros_like (A : matrix T) : matrix T := map (map (λ _, nzero)) A.

Definition _E_mu (Ewc : list (matrix T)) : result (matrix T) :=
  let ntraj := length Ewc in
  Ew0 ← at_index Ewc 0;
  let mu_w_sum := fold_left madd Ewc (zeros_like Ew0) in
  Ok (mdivs mu_w_sum (of_Z (Z.of_nat ntraj))).

Definition _E_sigma (mu_w : matrix T) (yc Hc Ewc Ewwc : list (matrix T))
  : result (matrix T) :=
  let ntraj := length yc in
  Eww0 ← at_index Ewwc 0;
  sig_w_sum ← fold_r (λ sig_w_sum n,
                 yn ← at_index yc n;
                 Hn ← at_index Hc n;
                 Ewn ← at_index Ewc n;
                 Ewnwn ← at_index Ewwc n;
                 let SIGMA_n :=
                   madd (msub Ewnwn (mscale (of_Z 2) (matmul mu_w (transpose Ewn))))
                        (matmul mu_w (transpose mu_w)) in
                 Ok (madd sig_w_sum SIGMA_n))
               (seq 0 ntraj) (zeros_like Eww0);
  Ok (mdivs sig_w_sum (of_Z (Z.of_nat ntraj))).

(** The residual sum shared by [_E_beta] and [_L_pYw]:
    [yn.T @ yn - 2.*(yn.T @ (Hn @ Ewn)) + np.trace((Hn.T @ Hn) @ Ewnwn)]
    accumulated over the trajectories from [0.]. *)
Definition residual_sum (yc Hc Ewc Ewwc : list (matrix T)) : result T :=
  let ntraj := length yc in
  fold_r (λ acc n,
      yn ← at_index yc n;
      Hn ← at_index Hc n;
      Ewn ← at_index Ewc n;
      Ewnwn ← at_index Ewwc n;
      Ok (acc + (scalar11 (matmul (transpose yn) yn)
                 - of_Z 2 * scalar11 (matmul (transpose yn) (matmul Hn Ewn))
                 + trace (matmul (matmul (transpose Hn) Hn) Ewnwn))))
    (seq 0 ntraj) nzero.

(** [BETA_sum_inv] starts as the Python float [0.] and is an array from the
    first trajectory on: without trajectories the division is Python's
    and raises [ZeroDivisionError]; otherwise it is NumPy's. *)
Definition _E_beta (yc Hc Ewc Ewwc : list (matrix T)) (ndim : nat) (Mstar : Z)
  : result T :=
  BETA_sum_inv ← residual_sum yc Hc Ewc Ewwc;
  match yc with
  | [] => Raise ZeroDivisionError
  | _ => Ok (of_Z (Z.of_nat ndim * Mstar) / BETA_sum_inv)
  end.

Definition _L_pYw (yc Hc Ewc Ewwc : list (matrix T)) (ndim : nat) (Mstar : Z)
    (BETA_EM : T) : result T :=
  loglikelihood_pYw_sum ← residual_sum yc Hc Ewc Ewwc;
  let half := of_Z (Mstar * Z.of_nat ndim) / of_Z 2 in
  Ok (half * np_log (of_Z 2 * np_pi) - half * np_log BETA_EM
      + (BETA_EM / of_Z 2) * loglikelihood_pYw_sum).

(** The sentinel [1e4] of [_L_pw]. *)
Definition sentinel : T := of_Z 10000.

Definition _L_pw (Ewc Ewwc : list (matrix T)) (mu_w sig_w sig_w_inv : matrix T)
    (ndim : nat) (nbasis : Z) : result T :=
  c ← linalg_cond sig_w;
  if nzero <? c then Ok sentinel
  else
    let ntraj := length Ewc in
    loglikelihood_pw_sum ← fold_r (λ acc n,
        Ewn ← at_index Ewc n;
        Ewnwn ← at_index Ewwc n;
        Ok (acc + trace (mhad sig_w_inv
                   (madd (msub Ewnwn (matmul (mscale (of_Z 2) mu_w) (transpose Ewn)))
                         (matmul mu_w (transpose mu_w))))))
      (seq 0 ntraj) nzero;
    d ← linalg_det sig_w;
    Ok (of_Z (Z.of_nat ntraj * nbasis * Z.of_nat ndim) / of_Z 2
          * np_log (of_Z 2 * np_pi)
        + of_Z (Z.of_nat ntraj) / of_Z 2 * np_log d
        + of_Z 1 / of_Z 2 * loglikelihood_pw_sum).

(** The variables the EM loop carries: [mu_w], [sig_w], [sig_w_inv],
    [BETA_EM]. *)
Definition em_state : Type := matrix T * matrix T * matrix T * T.

(** The body of the EM loop up to the convergence check: the updated
    variables and [loglikelihood_pY]. *)
Definition em_iteration (yc Hc : list (matrix T)) (ndim : nat) (Mstar nbasis : Z)
    (st : em_state) : result (em_state * T) :=
  let '(mu_w, sig_w, sig_w_inv, BETA_EM) := st in
  '(Ewc, Ewwc) ← _Ewc_Ewwc yc Hc mu_w sig_w_inv BETA_EM;
  mu_w ← _E_mu Ewc;
  sig_w ← _E_sigma mu_w yc Hc Ewc Ewwc;
  sig_w_inv ← linalg_inv sig_w;
  BETA_EM ← _E_beta yc Hc Ewc Ewwc ndim Mstar;
  loglikelihood_pYw ← _L_pYw yc Hc Ewc Ewwc ndim Mstar BETA_EM;
  loglikelihood_pw ← _L_pw Ewc Ewwc mu_w sig_w sig_w_inv ndim nbasis;
  Ok ((mu_w, sig_w, sig_w_inv, BETA_EM), loglikelihood_pYw + loglikelihood_pw).

(** [CONV_LIKELIHOOD = 1e-3] *)
Definition CONV_LIKELIHOOD : T := of_Z 1 / of_Z 1000.

(** [for i_iter in range(MAX_ITERATIONS)] with its two [break]s; the
    argument [n] counts the iterations that remain. *)
Fixpoint em_loop {St : Type} (body : St → result (St * T)) (n : nat) (st : St)
    (loglikelihood_previous : T) : result St :=
  match n with
  | O => Ok st
  | S n' =>
      '(st', loglikelihood_pY) ← body st;
      let loglikelihood_diff := fabs (loglikelihood_pY - loglikelihood_previous) in
      if isfinite loglikelihood_pY then
        if loglikelihood_diff <? CONV_LIKELIHOOD then Ok st'
        else em_loop body n' st' loglikelihood_pY
      else Ok st'
  end.

Definition model_by_em (self : t) (type_basis : pyval) (nbasis : Z)
    (maximum_iterations : Z) : result estimate :=
  let cluster_data := _cluster_data self in
  let ngaus := _ngaus self in
  let ndim := _ndim self in
  let Mstar := fold_left (λ acc '(xn, Yn), (acc + Z.of_nat (length xn))%Z)
                         cluster_data 0%Z in
  basis ← Basis_new type_basis nbasis ndim;
  '(yc, Hc) ← _from_clusterdata2cells cluster_data basis;
  let MAX_ITERATIONS := maximum_iterations in
  let BETA_EM := of_Z 1000 in
  let mu_w := zeros (Z.to_nat nbasis * ndim) 1 in
  let sig_w := eye (Z.to_nat nbasis * ndim) in
  sig_w_inv ← linalg_inv sig_w;
  '(mu_w, sig_w, _, _) ← em_loop (em_iteration yc Hc ndim Mstar nbasis)
                            (Z.to_nat MAX_ITERATIONS)
                            (mu_w, sig_w, sig_w_inv, BETA_EM) finf;
  xp ← linspace01 ngaus;
  Hp ← Basis_get basis xp;
  let mu_y := matmul Hp mu_w in
  let sig_y := matmul (matmul Hp sig_w) (transpose Hp) in
  '(mu_y, sig_y) ← _norm2real self mu_y sig_y;
  '(cc, cA) ← _getGMMCells self mu_y sig_y (_ngaus self);
  Ok (mu_y, sig_y, cc, cA).

(** The default of [maximum_iterations]. *)
Definition default_maximum_iterations : Z := 2001.
End GaussianProcess.
End GaussianProcess.

(** ** Arrays with any number of axes

    The grids [xx], [yy], [zz], the results [ss] and the membership array
    of [isInside_pnts]: a shape and the entries in row-major order.  An
    index with fewer subscripts than axes (a sub-array in NumPy) is outside
    the model and reported as [IndexError]. *)

Record ndarray (A : Type) := NDArray { shape : list nat; data : list A }.
Arguments NDArray {A} shape data.
Arguments shape {A} _.
Arguments data {A} _.

Global Instance ndarray_eq_dec {A} `{EqDecision A} : EqDecision (ndarray A).
Proof. solve_decision. Defined.

Section NDArray.
Context {A : Type}.

(** [np.size(a, axis)] *)
Definition np_size (a : ndarray A) (axis : nat) : result nat :=
  at_index (shape a) axis.

(** Row-major position of a full index, [None] out of bounds. *)
Fixpoint offset (sh idx : list nat) (acc : nat) : option nat :=
  match sh, idx with
  | [], [] => Some acc
  | s :: sh', i :: idx' =>
      if (i <? s)%nat then offset sh' idx' (acc * s + i) else None
  | _, _ => None
  end.

(** [a[i, j, ...]] and [a[i, j, ...] = v] *)
Definition nd_get (a : ndarray A) (idx : list nat) : result A :=
  match offset (shape a) idx 0 with
  | Some k => at_index (data a) k
  | None => Raise IndexError
  end.

Definition nd_set (a : ndarray A) (idx : list nat) (v : A) : result (ndarray A) :=
  match offset (shape a) idx 0 with
  | Some k =>
      if (k <? length (data a))%nat then Ok (NDArray (shape a) (<[k := v]> (data a)))
      else Raise IndexError
  | None => Raise IndexError
  end.

(** Every index of a shape, in row-major order. *)
Fixpoint indices (sh : list nat) : list (list nat) :=
  match sh with
  | [] => [[]]
  | s :: sh' => flat_map (λ i, map (cons i) (indices sh')) (seq 0 s)
  end.

(** [np.full(shape, v)] *)
Definition nd_full (sh : list nat) (v : A) : ndarray A :=
  NDArray sh (replicate (length (indices sh)) v).

(** [a.squeeze()]: the axes of length one are dropped. *)
Definition squeeze (a : ndarray A) : ndarray A :=
  NDArray (filter (λ s, s ≠ 1) (shape a)) (data a).

(** [a.transpose()] of an array with at most two axes: the axes are
    reversed. *)
Definition nd_transpose (a : ndarray A) : ndarray A :=
  match shape a with
  | [r; c] =>
      NDArray [c; r]
        (flat_map (λ j, omap (λ i, data a !! (i * c + j)) (seq 0 r)) (seq 0 c))
  | _ => a
  end.

(** [np.array(rows)] for a list of one-axis arrays given by their
    entries: shape [(0,)] for the empty list, [(k, n)] for [k] rows of
    length [n]; rows of different lengths are refused. *)
Definition np_array_rows (rows : list (list A)) : result (ndarray A) :=
  match rows with
  | [] => Ok (NDArray [0] [])
  | r0 :: _ =>
      if forallb (λ r, Nat.eqb (length r) (length r0)) rows
      then Ok (NDArray [length rows; length r0] (concat rows))
      else Raise (ValueError "inhomogeneous shape")
  end.

(** The operand shapes of a binary operation broadcast together, aligned
    on the last axis, when every pair of lengths is equal or has a [1]. *)
Fixpoint broadcast_rev (s1 s2 : list nat) : option (list nat) :=
  match s1, s2 with
  | [], s | s, [] => Some s
  | a :: s1', b :: s2' =>
      r ← broadcast_rev s1' s2';
      if Nat.eqb a b then Some (a :: r)
      else if Nat.eqb a 1 then Some (b :: r)
      else if Nat.eqb b 1 then Some (a :: r)
      else None
  end.

Definition broadcast_shape (s1 s2 : list nat) : option (list nat) :=
  reverse <$> broadcast_rev (reverse s1) (reverse s2).

(** The entry of [a] that broadcasting puts at index [idx] of the common
    shape: leading axes [a] lacks are ignored, axes of length one repeat. *)
Definition bc_get (a : ndarray A) (idx : list nat) : result A :=
  let idx' := drop (length idx - length (shape a)) idx in
  nd_get a (zip_with (λ s i, if Nat.eqb s 1 then 0 else i) (shape a) idx').
End NDArray.

Section NDArrayOps.
Context {T : Type} `{Num T}.
Local Open Scope num_scope.

(** [np.all(a == b)]: element-wise with broadcasting.  For shapes that do
    not broadcast, [a == b] is the single value [False] (NumPy before
    1.25, with a warning; later versions raise instead). *)
Definition np_all_eq (a b : ndarray T) : bool :=
  match broadcast_shape (shape a) (shape b) with
  | Some sh =>
      forallb (λ idx,
          match bc_get a idx, bc_get b idx with
          | Ok x, Ok y => x =? y
          | _, _ => false
          end)
        (indices sh)
  | None => false
  end.

(** [np.all(zz1 == zz)] where either side may be [None]: [None == None]
    is [True]; an array compared with [None] is [False] at every entry. *)
Definition np_all_eq_opt (a b : option (ndarray T)) : bool :=
  match a, b with
  | None, None => true
  | Some a, Some b => np_all_eq a b
  | Some a, None | None, Some a => forallb (λ _, false) (data a)
  end.

(** [np.any(a, axis=1)]: [AxisError] for fewer than two axes.  More than
    two axes do not occur: the argument is built from a list of one-axis
    arrays. *)
Definition np_any_axis1 (a : ndarray bool) : result (ndarray bool) :=
  match shape a with
  | [r; c] =>
      Ok (NDArray [r]
            (map (λ i, existsb (λ j, default false (data a !! (i * c + j)%nat)) (seq 0 c))
                 (seq 0 r)))
  | [] | [_] => Raise AxisError
  | _ => Raise NotImplementedError
  end.
End NDArrayOps.

(** What a call that reads a local variable may do beyond returning and
    raising one of the exceptions above: find the variable unbound. *)
Inductive outcome (A : Type) :=
| Returns (a : A)
| Raises (e : exn)
| UnboundLocalError (name : string).
Arguments Returns {A} a.
Arguments Raises {A} e.
Arguments UnboundLocalError {A} name.

(** ** model.py *)

Module Model.
Section Model.
Context {T : Type} `{Float T} `{!Linalg T} `{!BasisLib T} `{!Helpers T}
        `{!QueryHelpers T}.
Local Open Scope num_scope.

(** A memoised tube query [[ss, sdwidth, xx, yy, zz]] and a memoised
    log-density query [[ss, xx, yy, zz]]. *)
Definition tube_entry : Type :=
  ndarray T * T * ndarray T * ndarray T * option (ndarray T).
Definition logp_entry : Type :=
  ndarray T * ndarray T * ndarray T * option (ndarray T).

Record t := {
  _ndim : nat;
  _mu_y : matrix T;
  _sig_y : matrix T;
  _cc : list (matrix T);
  _cA : list (matrix T);
  _list_tube : list tube_entry;
  _list_logp : list logp_entry;
}.

Global Instance t_eq_dec `{EqDecision T} : EqDecision t.
Proof. solve_decision. Defined.

(** [self._list_tube = l] and [self._list_logp = l] *)
Definition set_list_tube (self : t) (l : list tube_entry) : t :=
  {| _ndim := _ndim self; _mu_y := _mu_y self; _sig_y := _sig_y self;
     _cc := _cc self; _cA := _cA self;
     _list_tube := l; _list_logp := _list_logp self |}.

Definition set_list_logp (self : t) (l : list logp_entry) : t :=
  {| _ndim := _ndim self; _mu_y := _mu_y self; _sig_y := _sig_y self;
     _cc := _cc self; _cA := _cA self;
     _list_tube := _list_tube self; _list_logp := l |}.

(** *** Normalisation of [x] *)

(** [x.min()], [x.max()]: [ValueError] on an empty array; a [NaN] entry
    makes the result [NaN]. *)
Definition pick (better : T → T → bool) (m a : T) : T :=
  if isnan m then m else if isnan a then a else if better a m then a else m.

Definition np_min (x : vector T) : result T :=
  match x with
  | [] => Raise (ValueError "zero-size array to reduction operation minimum")
  | a :: x' => Ok (fold_left (pick nltb) x' a)
  end.

Definition np_max (x : vector T) : result T :=
  match x with
  | [] => Raise (ValueError "zero-size array to reduction operation maximum")
  | a :: x' => Ok (fold_left (pick (λ a m, m <? a)) x' a)
  end.

Definition _getMinMax (cluster_data : list (trajectory T)) : result (T * T) :=
  fold_r (λ '(xmin, xmax) '(x, Y),
      x1min ← np_min x;
      x1max ← np_max x;
      let xmin := if x1min <? xmin then x1min else xmin in
      let xmax := if xmax <? x1max then x1max else xmax in
      Ok (xmin, xmax))
    cluster_data (finf, nzero - finf).

Definition _getNorm (x : vector T) (tuple_min_max : T * T) : vector T :=
  let '(xmin, xmax) := tuple_min_max in
  map (λ a, (a - xmin) / (xmax - xmin)) x.

Definition _normalise_data (cluster_data : list (trajectory T))
  : result (list (trajectory T)) :=
  tuple_min_max ← _getMinMax cluster_data;
  Ok (map (λ '(x, Y), (_getNorm x tuple_min_max, Y)) cluster_data).

(** *** Construction *)

Definition _getMuSigma (ndim : nat) := getMuSigma (T:=T) ndim.
Definition _getGMMCells (ndim : nat) := getGMMCells (T:=T) ndim.

(** The objects in the tuple an estimator returns, and the tuple. *)
Inductive pyobj :=
| ObjArray (A : matrix T)
| ObjList (l : list (matrix T)).

Definition tuple_of (e : GaussianProcess.estimate) : list pyobj :=
  let '(mu_y, sig_y, cc, cA) := e in
  [ObjArray mu_y; ObjArray sig_y; ObjList cc; ObjList cA].

(** [(a, b) = tup] *)
Definition unpack2 (tup : list pyobj) : result (pyobj * pyobj) :=
  match tup with
  | [a; b] => Ok (a, b)
  | _ :: _ :: _ :: _ => Raise (ValueError "too many values to unpack (expected 2)")
  | _ => Raise (ValueError "not enough values to unpack (expected 2)")
  end.

Definition as_array (o : pyobj) : result (matrix T) :=
  match o with
  | ObjArray A => Ok A
  | ObjList _ => Raise (TypeError "list indices must be integers or slices, not tuple")
  end.

(** The checks of the settings: the model type, [ngaus] and, for the
    basis-based models, the value of [nbasis] (an [int] in the estimators;
    comparing another value with [2] is a [TypeError]). *)
Definition check_settings (settings : gmap string pyval)
  : result (string * Z) :=
  match settings !! "model_type" with
  | None => Raise (ValueError "settings has no model_type")
  | Some (PyStr model_type) =>
      match settings !! "ngaus" with
      | None => Raise (ValueError "settings has no ngaus")
      | Some (PyInt ngaus) =>
          if bool_decide (model_type = "ML") || bool_decide (model_type = "EM") then
            match settings !! "basis_type" with
            | None => Raise (ValueError "settings has no basis_type")
            | Some _ =>
                match settings !! "nbasis" with
                | None => Raise (ValueError "settings has no nbasis")
                | Some (PyInt nbasis) =>
                    if (nbasis <? 2)%Z
                    then Raise (ValueError "nbasis should be larger than 2")
                    else Ok (model_type, ngaus)
                | Some _ => Raise (TypeError "'<' not supported")
                end
            end
          else Ok (model_type, ngaus)
      | Some _ => Raise (TypeError "expected int")
      end
  | Some _ => Raise (TypeError "expected string")
  end.

Definition int_setting (settings : gmap string pyval) (key : string) : result Z :=
  match settings !! key with
  | Some (PyInt z) => Ok z
  | Some _ => Raise (TypeError "expected int")
  | None => Raise (ValueError "missing key")
  end.

(** The estimator [Model.__init__] calls for [settings["model_type"]];
    [model_by_em] is called without [maximum_iterations]. *)
Definition run_estimator (gp : GaussianProcess.t) (settings : gmap string pyval)
    (model_type : string) : result GaussianProcess.estimate :=
  if bool_decide (model_type = "resampling") then
    GaussianProcess.model_by_resampling gp
  else if bool_decide (model_type = "ML") then
    nbasis ← int_setting settings "nbasis";
    GaussianProcess.model_by_ml gp (default PyNone (settings !! "basis_type")) nbasis
  else if bool_decide (model_type = "EM") then
    nbasis ← int_setting settings "nbasis";
    GaussianProcess.model_by_em gp (default PyNone (settings !! "basis_type")) nbasis
      GaussianProcess.default_maximum_iterations
  else Raise NotImplementedError.

Definition __init__ (cluster_data : list (trajectory T))
    (settings : gmap string pyval) : result t :=
  '(model_type, ngaus) ← check_settings settings;
  ndim ← getDimension cluster_data;
  norm_cluster_data ← _normalise_data cluster_data;
  gp ← GaussianProcess.__init__ norm_cluster_data ngaus;
  estimate ← run_estimator gp settings model_type;
  '(mu_y, sig_y) ← unpack2 (tuple_of estimate);
  mu_y ← as_array mu_y;
  sig_y ← as_array sig_y;
  '(cc, cA) ← _getGMMCells ndim mu_y sig_y ngaus;
  Ok {| _ndim := ndim; _mu_y := mu_y; _sig_y := sig_y; _cc := cc; _cA := cA;
        _list_tube := []; _list_logp := [] |}.

Definition clear (self : t) : t := set_list_logp (set_list_tube self []) [].

(** *** Geometry *)

(** [_getEllipse] returns nothing unless [ndim] is 2 or 3. *)
Definition _getEllipse (self : t) (c A : matrix T) (sdwidth : T) (npoints : nat)
  : result (option (matrix T)) :=
  if bool_decide (_ndim self = 2) || bool_decide (_ndim self = 3)
  then Some <$> ellipse_points (_ndim self) c A sdwidth npoints
  else Ok None.

(** [np.concatenate((Yi, Yi1), axis=0)] *)
Definition concat_clouds (Yi Yi1 : option (matrix T)) : result (matrix T) :=
  match Yi, Yi1 with
  | Some Y, Some Y1 => Ok (Y ++ Y1)
  | _, _ => Raise (ValueError "zero-dimensional arrays cannot be concatenated")
  end.

Definition _get_point_cloud (self : t) (sdwidth : T) (nsamples : nat)
  : result (list (matrix T)) :=
  let ngaus := length (_cc self) in
  c ← at_index (_cc self) 0;
  A ← at_index (_cA self) 0;
  Yi ← _getEllipse self c A sdwidth nsamples;
  '(list_points_cloud, _) ←
    fold_r (λ '(list_points_cloud, Yi) i,
        c ← at_index (_cc self) (i + 1);
        A ← at_index (_cA self) (i + 1);
        Yi1 ← _getEllipse self c A sdwidth nsamples;
        Y ← concat_clouds Yi Yi1;
        let Y := unique_rows Y in
        Ok (list_points_cloud ++ [Y], Yi1))
      (seq 0 (ngaus - 1)) ([], Yi);
  Ok list_points_cloud.

(** *** Grids and points *)

Definition _grid2points (self : t) (xx yy : ndarray T) (zz : option (ndarray T))
  : result (matrix T * list (list nat)) :=
  nx ← np_size xx 0;
  ny ← np_size yy 1;
  nz ← (if bool_decide (_ndim self = 3) then
          match zz with
          | Some zz => np_size zz 2
          | None => Raise IndexError
          end
        else Ok 0%nat);
  pts ←
    (if bool_decide (_ndim self = 2) then
       map_r (λ '(ix, iy),
           x1 ← nd_get xx [ix; 0%nat];
           y1 ← nd_get yy [0%nat; iy];
           Ok ([x1; y1], [ix; iy]))
         (flat_map (λ ix, map (pair ix) (seq 0 ny)) (seq 0 nx))
     else if bool_decide (_ndim self = 3) then
       match zz with
       | Some zz =>
           map_r (λ '(ix, iy, iz),
               x1 ← nd_get xx [ix; 0%nat; 0%nat];
               y1 ← nd_get yy [0%nat; iy; 0%nat];
               z1 ← nd_get zz [0%nat; 0%nat; iz];
               Ok ([x1; y1; z1], [ix; iy; iz]))
             (flat_map (λ ix, flat_map (λ iy, map (pair (ix, iy)) (seq 0 nz))
                                       (seq 0 ny))
                       (seq 0 nx))
       | None => Raise IndexError
       end
     else Raise NotImplementedError);
  match pts with
  | [] => Raise (ValueError "need at least one array to concatenate")
  | _ => Ok (map fst pts, map snd pts)
  end.

(** [np.max(Y_idx, axis=0) + 1] *)
Definition shape_of_indices (Y_idx : list (list nat)) : list nat :=
  map (λ k, S (foldr Nat.max 0%nat (map (λ r, nth k r 0%nat) Y_idx)))
      (seq 0 (length (hd [] Y_idx))).

Definition _points2grid (self : t) (s : ndarray T) (Y_idx : list (list nat))
  : result (ndarray T) :=
  let this_shape := shape_of_indices Y_idx in
  let ss := nd_full this_shape nzero in
  fold_r (λ ss '(i, y_idx),
      if bool_decide (_ndim self = 2) then
        match y_idx with
        | [ix; iy] => v ← nd_get s [i]; nd_set ss [ix; iy] v
        | _ => Raise (ValueError "wrong number of values to unpack")
        end
      else
        match y_idx with
        | [ix; iy; iz] => v ← nd_get s [i]; nd_set ss [ix; iy; iz] v
        | _ => Raise (ValueError "wrong number of values to unpack")
        end)
    (imap pair Y_idx) ss.

(** *** Tube membership *)

Definition isInside_pnts (self : t) (P : matrix T) (sdwidth : T) (nsamples : nat)
  : result (ndarray bool) :=
  list_Y ← _get_point_cloud self sdwidth nsamples;
  list_these_inside ← map_r (in_hull P) list_Y;
  arr ← np_array_rows list_these_inside;
  let arr_these_inside := nd_transpose (squeeze arr) in
  np_any_axis1 arr_these_inside.

Definition float_of_bool (b : bool) : T := if b then n_one else nzero.

Definition isInside_grid (self : t) (sdwidth : T) (xx yy : ndarray T)
    (zz : option (ndarray T)) : result (ndarray T * t) :=
  if negb (bool_decide (shape xx = shape yy)) then
    Raise (ValueError "dimensions should equal (use np.mgrid)")
  else
    let ss :=
      fold_left (λ ss '(ss1, sdwidth1, xx1, yy1, zz1),
          if np_all_eq xx1 xx && np_all_eq yy1 yy && np_all_eq_opt zz1 zz
             && (sdwidth1 =? sdwidth)
          then Some ss1 else ss)
        (_list_tube self) None in
    match ss with
    | Some ss => Ok (ss, self)
    | None =>
        '(Y_pos, Y_idx) ← _grid2points self xx yy zz;
        s ← isInside_pnts self Y_pos sdwidth 12;
        ss ← _points2grid self (NDArray (shape s) (map float_of_bool (data s))) Y_idx;
        Ok (ss, set_list_tube self (_list_tube self ++ [(ss, sdwidth, xx, yy, zz)]))
    end.

(** *** Log-density *)

(** [np.array(list_val).squeeze()] of one value per point. *)
Definition _eval_logp (self : t) (Y_pos : matrix T) : result (ndarray T) :=
  list_val ← map_r (λ y, gauss_logLc y (_ndim self) (_cc self) (_cA self)) Y_pos;
  Ok (squeeze (NDArray [length list_val] list_val)).

(** [np.nanmin]: the least entry that is not [NaN], if there is one. *)
Definition nanmin_step (m : option T) (a : T) : option T :=
  if isnan a then m
  else match m with
       | None => Some a
       | Some b => Some (if a <? b then a else b)
       end.

Definition nanmin (l : list T) : option T := fold_left nanmin_step l None.

(** [ss[np.isnan(ss)] = np.nanmin(ss)]; when every entry is [NaN] the
    minimum is [NaN] too and nothing changes. *)
Definition replace_nan (ss : ndarray T) : ndarray T :=
  match nanmin (data ss) with
  | Some m => NDArray (shape ss) (map (λ v, if isnan v then m else v) (data ss))
  | None => ss
  end.

Definition evalLogLikelihood (self : t) (xx yy : ndarray T)
    (zz : option (ndarray T)) : result (ndarray T * t) :=
  if negb (bool_decide (shape xx = shape yy)) then
    Raise (ValueError "dimensions should equal (use np.mgrid)")
  else
    let ss :=
      fold_left (λ ss '(ss1, xx1, yy1, zz1),
          if np_all_eq xx1 xx && np_all_eq yy1 yy && np_all_eq_opt zz1 zz
          then Some ss1 else ss)
        (_list_logp self) None in
    match ss with
    | Some ss => Ok (ss, self)
    | None =>
        '(Y_pos, Y_idx) ← _grid2points self xx yy zz;
        s ← _eval_logp self Y_pos;
        ss ← _points2grid self s Y_idx;
        let ss := replace_nan ss in
        Ok (ss, set_list_logp self (_list_logp self ++ [(ss, xx, yy, zz)]))
    end.

(** *** The mean trajectory *)

(** [np.reshape(A, (-1, ncol), order='F')]: the entries of [A] read column
    by column fill the columns of the result one after the other;
    [ValueError] when [ncol] does not divide their number (NumPy's message
    names the sizes). *)
Definition reshape_F_cols (A : matrix T) (ncol : nat) : result (matrix T) :=
  let flat := concat (transpose A) in
  if Nat.eqb ncol 0 || negb (Nat.eqb (length flat mod ncol) 0)
  then Raise (ValueError "cannot reshape array")
  else
    let nrow := (length flat / ncol)%nat in
    Ok (map (λ i, map (λ d, nth (i + d * nrow)%nat flat nzero) (seq 0 ncol))
            (seq 0 nrow)).

(** [getMean]: [x], [y], [z] are bound only when [ndim] is 2 or 3. *)
Definition getMean (self : t) : outcome (matrix T) :=
  let ndim := _ndim self in
  let mu_y := _mu_y self in
  match reshape_F_cols mu_y ndim with
  | Raise e => Raises e
  | Ok Y =>
      if bool_decide (ndim = 2) then
        let x := col 0 Y in
        let y := col 1 Y in
        let z := map (λ _, nzero) x in
        Returns (transpose [x; y; z])
      else if bool_decide (ndim = 3) then
        let x := col 0 Y in
        let y := col 1 Y in
        let z := col 2 Y in
        Returns (transpose [x; y; z])
      else UnboundLocalError "x"
  end.
End Model.
End Model.

(** ** Symmetric positive-definite matrices

    Sylvester's criterion, decided in the scalars: the matrix is square and
    symmetric and its leading principal minors are positive. *)

Section Spd.
Context {T : Type} `{Num T}.
Local Open Scope num_scope.

(** The rows of [A] without column [j]. *)
Definition drop_col (j : nat) (A : matrix T) : matrix T :=
  map (λ r, take j r ++ drop (S j) r) A.

(** The determinant of an [n x n] matrix, expanded along the first row. *)
Fixpoint det_laplace (n : nat) (A : matrix T) : T :=
  match n, A with
  | O, _ => n_one
  | S n', r0 :: rest =>
      vsum (imap (λ j a,
                let term := a * det_laplace n' (drop_col j rest) in
                if Nat.even j then term else nzero - term)
              r0)
  | S _, [] => nzero
  end.

Definition leading (k : nat) (A : matrix T) : matrix T := map (take k) (take k A).

Definition is_square (A : matrix T) : bool :=
  forallb (λ r, Nat.eqb (length r) (length A)) A.

Definition is_symmetric (A : matrix T) : bool :=
  forallb (λ i, forallb (λ j, nth j (nth i A []) nzero =? nth i (nth j A []) nzero)
                        (seq 0 (length A)))
          (seq 0 (length A)).

Definition is_spd (A : matrix T) : bool :=
  is_square A && is_symmetric A
  && forallb (λ k, nzero <? det_laplace k (leading k A)) (seq 1 (length A)).

(** The inverse as the adjugate over the determinant. *)
Definition minor (i j : nat) (A : matrix T) : matrix T :=
  drop_col j (take i A ++ drop (S i) A).

Definition cofactor (i j : nat) (A : matrix T) : T :=
  let m := det_laplace (length A - 1) (minor i j A) in
  if Nat.even (i + j) then m else nzero - m.

Definition adjugate_inverse (A : matrix T) : matrix T :=
  let d := det_laplace (length A) A in
  map (λ i, map (λ j, cofactor j i A / d) (seq 0 (length A))) (seq 0 (length A)).
End Spd.

(** ** Stand-ins for the external functions

    Concrete instances, used only to run the embedding on examples; every
    general statement below quantifies over arbitrary instances. *)

Section StandIns.
Context {T : Type} `{Num T}.
Local Open Scope num_scope.

(** Modelled from the spec: [getDimension], the [ndim] the trajectories
    of an ensemble share, read off the first [Y]. *)
Definition getDimension_model (cluster_data : list (trajectory T)) : result nat :=
  match cluster_data with
  | [] => Raise IndexError
  | (_, Y) :: _ => Ok (ncols Y)
  end.

Definition least (v : vector T) : T :=
  match v with
  | [] => nzero
  | a :: v' => fold_left (λ m b, if b <? m then b else m) v' a
  end.

Definition greatest (v : vector T) : T :=
  match v with
  | [] => nzero
  | a :: v' => fold_left (λ m b, if m <? b then b else m) v' a
  end.

(** Modelled from the spec: [get_cluster_data_outline], the per-dimension
    (min, max) of [Y] across the ensemble, laid out
    [[min_0, max_0, min_1, max_1, ...]] as [_outline2vectors] reads it. *)
Definition outline_model (cluster_data : list (trajectory T)) : result (vector T) :=
  ndim ← getDimension_model cluster_data;
  Ok (flat_map (λ d,
          let ys := flat_map (λ '(_, Y), col d Y) cluster_data in
          [least ys; greatest ys])
        (seq 0 ndim)).

(** Modelled from the spec: [get_cluster_data_norm], the transform that
    [_norm2real] inverts on the mean: [(y - min_d) / (max_d - min_d)] in
    every dimension [d]; [x] is left alone. *)
Definition norm_model (cluster_data : list (trajectory T)) (outline : vector T)
  : result (list (trajectory T)) :=
  Ok (map (λ '(x, Y),
          (x, map (λ r, imap (λ d y,
                     let lo := nth (d * 2) outline nzero in
                     let hi := nth (d * 2 + 1) outline nzero in
                     (y - lo) / (hi - lo)) r) Y))
        cluster_data).

(** Modelled from the spec: [nearest_spd], the projection on the nearest
    symmetric positive-definite matrix.  Such a matrix is its own
    projection; for any other matrix the stand-in stops at the symmetric
    part [(A + A.T) / 2], where the helper goes on with an eigenvalue
    repair outside exact arithmetic. *)
Definition nearest_spd_model (A : matrix T) : result (matrix T) :=
  if is_spd A then Ok A
  else Ok (mdivs (madd A (transpose A)) (of_Z 2)).

Definition helpers_model : Helpers T := {|
  getDimension := getDimension_model;
  get_cluster_data_outline := outline_model;
  get_cluster_data_norm := norm_model;
  nearest_spd := nearest_spd_model;
|}.

(** A condition number for diagonal matrices, all the examples use:
    the largest over the smallest absolute diagonal entry. *)
Definition is_diagonal (A : matrix T) : bool :=
  forallb (λ '(i, r), forallb (λ '(j, a), Nat.eqb i j || (a =? nzero)) (imap pair r))
          (imap pair A).

Definition magnitude (a : T) : T := if a <? nzero then nzero - a else a.

Definition cond_diagonal (A : matrix T) : result T :=
  if is_diagonal A && is_square A then
    let d := imap (λ i r, magnitude (nth i r nzero)) A in
    Ok (greatest d / least d)
  else Raise LinAlgError.

(** [inv] raises on an exactly singular matrix. *)
Definition inv_model (A : matrix T) : result (matrix T) :=
  if det_laplace (length A) A =? nzero then Raise LinAlgError
  else Ok (adjugate_inverse A).

(** The pseudo-inverse of a matrix of full column rank,
    [inv(A.T @ A) @ A.T]. *)
Definition pinv_model (A : matrix T) : result (matrix T) :=
  G ← inv_model (matmul (transpose A) A);
  Ok (matmul G (transpose A)).

(** Rows without repetition. *)
Definition row_eqb (r1 r2 : vector T) : bool :=
  Nat.eqb (length r1) (length r2) && forallb (λ '(a, b), a =? b) (zip r1 r2).

Fixpoint unique_rows_model (A : matrix T) : matrix T :=
  match A with
  | [] => []
  | r :: A' =>
      let rest := unique_rows_model A' in
      if existsb (row_eqb r) rest then rest else r :: rest
  end.

(** The bounding box of a cloud instead of its convex hull: one boolean
    per query point. *)
Definition in_box (P Y : matrix T) : result (list bool) :=
  Ok (map (λ p,
          forallb (λ '(d, a), (least (col d Y) <=? a) && (a <=? greatest (col d Y)))
                  (imap pair p))
        P).

(** A cloud around a cell instead of its ellipsoid: the centre moved by
    [sdwidth] times the variance along each axis, both ways. *)
Definition axis_points (ndim : nat) (c A : matrix T) (sdwidth : T) (npoints : nat)
  : result (matrix T) :=
  let centre := uncol c in
  Ok (flat_map (λ d,
          let r := sdwidth * nth d (nth d A []) nzero in
          [imap (λ k a, if Nat.eqb k d then a + r else a) centre;
           imap (λ k a, if Nat.eqb k d then a - r else a) centre])
        (seq 0 ndim)).
End StandIns.

(** Stand-ins that need the special values. *)

(** The logarithm on the special values; on a positive rational [q] the
    first-order value [2 (q - 1) / (q + 1)]. *)
Definition xlog (a : xfloat) : xfloat :=
  match a with
  | NaN | NInf => NaN
  | PInf => PInf
  | Fin q =>
      match (q ?= Qc_of_Z 0)%Qc with
      | Lt => NaN
      | Eq => NInf
      | Gt => Fin (Qc_of_Z 2 * (q - Qc_of_Z 1) / (q + Qc_of_Z 1))%Qc
      end
  end.

Global Instance xfloat_Linalg : Linalg xfloat := {|
  np_log := xlog;
  np_pi := Fin (Q2Qc (355 # 113));
  linalg_inv := inv_model;
  linalg_pinv := pinv_model;
  linalg_det := λ A, Ok (det_laplace (length A) A);
  linalg_cond := cond_diagonal;
|}.

(** No basis family is modelled. *)
Global Instance no_BasisLib {T : Type} : BasisLib T := {|
  basis := unit;
  Basis_new := λ _ _ _, Raise NotImplementedError;
  Basis_get := λ _ _, Raise NotImplementedError;
|}.

(** The log-density of unit Gaussians at the cell centres with the sum
    replaced by its largest term, [- |y - c|^2 / 2]; below [-745] the
    density underflows to zero and its logarithm is [-inf]. *)
Definition sq_dist (y : vector xfloat) (c : matrix xfloat) : xfloat :=
  vsum (zip_with (λ a b, xmul (xsub a b) (xsub a b)) y (uncol c)).

Definition log_density_model (y : vector xfloat) (ndim : nat)
    (cc cA : list (matrix xfloat)) : result xfloat :=
  let best := greatest (map (λ c, xdiv (xneg (sq_dist y c)) (Fin (Qc_of_Z 2))) cc) in
  Ok (if xltb best (Fin (Qc_of_Z (-745))) then NInf else best).

Global Instance xfloat_QueryHelpers : QueryHelpers xfloat := {|
  unique_rows := unique_rows_model;
  in_hull := in_box;
  gauss_logLc := log_density_model;
  ellipse_points := axis_points;
|}.

Global Instance xfloat_Helpers : Helpers xfloat := helpers_model.
Global Instance Qc_Helpers : Helpers Qc := helpers_model.

(** ** The flattening convention

    How the estimators lay out a joint Gaussian: the entries are grouped by
    dimension first (all [ngaus] values of dimension 0, then dimension 1,
    ...), as [np.reshape(..., order='F')] does with an [ngaus x ndim]
    array.  A cell is the pair of a mean (its [ndim] entries) and a
    covariance ([ndim x ndim]). *)

Section Flatten.
Context {T : Type} `{Num T}.

(** [mu_y] and [sig_y] hold the cells: entry [d] of the mean of cell [m]
    is [mu_y[m + d*ngaus, 0]], entry [(d1, d2)] of its covariance is
    [sig_y[m + d1*ngaus, m + d2*ngaus]].  Nothing is asked of the other
    entries of [sig_y]. *)
Definition flattened (ngaus : nat) (cells : list (vector T * matrix T))
    (mu_y sig_y : matrix T) : Prop :=
  ∀ m c A, cells !! m = Some (c, A) →
    (∀ d a, c !! d = Some a →
       ∃ row, mu_y !! (m + d * ngaus)%nat = Some row ∧ row !! 0%nat = Some a)
    ∧ (∀ d1 d2 r a, A !! d1 = Some r → r !! d2 = Some a →
         ∃ row, sig_y !! (m + d1 * ngaus)%nat = Some row
                ∧ row !! (m + d2 * ngaus)%nat = Some a).

(** The joint Gaussian of a sequence of cells of dimension [D], with no
    covariance between different cells. *)
Definition flatten_mean (D : nat) (cells : list (vector T * matrix T)) : matrix T :=
  colvec (flat_map (λ d, map (λ cell, nth d (fst cell) nzero) cells) (seq 0 D)).

Definition flatten_cov (D : nat) (cells : list (vector T * matrix T)) : matrix T :=
  flat_map (λ d1,
      imap (λ m cell,
          flat_map (λ d2,
              imap (λ m' _, if Nat.eqb m m'
                            then nth d2 (nth d1 (snd cell) []) nzero
                            else nzero)
                   cells)
            (seq 0 D))
        cells)
    (seq 0 D).
End Flatten.

(** ** Example inputs *)

(** Two cells in the plane: a unit Gaussian at the origin and a
    correlated one at [(1, 2)]. *)
Definition two_cells : list (vector Qc * matrix Qc) :=
  [ ([Qc_of_Z 0; Qc_of_Z 0],
     [[Qc_of_Z 1; Qc_of_Z 0]; [Qc_of_Z 0; Qc_of_Z 1]]);
    ([Qc_of_Z 1; Qc_of_Z 2],
     [[Qc_of_Z 2; Qc_of_Z 1]; [Qc_of_Z 1; Qc_of_Z 2]]) ].

(** A process over the plane with two control points and no data. *)
Definition plane_process : @GaussianProcess.t Qc :=
  {| GaussianProcess._cluster_data := [];
     GaussianProcess._outline := [Qc_of_Z 0; Qc_of_Z 1; Qc_of_Z 0; Qc_of_Z 1];
     GaussianProcess._ngaus := 2;
     GaussianProcess._ndim := 2 |}.

(** A tube in the plane with two unit cells, at [(0, 0)] and [(1, 0)], and
    one with three, the third at [(2, 0)]; nothing memoised. *)
Definition xf (n : Z) : xfloat := Fin (Qc_of_Z n).

Definition unit_cov : matrix xfloat := [[xf 1; xf 0]; [xf 0; xf 1]].

Definition tube_two_cells : @Model.t xfloat :=
  {| Model._ndim := 2;
     Model._mu_y := [[xf 0]; [xf 1]; [xf 0]; [xf 0]];
     Model._sig_y := eye 4;
     Model._cc := [[[xf 0]; [xf 0]]; [[xf 1]; [xf 0]]];
     Model._cA := [unit_cov; unit_cov];
     Model._list_tube := [];
     Model._list_logp := [] |}.

Definition tube_three_cells : @Model.t xfloat :=
  {| Model._ndim := 2;
     Model._mu_y := [[xf 0]; [xf 1]; [xf 2]; [xf 0]; [xf 0]; [xf 0]];
     Model._sig_y := eye 6;
     Model._cc := [[[xf 0]; [xf 0]]; [[xf 1]; [xf 0]]; [[xf 2]; [xf 0]]];
     Model._cA := [unit_cov; unit_cov; unit_cov];
     Model._list_tube := [];
     Model._list_logp := [] |}.

(** ** Traces of the EM loop *)

Section Trace.
Context {T : Type} `{Float T} {St : Type}.
Local Open Scope num_scope.

(** The body of the loop run [k] times in a row, the checks left out: the
    variables and the log-likelihood after iteration [k] (the initial ones
    for [k = 0]). *)
Fixpoint em_run (body : St → result (St * T)) (k : nat) (st : St) (ll : T)
  : result (St * T) :=
  match k with
  | O => Ok (st, ll)
  | S k' => '(st', ll') ← body st; em_run body k' st' ll'
  end.

(** The check at the end of an iteration, from its log-likelihood and the
    previous one: [true] when the loop breaks. *)
Definition em_breaks (loglikelihood_pY loglikelihood_previous : T) : bool :=
  if isfinite loglikelihood_pY then
    fabs (loglikelihood_pY - loglikelihood_previous) <? GaussianProcess.CONV_LIKELIHOOD
  else true.
End Trace.

(** A run whose first iteration has the log-likelihood [5] and whose later
    ones have [NaN]; the state counts the iterations. *)
Definition diverging_body (s : nat) : result (nat * xfloat) :=
  Ok (S s, if Nat.eqb s 0 then xf 5 else NaN).

(** Valid settings for the EM model that also carry an iteration budget. *)
Definition em_settings : gmap string pyval :=
  <["model_type" := PyStr "EM"]>
    (<["ngaus" := PyInt 3]>
       (<["basis_type" := PyStr "bernstein"]>
          (<["nbasis" := PyInt 2]> (<["maxIterations" := PyInt 1]> ∅)))).

(** A process over the plane with three control points, its data already
    normalised: two straight trajectories. *)
Definition example_process : @GaussianProcess.t xfloat :=
  {| GaussianProcess._cluster_data :=
       [ ([xf 0; xf 1], [[xf 0; xf 0]; [xf 1; xf 0]]);
         ([xf 0; xf 1], [[xf 0; xf 1]; [xf 1; xf 1]]) ];
     GaussianProcess._outline := [xf 0; xf 10; xf 0; xf 5];
     GaussianProcess._ngaus := 3;
     GaussianProcess._ndim := 2 |}.

(** A grid of two points on the x axis, one at the first cell and one far
    from the tube. *)
Definition far_xx : ndarray xfloat := NDArray [2; 1] [xf 0; xf 100].
Definition far_yy : ndarray xfloat := NDArray [2; 1] [xf 0; xf 0].

(** A tube in space with three unit cells along the x axis. *)
Definition tube_in_space : @Model.t xfloat :=
  {| Model._ndim := 3;
     Model._mu_y := [[xf 0]; [xf 1]; [xf 2]; [xf 0]; [xf 0]; [xf 0];
                     [xf 0]; [xf 0]; [xf 0]];
     Model._sig_y := eye 9;
     Model._cc := [[[xf 0]; [xf 0]; [xf 0]]; [[xf 1]; [xf 0]; [xf 0]];
                   [[xf 2]; [xf 0]; [xf 0]]];
     Model._cA := [eye 3; eye 3; eye 3];
     Model._list_tube := [];
     Model._list_logp := [] |}.

(** Grid axes in space whose shapes disagree: [xx] and [yy] hold one point,
    [zz] holds two. *)
Definition one_point : ndarray xfloat := NDArray [1; 1; 1] [xf 0].
Definition two_heights : ndarray xfloat := NDArray [1; 1; 2] [xf 0; xf 1].

(** Two grids of different shapes over the same coordinates: one row of
    two points, and that row twice. *)
Definition row_xx : ndarray xfloat := NDArray [1; 2] [xf 0; xf 0].
Definition row_yy : ndarray xfloat := NDArray [1; 2] [xf 0; xf 1].
Definition rows_xx : ndarray xfloat := NDArray [2; 2] [xf 0; xf 0; xf 0; xf 0].
Definition rows_yy : ndarray xfloat := NDArray [2; 2] [xf 0; xf 1; xf 0; xf 1].

(** ** Moments of an ensemble

    What the resampling estimator is compared with: the resampled
    trajectories as flat vectors, their population moments, and the
    conversion of [_norm2real] written out entry by entry. *)
Section Moments.
Context {T : Type} `{Num T}.
Local Open Scope num_scope.

(** The mean of [n]-vectors, entry by entry, dividing by their count. *)
Definition population_mean (n : nat) (vs : list (vector T)) : vector T :=
  map (λ i, vsum (map (λ v, nth i v nzero) vs) / of_Z (Z.of_nat (length vs)))
      (seq 0 n).

(** Their covariance, dividing by the count as well. *)
Definition population_covariance (n : nat) (vs : list (vector T)) : matrix T :=
  let m := population_mean n vs in
  map (λ i,
      map (λ j,
          vsum (map (λ v, (nth i v nzero - nth i m nzero)
                          * (nth j v nzero - nth j m nzero)) vs)
          / of_Z (Z.of_nat (length vs)))
        (seq 0 n))
    (seq 0 n).

Definition outer (u : vector T) : matrix T := map (λ a, map (λ b, a * b) u) u.

(** A trajectory read at the positions [xp], one dimension after the
    other: each dimension is interpolated against the trajectory's own
    [x]. *)
Definition resampled (mdim : nat) (xp : vector T) (tr : trajectory T) : vector T :=
  flat_map (λ d, map (λ x, interp1 x tr.1 (col d tr.2)) xp) (seq 0 mdim).

(** The outline [min_0, max_0, min_1, max_1, ...] laid out along a flat
    vector of [ndim] blocks of [ngaus] entries. *)
Definition offsets (outline : vector T) (ngaus ndim : nat) : vector T :=
  flat_map (λ d, replicate ngaus (nth (d * 2) outline nzero)) (seq 0 ndim).

Definition spans (outline : vector T) (ngaus ndim : nat) : vector T :=
  flat_map (λ d, replicate ngaus
                   (nth (d * 2 + 1) outline nzero - nth (d * 2) outline nzero))
           (seq 0 ndim).

(** [mu * D + M], entry by entry. *)
Definition physical_mean (outline : vector T) (ngaus ndim : nat) (m : vector T)
  : vector T :=
  zip_with nadd (zip_with nmul m (spans outline ngaus ndim)) (offsets outline ngaus ndim).

(** [sig @ diagflat(D ** 2)], entry by entry: column [j] is scaled by the
    square of the span of its dimension. *)
Definition physical_covariance (outline : vector T) (ngaus ndim : nat) (S : matrix T)
  : matrix T :=
  map (λ r, zip_with nmul r (zip_with nmul (spans outline ngaus ndim)
                                            (spans outline ngaus ndim))) S.

(** A normalised curve, one row per point, in physical units. *)
Definition to_physical (outline : vector T) (Y : matrix T) : matrix T :=
  map (λ r, imap (λ d a,
                a * (nth (d * 2 + 1) outline nzero - nth (d * 2) outline nzero)
                + nth (d * 2) outline nzero) r) Y.
End Moments.

(** Three evenly spaced positions. *)
Definition control_points_3 : vector Qc := [Qc_of_Z 0; Q2Qc (1 # 2); Qc_of_Z 1].

(** Three copies of one curve over the plane, given at the three control
    points; the outline is [0, 10] by [0, 2]. *)
Definition identical_process : @GaussianProcess.t Qc :=
  {| GaussianProcess._cluster_data :=
       replicate 3 (control_points_3,
                    [[Qc_of_Z 0; Qc_of_Z 0]; [Q2Qc (1 # 2); Qc_of_Z 1]; [Qc_of_Z 1; Qc_of_Z 0]]);
     GaussianProcess._outline := [Qc_of_Z 0; Qc_of_Z 10; Qc_of_Z 0; Qc_of_Z 2];
     GaussianProcess._ngaus := 3;
     GaussianProcess._ndim := 2 |}.

(** Two constant trajectories over the plane, one unit apart along the
    first axis and two units apart along the second. *)
Definition skewed_ensemble : list (trajectory xfloat) :=
  [ ([xf 0; xf 1], [[xf 0; xf 0]; [xf 0; xf 0]]);
    ([xf 0; xf 1], [[xf 1; xf 2]; [xf 1; xf 2]]) ].

(** The process [GaussianProcess(skewed_ensemble, 2)] builds: the data
    normalised by the outline [0, 1] by [0, 2]. *)
Definition skewed_process : @GaussianProcess.t xfloat :=
  {| GaussianProcess._cluster_data :=
       [ ([xf 0; xf 1], [[xf 0; xf 0]; [xf 0; xf 0]]);
         ([xf 0; xf 1], [[xf 1; xf 1]; [xf 1; xf 1]]) ];
     GaussianProcess._outline := [xf 0; xf 1; xf 0; xf 2];
     GaussianProcess._ngaus := 2;
     GaussianProcess._ndim := 2 |}.

Definition quarter : xfloat := Fin (Q2Qc (1 # 4)).
Definition half : xfloat := Fin (Q2Qc (1 # 2)).

(** The covariance of [skewed_process] in normalised units and the one
    [model_by_resampling] returns. *)
Definition skewed_sigma_norm : matrix xfloat := replicate 4 (replicate 4 quarter).
Definition skewed_sigma : matrix xfloat := replicate 4 [quarter; quarter; xf 1; xf 1].

(** Two straight trajectories over the plane, from [(0, 0)] to [(1, 2)]
    and from [(1, 2)] to [(2, 4)], each given at its two ends. *)
Definition sloped_ensemble : list (trajectory xfloat) :=
  [ ([xf 0; xf 1], [[xf 0; xf 0]; [xf 1; xf 2]]);
    ([xf 0; xf 1], [[xf 1; xf 2]; [xf 2; xf 4]]) ].

(** The process [GaussianProcess(sloped_ensemble, 3)] builds: the data
    normalised by the outline [0, 2] by [0, 4]. *)
Definition sloped_process : @GaussianProcess.t xfloat :=
  {| GaussianProcess._cluster_data :=
       [ ([xf 0; xf 1], [[xf 0; xf 0]; [half; half]]);
         ([xf 0; xf 1], [[half; half]; [xf 1; xf 1]]) ];
     GaussianProcess._outline := [xf 0; xf 2; xf 0; xf 4];
     GaussianProcess._ngaus := 3;
     GaussianProcess._ndim := 2 |}.

Definition sixteenth : xfloat := Fin (Q2Qc (1 # 16)).
Definition three_quarters : xfloat := Fin (Q2Qc (3 # 4)).
Definition three_halves : xfloat := Fin (Q2Qc (3 # 2)).

(** The two trajectories read at [0], [1/2] and [1], the first dimension
    and then the second: in normalised units, where the midpoints
    [1/4] and [3/4] lie on the chords, and in physical units. *)
Definition sloped_resampled : list (vector xfloat) :=
  [ [xf 0; quarter; half; xf 0; quarter; half];
    [half; three_quarters; xf 1; half; three_quarters; xf 1] ].

Definition sloped_resampled_physical : list (vector xfloat) :=
  [ [xf 0; half; xf 1; xf 0; xf 1; xf 2];
    [xf 1; three_halves; xf 2; xf 2; xf 3; xf 4] ].

(** Their population mean and population covariance in physical units,
    and the covariance [model_by_resampling] returns. *)
Definition sloped_mu : vector xfloat := [half; xf 1; three_halves; xf 1; xf 2; xf 3].

Definition sloped_covariance : matrix xfloat :=
  replicate 3 [quarter; quarter; quarter; half; half; half]
  ++ replicate 3 [half; half; half; xf 1; xf 1; xf 1].

Definition sloped_sigma : matrix xfloat :=
  replicate 6 [quarter; quarter; quarter; xf 1; xf 1; xf 1].

(** ** Grids, extremes and further example inputs *)

Section GridPoints.
Context {T : Type} `{Num T}.

(** The query points of a grid in the plane: one per index [(ix, iy)], in
    row-major order, read off the first column of [xx] and the first row
    of [yy]. *)
Definition grid_point_2d (xx yy : ndarray T) (ny : nat) (idx : list nat) : vector T :=
  [nth (nth 0 idx 0 * ny) (data xx) nzero; nth (nth 1 idx 0) (data yy) nzero].

(** The query points of a grid in space, read off [xx[ix, 0, 0]],
    [yy[0, iy, 0]] and [zz[0, 0, iz]]. *)
Definition grid_point_3d (xx yy zz : ndarray T) (ny nz : nat) (idx : list nat)
  : vector T :=
  [nth (nth 0 idx 0 * ny * nz) (data xx) nzero;
   nth (nth 1 idx 0 * nz) (data yy) nzero;
   nth (nth 2 idx 0) (data zz) nzero].
End GridPoints.

(** The rational under a finite value. *)
Definition unfin (a : xfloat) : Qc := match a with Fin q => q | _ => Qc_of_Z 0 end.

(** The lesser and the greater of two rationals, as the comparisons of
    [x.min()] and [x.max()] pick them. *)
Definition qmin (m a : Qc) : Qc := if bool_decide (a < m)%Qc then a else m.
Definition qmax (m a : Qc) : Qc := if bool_decide (m < a)%Qc then a else m.


(** A trajectory whose [x] is not empty and holds finite values only. *)
Definition finite_x (tr : trajectory xfloat) : Prop :=
  tr.1 ≠ [] ∧ Forall (λ a, isfinite a = true) tr.1.

(** The body of the loop of [_getMinMax]. *)
Definition minmax_step : xfloat * xfloat → trajectory xfloat → result (xfloat * xfloat) :=
  λ '(xmin, xmax) '(x, Y),
    x1min ← Model.np_min x;
    x1max ← Model.np_max x;
    let xmin := if nltb x1min xmin then x1min else xmin in
    let xmax := if nltb xmax x1max then x1max else xmax in
    Ok (xmin, xmax).

(** The outline of data that already lies in the unit box. *)
Definition unit_outline (ndim : nat) : vector Qc :=
  flat_map (λ _, [Qc_of_Z 0; Qc_of_Z 1]) (seq 0 ndim).

(** The value of the stand-in density at a point. *)
Definition stand_in_logp (self : @Model.t xfloat) (y : vector xfloat) : xfloat :=
  match log_density_model y (Model._ndim self) (Model._cc self) (Model._cA self) with
  | Ok v => v
  | Raise _ => NaN
  end.

(** The log-densities of the two grid points of [far_xx], [far_yy]. *)
Definition far_logp : ndarray xfloat :=
  Model.replace_nan
    (NDArray [2; 1]
       (map (λ idx, stand_in_logp tube_two_cells (grid_point_2d far_xx far_yy 1 idx))
            (indices [2; 1]))).

(** The points the stand-in [axis_points] puts around cell [i] of a
    tube; the ellipse of the source has other points. *)
Definition stand_in_ellipse (self : @Model.t xfloat) (sdwidth : xfloat) (n i : nat)
  : matrix xfloat :=
  match axis_points (Model._ndim self) (nth i (Model._cc self) [])
          (nth i (Model._cA self) []) sdwidth n with
  | Ok Y => Y
  | Raise _ => []
  end.

(** The two slabs of [tube_three_cells] at one standard deviation, built
    from these points. *)
Definition three_cell_clouds : list (matrix xfloat) :=
  map (λ i, unique_rows_model
              (stand_in_ellipse tube_three_cells (xf 1) 12 i
               ++ stand_in_ellipse tube_three_cells (xf 1) 12 (S i)))
      (seq 0 2).

(** A point well inside both slabs of [tube_three_cells] and a point far
    from the tube, and their membership in the two slabs. *)
Definition two_points : matrix xfloat := [[half; xf 0]; [xf 5; xf 5]].
Definition two_points_rows : list (list bool) := [[true; false]; [true; false]].

(** A grid of two such points, [(1/2, 0)] and [(5, 0)], its membership in
    the two slabs and in the tube. *)
Definition near_far_xx : ndarray xfloat := NDArray [2; 1] [half; xf 5].
Definition near_far_yy : ndarray xfloat := NDArray [2; 1] [xf 0; xf 0].
Definition near_far_rows : list (list bool) := [[true; false]; [true; false]].
Definition near_far_tube : ndarray xfloat := NDArray [2; 1] [xf 1; xf 0].

(** A tube along a line, and a tube with a single cell. *)
Definition tube_on_a_line : @Model.t xfloat :=
  {| Model._ndim := 1;
     Model._mu_y := [[xf 0]; [xf 1]];
     Model._sig_y := eye 2;
     Model._cc := [[[xf 0]]; [[xf 1]]];
     Model._cA := [[[xf 1]]; [[xf 1]]];
     Model._list_tube := [];
     Model._list_logp := [] |}.

Definition tube_one_cell : @Model.t xfloat :=
  {| Model._ndim := 2;
     Model._mu_y := [[xf 0]; [xf 0]];
     Model._sig_y := eye 2;
     Model._cc := [[[xf 0]; [xf 0]]];
     Model._cA := [unit_cov];
     Model._list_tube := [];
     Model._list_logp := [] |}.

(** Two trajectories over [[2, 4]] and [[3, 6]], and two over the single
    value [2]. *)
Definition staggered_ensemble : list (trajectory xfloat) :=
  [ ([xf 2; xf 4], [[xf 0; xf 0]; [xf 1; xf 0]]);
    ([xf 3; xf 6], [[xf 0; xf 1]; [xf 1; xf 1]]) ].

Definition stalled_ensemble : list (trajectory xfloat) :=
  [ ([xf 2; xf 2], [[xf 0; xf 0]; [xf 1; xf 0]]);
    ([xf 2], [[xf 0; xf 1]]) ].

(** Settings that name a model type the constructor does not know. *)
Definition spline_settings : gmap string pyval :=
  <["model_type" := PyStr "spline"]> (<["ngaus" := PyInt 2]> ∅).

(** A basis family whose matrices have one column of ones per point. *)
Definition ones_BasisLib : BasisLib xfloat := {|
  basis := unit;
  Basis_new := λ _ _ _, Ok ();
  Basis_get := λ _ xs, Ok (map (λ _, [xf 1]) xs);
|}.

(** A process over the plane without trajectories. *)
Definition empty_process : @GaussianProcess.t xfloat :=
  {| GaussianProcess._cluster_data := [];
     GaussianProcess._outline := [xf 0; xf 1; xf 0; xf 1];
     GaussianProcess._ngaus := 2;
     GaussianProcess._ndim := 2 |}.

(** * Properties *)

(** ** Reasoning about fallible calls *)

Lemma bind_Ok {A B} (f : A → result B) (a : A) : (Ok a ≫= f) = f a.
Proof. reflexivity. Qed.

Lemma bind_Raise {A B} (f : A → result B) (e : exn) : (Raise e ≫= f) = Raise e.
Proof. reflexivity. Qed.

Lemma bind_inv_Ok {A B} (f : A → result B) (m : result A) (b : B) :
  (m ≫= f) = Ok b → ∃ a, m = Ok a ∧ f a = Ok b.
Proof. destruct m as [a|e]; [eauto | discriminate]. Qed.

(** Case analysis on the first call of a sequence. *)
Ltac case_bind :=
  match goal with
  | |- context [mbind ?f ?m] =>
      let E := fresh "E" in
      destruct m eqn:E; rewrite ?bind_Ok, ?bind_Raise
  end.

Lemma map_r_length {A B} (f : A → result B) l bs :
  map_r f l = Ok bs → length bs = length l.
Proof.
  revert bs. induction l as [|a l IH]; intros bs; simpl.
  - intros [= <-]. reflexivity.
  - intros Hb. apply bind_inv_Ok in Hb as (b & _ & Hb).
    apply bind_inv_Ok in Hb as (bs' & Hbs & [= <-]).
    simpl. f_equal. auto.
Qed.

Lemma map_r_ext {A B} (f g : A → result B) l :
  (∀ a, a ∈ l → f a = g a) → map_r f l = map_r g l.
Proof.
  induction l as [|a l IH]; intros Hfg; simpl; [reflexivity|].
  rewrite Hfg by left. rewrite IH; [reflexivity|].
  intros b Hb. apply Hfg. by right.
Qed.

(** A list comprehension none of whose calls raises. *)
Lemma map_r_Ok {A B} (f : A → result B) (g : A → B) l :
  (∀ a, a ∈ l → f a = Ok (g a)) → map_r f l = Ok (map g l).
Proof.
  induction l as [|a l IH]; intros Hfg; simpl; [reflexivity|].
  rewrite Hfg by left. rewrite bind_Ok, IH, bind_Ok; [reflexivity|].
  intros b Hb. apply Hfg. by right.
Qed.

(** ** C1: construction *)

(** The tuple of an estimator has four components, [unpack2] wants two. *)
Lemma unpack2_tuple_of {T : Type} (e : @GaussianProcess.estimate T) :
  Model.unpack2 (Model.tuple_of e)
  = Raise (ValueError "too many values to unpack (expected 2)").
Proof. destruct e as [[[mu sig] cc] cA]. reflexivity. Qed.

(** Whenever the settings pass the checks and the estimator returns,
    [Model.__init__] stops at the assignment [(mu_y, sig_y) = ...]. *)
Lemma Model_init_stops_at_unpack {T : Type} `{Float T} `{!Linalg T} `{!BasisLib T}
    `{!Helpers T} (cluster_data : list (trajectory T)) (settings : gmap string pyval)
    model_type ngaus ndim norm gp est :
  Model.check_settings settings = Ok (model_type, ngaus) →
  getDimension cluster_data = Ok ndim →
  Model._normalise_data cluster_data = Ok norm →
  GaussianProcess.__init__ norm ngaus = Ok gp →
  Model.run_estimator gp settings model_type = Ok est →
  Model.__init__ cluster_data settings
  = Raise (ValueError "too many values to unpack (expected 2)").
Proof.
  intros Hc Hd Hn Hg He. unfold Model.__init__.
  rewrite Hc, bind_Ok, Hd, bind_Ok, Hn, bind_Ok, Hg, bind_Ok, He, bind_Ok.
  by rewrite unpack2_tuple_of.
Qed.

(** C1. No call of [Model.__init__] returns a model: for every ensemble and
    every settings dictionary the constructor raises.  The estimators
    return the four values [(mu_y, sig_y, cc, cA)] and the constructor
    unpacks two. *)
Theorem Model_init_always_raises {T : Type} `{Float T} `{!Linalg T} `{!BasisLib T}
    `{!Helpers T} (cluster_data : list (trajectory T)) (settings : gmap string pyval) :
  ∃ e, Model.__init__ cluster_data settings = Raise e.
Proof.
  unfold Model.__init__.
  case_bind; [|eauto]. destruct a as [model_type ngaus].
  do 4 (case_bind; [|eauto]).
  rewrite unpack2_tuple_of. eauto.
Qed.

(** ** Lists and blocks *)

Lemma map_r_seq {A B} (f : nat → result B) (h : A → B) (l : list A) s n :
  n = length l →
  (∀ i x, l !! i = Some x → f (s + i) = Ok (h x)) →
  map_r f (seq s n) = Ok (map h l).
Proof.
  intros ->. revert s. induction l as [|a l IH]; intros s Hf; simpl; [reflexivity|].
  rewrite <- (Nat.add_0_r s) at 1. rewrite (Hf 0 a eq_refl), bind_Ok.
  rewrite IH, bind_Ok; [reflexivity|].
  intros i x Hi. replace (S s + i) with (s + S i) by lia. by apply Hf.
Qed.

Lemma lookup_map {A B} (f : A → B) (l : list A) i : map f l !! i = f <$> l !! i.
Proof. revert i. induction l as [|a l IH]; intros [|i]; simpl; auto. Qed.

Lemma at_index_Some {A} (l : list A) i a : l !! i = Some a → at_index l i = Ok a.
Proof. unfold at_index. by intros ->. Qed.

Lemma lookup_flat_map_blocks {B} (g : nat → list B) n s D d m :
  (∀ k, length (g k) = n) → d < D → m < n →
  flat_map g (seq s D) !! (m + d * n) = g (s + d) !! m.
Proof.
  intros Hlen. revert s d. induction D as [|D IH]; intros s d Hd Hm; [lia|].
  simpl. destruct d as [|d].
  - rewrite lookup_app_l by (rewrite Hlen; lia).
    by rewrite Nat.add_0_r, Nat.add_0_r.
  - rewrite lookup_app_r by (rewrite Hlen; simpl; lia).
    rewrite Hlen. replace (m + S d * n - n) with (m + d * n) by (simpl; lia).
    rewrite IH by lia. by rewrite Nat.add_succ_r.
Qed.

(** ** C8: cell decomposition *)

Section Decompose.
Context {T : Type} `{Num T} `{!Helpers T}.

Lemma is_square_rows (A : matrix T) r :
  is_square A = true → r ∈ A → length r = length A.
Proof.
  unfold is_square. rewrite forallb_forall. intros HA Hr.
  apply Nat.eqb_eq, HA. by apply list_elem_of_In.
Qed.

Lemma getMuSigma_flattened (D ngaus : nat) (cells : list (vector T * matrix T))
    (mu_y sig_y : matrix T) m c A :
  flattened ngaus cells mu_y sig_y →
  cells !! m = Some (c, A) →
  length cells = ngaus →
  length c = D → length A = D → is_square A = true →
  getMuSigma D mu_y sig_y (Z.of_nat m) (Z.of_nat ngaus) = Ok (colvec c, A).
Proof.
  intros Hfl Hm Hlen Hc HA Hsq. unfold getMuSigma.
  assert (m < ngaus) by (rewrite <- Hlen; by eapply lookup_lt_Some).
  destruct (Hfl m c A Hm) as [Hmu Hsig].
  replace ((Z.of_nat m <? 0)%Z || (Z.of_nat m >=? Z.of_nat ngaus)%Z) with false by lia.
  assert (Hpos : ∀ d, Z.to_nat (Z.of_nat m + Z.of_nat d * Z.of_nat ngaus) = m + d * ngaus)
    by (intros; lia).
  assert (Hrows : map_r (λ d_row,
      mu_row ← at_index mu_y (Z.to_nat (Z.of_nat m + Z.of_nat d_row * Z.of_nat ngaus));
      c ← at_index mu_row 0;
      sig_row ← at_index sig_y (Z.to_nat (Z.of_nat m + Z.of_nat d_row * Z.of_nat ngaus));
      A_row ← map_r (λ d_col, at_index sig_row
                (Z.to_nat (Z.of_nat m + Z.of_nat d_col * Z.of_nat ngaus))) (seq 0 D);
      Ok (c, A_row)) (seq 0 D) = Ok (zip c A)).
  { rewrite <- (map_id (zip c A)).
    apply map_r_seq; [rewrite length_zip; lia|]. intros d [a r] Hd. simpl.
    apply lookup_zip_Some in Hd as [Ha Hr].
    rewrite !Hpos.
    destruct (Hmu d a Ha) as (mrow & Hmrow & Hm0).
    rewrite (at_index_Some _ _ _ Hmrow), bind_Ok.
    rewrite (at_index_Some _ _ _ Hm0), bind_Ok.
    assert (Hlr : length r = D).
    { rewrite <- HA. apply is_square_rows; [done|]. by eapply list_elem_of_lookup_2. }
    assert (∃ srow, sig_y !! (m + d * ngaus) = Some srow
              ∧ ∀ d2 a2, r !! d2 = Some a2 → srow !! (m + d2 * ngaus) = Some a2)
      as (srow & Hs & Hs2).
    { destruct r as [|a0 r'] eqn:Er.
      - simpl in Hlr. subst D. apply lookup_lt_Some in Ha. lia.
      - destruct (Hsig d 0 (a0 :: r') a0 Hr eq_refl) as (srow & Hs & _).
        exists srow. split; [done|]. intros d2 a2 H2.
        destruct (Hsig d d2 (a0 :: r') a2 Hr H2) as (srow' & Hs' & Hl). congruence. }
    rewrite (at_index_Some _ _ _ Hs), bind_Ok.
    rewrite (map_r_seq _ id r 0 D).
    - by rewrite bind_Ok, map_id.
    - done.
    - intros i x Hi. simpl. rewrite Hpos. apply at_index_Some. by apply Hs2. }
  rewrite Hrows, bind_Ok. f_equal. f_equal.
  - rewrite fst_zip by lia. reflexivity.
  - rewrite snd_zip by lia. reflexivity.
Qed.

Lemma getGMMCells_flattened (D : nat) (cells : list (vector T * matrix T))
    (mu_y sig_y : matrix T) :
  (∀ A, is_spd A = true → nearest_spd A = Ok A) →
  Forall (λ cell, length cell.1 = D ∧ length cell.2 = D ∧ is_spd cell.2 = true) cells →
  flattened (length cells) cells mu_y sig_y →
  getGMMCells D mu_y sig_y (Z.of_nat (length cells))
  = Ok (map (colvec ∘ fst) cells, map snd cells).
Proof.
  intros Hspd Hshape Hfl. unfold getGMMCells.
  rewrite Nat2Z.id.
  rewrite (map_r_seq _ (λ cell, (colvec cell.1, cell.2)) cells 0 _ eq_refl).
  - rewrite bind_Ok, !map_map. reflexivity.
  - intros m [c A] Hm. simpl.
    rewrite Forall_lookup in Hshape. destruct (Hshape m _ Hm) as (Hc & HA & HS).
    simpl in Hc, HA, HS.
    assert (is_square A = true) as Hsq.
    { unfold is_spd in HS. apply andb_true_iff in HS as [HS _].
      by apply andb_true_iff in HS as [HS _]. }
    rewrite (getMuSigma_flattened D (length cells) cells mu_y sig_y m c A); try done.
    rewrite bind_Ok. simpl. by rewrite (Hspd A HS), bind_Ok.
Qed.

Lemma getMuSigma_out_of_range (D : nat) (mu_y sig_y : matrix T) (npoint ngaus : Z) :
  (npoint < 0 ∨ ngaus ≤ npoint)%Z →
  getMuSigma D mu_y sig_y npoint ngaus = Raise (ValueError "npoint not in [0, ngaus]").
Proof.
  intros Hr. unfold getMuSigma.
  replace ((npoint <? 0)%Z || (npoint >=? ngaus)%Z) with true by lia. reflexivity.
Qed.

Lemma flatten_cells_flattened (D : nat) (cells : list (vector T * matrix T)) :
  Forall (λ cell, length cell.1 = D ∧ length cell.2 = D ∧ is_spd cell.2 = true) cells →
  flattened (length cells) cells (flatten_mean D cells) (flatten_cov D cells).
Proof.
  intros Hshape m c A Hm.
  rewrite Forall_lookup in Hshape. destruct (Hshape m _ Hm) as (Hc & HA & HS).
  simpl in Hc, HA, HS.
  assert (Hmn : m < length cells) by (by eapply lookup_lt_Some).
  split.
  - intros d a Hd. exists [a]. split; [|reflexivity].
    assert (d < D) by (rewrite <- Hc; by eapply lookup_lt_Some).
    unfold flatten_mean, colvec. rewrite lookup_map.
    rewrite (lookup_flat_map_blocks _ (length cells)); [|by intros; rewrite length_map|done..].
    rewrite lookup_map, Hm. simpl. do 2 f_equal.
    by apply nth_lookup_Some.
  - intros d1 d2 r a Hr Ha.
    assert (is_square A = true) as Hsq.
    { unfold is_spd in HS. apply andb_true_iff in HS as [HS' _].
      by apply andb_true_iff in HS' as [HS' _]. }
    assert (d1 < D) by (rewrite <- HA; by eapply lookup_lt_Some).
    assert (length r = D) as Hlr.
    { rewrite <- HA. apply is_square_rows; [done|]. by eapply list_elem_of_lookup_2. }
    assert (d2 < D) by (rewrite <- Hlr; by eapply lookup_lt_Some).
    unfold flatten_cov.
    rewrite (lookup_flat_map_blocks _ (length cells)); [|by intros; rewrite length_imap|done..].
    rewrite list_lookup_imap, Hm. simpl. eexists. split; [reflexivity|].
    rewrite (lookup_flat_map_blocks _ (length cells)); [|by intros; rewrite length_imap|done..].
    rewrite list_lookup_imap, Hm. simpl. rewrite Nat.eqb_refl. f_equal.
    rewrite (nth_lookup_Some _ _ _ _ Hr). by apply nth_lookup_Some.
Qed.
End Decompose.

(** C8. Decomposition inverts the flattening convention.  For cells that
    are symmetric positive definite, of the dimension of the process, and
    any [mu_y], [sig_y] that hold them at the positions [m + d*ngaus]
    (whatever [sig_y] has elsewhere), [_getGMMCells] returns the cells as
    they were, the repair [nearest_spd] included, provided the repair
    leaves a symmetric positive-definite matrix alone; and [_getMuSigma]
    refuses every index outside [0, ngaus) with a [ValueError]. *)
Theorem decompose_flatten_roundtrip {T : Type} `{Num T} `{!Helpers T}
    (self : GaussianProcess.t) (cells : list (vector T * matrix T))
    (mu_y sig_y : matrix T) :
  (∀ A, is_spd A = true → nearest_spd A = Ok A) →
  Forall (λ cell, length cell.1 = GaussianProcess._ndim self
                  ∧ length cell.2 = GaussianProcess._ndim self
                  ∧ is_spd cell.2 = true) cells →
  flattened (length cells) cells mu_y sig_y →
  GaussianProcess._getGMMCells self mu_y sig_y (Z.of_nat (length cells))
  = Ok (map (colvec ∘ fst) cells, map snd cells)
  ∧ ∀ npoint : Z, (npoint < 0 ∨ Z.of_nat (length cells) ≤ npoint)%Z →
      GaussianProcess._getMuSigma self mu_y sig_y npoint (Z.of_nat (length cells))
      = Raise (ValueError "npoint not in [0, ngaus]").
Proof.
  intros Hspd Hshape Hfl. split.
  - by apply getGMMCells_flattened.
  - intros npoint Hr. by apply getMuSigma_out_of_range.
Qed.

Lemma decompose_flatten_roundtrip_witness :
  GaussianProcess._getGMMCells plane_process
    (flatten_mean 2 two_cells) (flatten_cov 2 two_cells) 2
  = Ok (map (colvec ∘ fst) two_cells, map snd two_cells)
  ∧ ∀ npoint : Z, (npoint < 0 ∨ 2 ≤ npoint)%Z →
      GaussianProcess._getMuSigma plane_process
        (flatten_mean 2 two_cells) (flatten_cov 2 two_cells) npoint 2
      = Raise (ValueError "npoint not in [0, ngaus]").
Proof.
  apply (decompose_flatten_roundtrip plane_process two_cells).
  - intros A HA. simpl. unfold nearest_spd_model. by rewrite HA.
  - repeat constructor; vm_compute; reflexivity.
  - apply (flatten_cells_flattened 2 two_cells).
    repeat constructor; vm_compute; reflexivity.
Defined.

(** The copies of the two methods in [Model] decompose in the same way. *)
Lemma Model_decompose_flatten_roundtrip {T : Type} `{Num T} `{!Helpers T}
    (ndim : nat) (cells : list (vector T * matrix T)) (mu_y sig_y : matrix T) :
  (∀ A, is_spd A = true → nearest_spd A = Ok A) →
  Forall (λ cell, length cell.1 = ndim ∧ length cell.2 = ndim
                  ∧ is_spd cell.2 = true) cells →
  flattened (length cells) cells mu_y sig_y →
  Model._getGMMCells ndim mu_y sig_y (Z.of_nat (length cells))
  = Ok (map (colvec ∘ fst) cells, map snd cells).
Proof. apply getGMMCells_flattened. Qed.

(** ** C6: tube membership *)

Section Inside.
Context {T : Type} `{Float T} `{!QueryHelpers T}.

Lemma getEllipse_Some (self : Model.t) (c A : matrix T) (sdwidth : T) (nsamples : nat) Y :
  (Model._ndim self = 2 ∨ Model._ndim self = 3) →
  ellipse_points (Model._ndim self) c A sdwidth nsamples = Ok Y →
  Model._getEllipse self c A sdwidth nsamples = Ok (Some Y).
Proof.
  intros Hdim HY. unfold Model._getEllipse. rewrite HY.
  destruct Hdim as [-> | ->]; reflexivity.
Qed.





End Inside.



(** ** C3: the prior term of the EM log-likelihood *)

Section Prior.
Context {T : Type} `{Float T} `{!Linalg T}.
Local Open Scope num_scope.

(** C3. [_L_pw] returns the sentinel [1e4] whenever the condition number of
    [sig_w] compares greater than zero: the determinant-based prior term is
    not computed for any matrix that has a condition number, the
    well-conditioned ones included. *)
Theorem L_pw_sentinel_for_positive_cond (Ewc Ewwc : list (matrix T))
    (mu_w sig_w sig_w_inv : matrix T) (ndim : nat) (nbasis : Z) (c : T) :
  linalg_cond sig_w = Ok c →
  (nzero <? c) = true →
  GaussianProcess._L_pw Ewc Ewwc mu_w sig_w sig_w_inv ndim nbasis
  = Ok GaussianProcess.sentinel.
Proof.
  intros Hc Hpos. unfold GaussianProcess._L_pw.
  by rewrite Hc, bind_Ok, Hpos.
Qed.

(** The determinant is reached only when the comparison [cond(sig_w) > 0]
    fails. *)
Lemma L_pw_determinant_needs_failed_comparison (Ewc Ewwc : list (matrix T))
    (mu_w sig_w sig_w_inv : matrix T) (ndim : nat) (nbasis : Z) (v : T) :
  GaussianProcess._L_pw Ewc Ewwc mu_w sig_w sig_w_inv ndim nbasis = Ok v →
  v ≠ GaussianProcess.sentinel →
  ∃ c, linalg_cond sig_w = Ok c ∧ (nzero <? c) = false.
Proof.
  unfold GaussianProcess._L_pw. intros Hv Hne.
  apply bind_inv_Ok in Hv as (c & Hc & Hv). exists c. split; [done|].
  destruct (nzero <? c); [|done]. by injection Hv as <-.
Qed.
End Prior.

(** In the extended rationals the comparison fails only for [NaN], [-inf]
    and the numbers that are not positive: none of them is the condition
    number of a matrix of numbers, which is at least one or infinite. *)
Lemma xfloat_not_positive (c : xfloat) :
  xltb (Fin (Qc_of_Z 0)) c = false →
  c = NaN ∨ c = NInf ∨ ∃ q, c = Fin q ∧ (q ≤ Qc_of_Z 0)%Qc.
Proof.
  destruct c as [q| | |]; simpl; intros Hc; auto; [|done].
  right. right. exists q. split; [done|].
  apply bool_decide_eq_false in Hc. by apply Qcnot_lt_le.
Qed.

Lemma L_pw_sentinel_for_positive_cond_witness :
  GaussianProcess._L_pw [] [] (zeros 2 1) (eye 2) (eye 2) 1 2
  = Ok (GaussianProcess.sentinel (T:=xfloat)).
Proof.
  apply (L_pw_sentinel_for_positive_cond (T:=xfloat) [] [] (zeros 2 1) (eye 2) (eye 2)
           1 2 (Fin (Qc_of_Z 1))).
  - vm_compute. reflexivity.
  - reflexivity.
Defined.

(** ** C4: the EM loop *)

Section Loop.
Context {T : Type} `{Float T} {St : Type}.

Lemma em_loop_step (body : St → result (St * T)) (n : nat) (st : St) (prev : T) :
  GaussianProcess.em_loop body (S n) st prev
  = ('(st', ll) ← body st;
     if em_breaks ll prev then Ok st' else GaussianProcess.em_loop body n st' ll).
Proof.
  simpl. destruct (body st) as [[st' ll]|e]; [|reflexivity].
  rewrite !bind_Ok. unfold em_breaks.
  destruct (isfinite ll); [|reflexivity].
  by destruct (nltb _ _).
Qed.

Lemma em_run_shift (body : St → result (St * T)) (k : nat) (st st' : St) (ll ll' : T) :
  body st = Ok (st', ll') →
  em_run body (S k) st ll = em_run body k st' ll'.
Proof. intros Hb. simpl. by rewrite Hb, bind_Ok. Qed.

(** The loop runs the body [k] times for some [k <= n]; it returns the
    variables as the [k]-th iteration leaves them (or the exception that
    iteration raises); no earlier iteration meets a break; and either the
    budget is used up, or iteration [k] raises, or iteration [k] meets a
    break. *)
Lemma em_loop_first_break (body : St → result (St * T)) (n : nat) (st0 : St)
    (ll0 : T) :
  ∃ k, k ≤ n
    ∧ GaussianProcess.em_loop body n st0 ll0 = fst <$> em_run body k st0 ll0
    ∧ (∀ i s l s' l', S i < k →
         em_run body i st0 ll0 = Ok (s, l) →
         em_run body (S i) st0 ll0 = Ok (s', l') →
         em_breaks l' l = false)
    ∧ (k = n
       ∨ (∃ e, em_run body k st0 ll0 = Raise e)
       ∨ (∃ i s l s' l', k = S i
            ∧ em_run body i st0 ll0 = Ok (s, l)
            ∧ em_run body k st0 ll0 = Ok (s', l')
            ∧ em_breaks l' l = true)).
Proof.
  revert st0 ll0. induction n as [|n IH]; intros st0 ll0.
  - exists 0. split; [lia|]. split; [reflexivity|]. split; [intros; lia | by left].
  - rewrite em_loop_step. destruct (body st0) as [[s1 l1]|e] eqn:Hb.
    + rewrite bind_Ok. destruct (em_breaks l1 ll0) eqn:Hbr.
      * exists 1. split; [lia|]. split; [by simpl; rewrite Hb|].
        split; [intros; lia|]. right. right.
        exists 0, st0, ll0, s1, l1. simpl. by rewrite Hb.
      * destruct (IH s1 l1) as (k & Hk & Hres & Hno & Hend).
        exists (S k). split; [lia|].
        split; [by rewrite (em_run_shift _ _ _ _ _ _ Hb)|]. split.
        -- intros i s l s' l' Hi Hri Hrs. destruct i as [|i].
           ++ simpl in Hri, Hrs. rewrite Hb, bind_Ok in Hrs. by simplify_eq.
           ++ rewrite (em_run_shift _ _ _ _ _ _ Hb) in Hri.
              rewrite (em_run_shift _ _ _ _ _ _ Hb) in Hrs.
              apply (Hno i s l s' l'); [lia|done..].
        -- destruct Hend as [-> | [[e He] | (i & s & l & s' & l' & -> & Hi & Hk' & Hbr')]].
           ++ by left.
           ++ right. left. exists e. by rewrite (em_run_shift _ _ _ _ _ _ Hb).
           ++ right. right. exists (S i), s, l, s', l'.
              rewrite (em_run_shift _ i _ _ _ _ Hb), (em_run_shift _ (S i) _ _ _ _ Hb).
              done.
    + rewrite bind_Raise. exists 1. split; [lia|].
      split; [by simpl; rewrite Hb|]. split; [intros; lia|].
      right. left. exists e. simpl. by rewrite Hb.
Qed.
End Loop.

(** [model_by_em] gives the loop the budget [maximum_iterations], and
    [Model.__init__] calls it with the default [2001] whatever the settings
    hold under ["maxIterations"]. *)
Lemma run_estimator_em {T : Type} `{Float T} `{!Linalg T} `{!BasisLib T} `{!Helpers T}
    (gp : GaussianProcess.t) (settings : gmap string pyval) :
  Model.run_estimator gp settings "EM"
  = (nbasis ← Model.int_setting settings "nbasis";
     GaussianProcess.model_by_em gp (default PyNone (settings !! "basis_type")) nbasis 2001).
Proof. reflexivity. Qed.

Lemma run_estimator_ignores_budget {T : Type} `{Float T} `{!Linalg T} `{!BasisLib T}
    `{!Helpers T} (gp : GaussianProcess.t) (settings : gmap string pyval) (v : pyval) :
  Model.run_estimator gp (<["maxIterations" := v]> settings) "EM"
  = Model.run_estimator gp settings "EM".
Proof.
  rewrite !run_estimator_em. unfold Model.int_setting.
  by rewrite !lookup_insert_ne.
Qed.

(** C4. The loop runs the body [k] times for some [k <= n],
    where [n] is the argument [maximum_iterations] of [model_by_em]; it
    returns the variables as the [k]-th iteration leaves them (or the
    exception that iteration raises); no earlier iteration meets a break;
    and either the budget is used up, or iteration [k] raises, or iteration
    [k] meets a break: its log-likelihood is finite and within the
    tolerance [1e-3] of the previous one, or it is not finite.  In that
    last case too the variables returned are those just updated.  The
    budget of a model built by [Model.__init__] is the default 2001, with
    or without a setting ["maxIterations"]. *)
Theorem em_loop_runs_to_first_break {T : Type} `{Float T} `{!Linalg T} `{!BasisLib T}
    `{!Helpers T} {St : Type} (body : St → result (St * T)) (n : nat) (st0 : St)
    (ll0 : T) (gp : GaussianProcess.t) (settings : gmap string pyval) (v : pyval) :
  (∃ k, k ≤ n
    ∧ GaussianProcess.em_loop body n st0 ll0 = fst <$> em_run body k st0 ll0
    ∧ (∀ i s l s' l', S i < k →
         em_run body i st0 ll0 = Ok (s, l) →
         em_run body (S i) st0 ll0 = Ok (s', l') →
         em_breaks l' l = false)
    ∧ (k = n
       ∨ (∃ e, em_run body k st0 ll0 = Raise e)
       ∨ (∃ i s l s' l', k = S i
            ∧ em_run body i st0 ll0 = Ok (s, l)
            ∧ em_run body k st0 ll0 = Ok (s', l')
            ∧ em_breaks l' l = true)))
  ∧ Model.run_estimator gp (<["maxIterations" := v]> settings) "EM"
    = (nbasis ← Model.int_setting settings "nbasis";
       GaussianProcess.model_by_em gp (default PyNone (settings !! "basis_type"))
         nbasis 2001).
Proof.
  split; [apply em_loop_first_break|].
  by rewrite run_estimator_ignores_budget, run_estimator_em.
Qed.

Lemma em_loop_runs_to_first_break_witness :
  (∃ k, k ≤ 2001
    ∧ GaussianProcess.em_loop diverging_body 2001 0 PInf
      = fst <$> em_run diverging_body k 0 PInf
    ∧ (∀ i s l s' l', S i < k →
         em_run diverging_body i 0 PInf = Ok (s, l) →
         em_run diverging_body (S i) 0 PInf = Ok (s', l') →
         em_breaks l' l = false)
    ∧ (k = 2001
       ∨ (∃ e, em_run diverging_body k 0 PInf = Raise e)
       ∨ (∃ i s l s' l', k = S i
            ∧ em_run diverging_body i 0 PInf = Ok (s, l)
            ∧ em_run diverging_body k 0 PInf = Ok (s', l')
            ∧ em_breaks l' l = true)))
  ∧ Model.run_estimator (T:=xfloat) example_process
      (<["maxIterations" := PyInt 1]> em_settings) "EM"
    = (nbasis ← Model.int_setting em_settings "nbasis";
       GaussianProcess.model_by_em example_process
         (default PyNone (em_settings !! "basis_type")) nbasis 2001).
Proof.
  exact (em_loop_runs_to_first_break diverging_body 2001 0 PInf example_process
           em_settings (PyInt 1)).
Defined.

(** C4 as stated fails.  When the log-likelihood stops being finite the
    loop returns the variables of that very iteration, not those of the
    last iteration with a finite log-likelihood: here iteration 1 is finite,
    iteration 2 is not, and the state of iteration 2 comes back.  And the
    budget is not a construction setting: under settings that ask for one
    iteration the estimator still runs with 2001. *)
Lemma em_loop_returns_diverged_state :
  em_run diverging_body 1 0 PInf = Ok (1, xf 5)
  ∧ em_run diverging_body 2 0 PInf = Ok (2, NaN)
  ∧ GaussianProcess.em_loop diverging_body 2001 0 PInf = Ok 2
  ∧ em_settings !! "maxIterations" = Some (PyInt 1)
  ∧ ∀ gp : @GaussianProcess.t xfloat,
      Model.run_estimator gp em_settings "EM"
      = GaussianProcess.model_by_em gp (PyStr "bernstein") 2 2001.
Proof. repeat split. Qed.

(** ** C5: the log-density on a grid *)






Section NanMin.
Context {T : Type} `{Float T}.
Local Open Scope num_scope.



End NanMin.



Section LogDensity.
Context `{!QueryHelpers xfloat}.

End LogDensity.


(** The replacement at work on a grid with a [NaN]. *)
Example replace_nan_example :
  Model.replace_nan (NDArray [2; 2] [xf 2; NaN; NInf; PInf])
  = NDArray [2; 2] [xf 2; NInf; NInf; PInf].
Proof. compute_done. Qed.


(** ** C7: grids whose axes disagree in shape *)

(** C7 fails in the code.  In three dimensions only [xx.shape == yy.shape]
    is checked: with [xx] and [yy] of shape [(1, 1, 1)] and [zz] of shape
    [(1, 1, 2)] both grid queries go on and return a grid of shape
    [(1, 1, 2)], and memoise it. *)
Theorem mismatched_z_axis_is_evaluated :
  shape one_point ≠ shape two_heights
  ∧ Model.evalLogLikelihood tube_in_space one_point one_point (Some two_heights)
    = Ok (NDArray [1; 1; 2] [xf 0; Fin (Q2Qc (-1 # 2))],
          Model.set_list_logp tube_in_space
            [(NDArray [1; 1; 2] [xf 0; Fin (Q2Qc (-1 # 2))],
              one_point, one_point, Some two_heights)])
  ∧ Model.isInside_grid tube_in_space (xf 1) one_point one_point (Some two_heights)
    = Ok (NDArray [1; 1; 2] [xf 1; xf 1],
          Model.set_list_tube tube_in_space
            [(NDArray [1; 1; 2] [xf 1; xf 1], xf 1,
              one_point, one_point, Some two_heights)]).
Proof. split; [done|]. split; compute_done. Qed.

(** ** C10: the memoised log-densities *)

(** C10 fails in the code.  [np.all(xx1 == xx)] compares with
    broadcasting, so a memoised grid of shape [(1, 2)] matches a grid of
    shape [(2, 2)] whose rows repeat it: the second call returns the entry
    of the first, of the wrong shape, and appends nothing.  Asked on its
    own, the second grid gets a result of shape [(2, 2)]. *)
Theorem broadcast_grids_share_entry :
  let first := Model.evalLogLikelihood tube_two_cells row_xx row_yy None in
  let ss1 := NDArray [1; 2] [xf 0; Fin (Q2Qc (-1 # 2))] in
  let after := Model.set_list_logp tube_two_cells [(ss1, row_xx, row_yy, None)] in
  shape row_xx ≠ shape rows_xx
  ∧ first = Ok (ss1, after)
  ∧ Model.evalLogLikelihood after rows_xx rows_yy None = Ok (ss1, after)
  ∧ Model.evalLogLikelihood tube_two_cells rows_xx rows_yy None
    = Ok (NDArray [2; 2] [xf 0; Fin (Q2Qc (-1 # 2)); xf 0; Fin (Q2Qc (-1 # 2))],
          Model.set_list_logp tube_two_cells
            [(NDArray [2; 2] [xf 0; Fin (Q2Qc (-1 # 2)); xf 0; Fin (Q2Qc (-1 # 2))],
              rows_xx, rows_yy, None)]).
Proof. split; [done|]. repeat split; compute_done. Qed.

(** ** C9: the resampling estimator *)

(** *** Lists read entry by entry *)

Lemma map_nth_seq {A} (l : list A) (d : A) :
  map (λ j, nth j l d) (seq 0 (length l)) = l.
Proof.
  apply (nth_ext _ _ d d); [by rewrite length_map, length_seq|].
  intros i Hi. rewrite length_map, length_seq in Hi.
  rewrite (nth_indep _ _ (nth 0 l d)) by (rewrite length_map, length_seq; lia).
  rewrite (map_nth (λ j, nth j l d) _ 0%nat), seq_nth by lia. reflexivity.
Qed.

Lemma nth_map_in {A B} (f : A → B) (l : list A) (i : nat) (d : A) (e : B) :
  i < length l → nth i (map f l) e = f (nth i l d).
Proof.
  intros Hi. rewrite (nth_indep _ _ (f d)) by (rewrite length_map; lia).
  apply map_nth.
Qed.

Lemma nth_replicate_same {A} (n i : nat) (x : A) : nth i (replicate n x) x = x.
Proof. revert i. induction n as [|n IH]; intros [|i]; simpl; auto. Qed.

Lemma nth_replicate_lt {A} (n i : nat) (x d : A) : i < n → nth i (replicate n x) d = x.
Proof.
  intros Hi. apply nth_lookup_Some. by apply lookup_replicate_2.
Qed.

Lemma length_fold_zip {A} (f : A → A → A) (vs : list (list A)) (acc : list A) :
  Forall (λ v, length v = length acc) vs →
  length (fold_left (zip_with f) vs acc) = length acc.
Proof.
  revert acc. induction vs as [|v vs IH]; intros acc Hv; simpl; [reflexivity|].
  inversion Hv as [|? ? Hl Hvs]; subst.
  rewrite IH.
  - rewrite length_zip_with. lia.
  - eapply Forall_impl; [exact Hvs|]. simpl. intros w Hw.
    rewrite length_zip_with. lia.
Qed.

(** An accumulation of lists, entry by entry. *)
Lemma nth_fold_zip {A} (f : A → A → A) (vs : list (list A)) (acc : list A) (i : nat)
    (d : A) :
  Forall (λ v, length v = length acc) vs → i < length acc →
  nth i (fold_left (zip_with f) vs acc) d
  = fold_left f (map (λ v, nth i v d) vs) (nth i acc d).
Proof.
  revert acc. induction vs as [|v vs IH]; intros acc Hv Hi; simpl; [reflexivity|].
  inversion Hv as [|? ? Hl Hvs]; subst.
  rewrite IH.
  - f_equal. 
    destruct (lookup_lt_is_Some_2 acc i Hi) as [a Ha].
    destruct (lookup_lt_is_Some_2 v i ltac:(lia)) as [b Hb].
    rewrite (nth_lookup_Some _ _ d _ Ha), (nth_lookup_Some _ _ d _ Hb).
    apply nth_lookup_Some. by rewrite lookup_zip_with, Ha, Hb.
  - eapply Forall_impl; [exact Hvs|]. simpl. intros w Hw.
    rewrite length_zip_with. lia.
  - rewrite length_zip_with. lia.
Qed.

(** *** Column vectors *)
Section Columns.
Context {T : Type} `{Num T}.
Local Open Scope num_scope.

Lemma uncol_colvec (v : vector T) : uncol (colvec v) = v.
Proof. unfold uncol, colvec. rewrite map_map. simpl. apply map_id. Qed.

Lemma length_colvec (v : vector T) : length (colvec v) = length v.
Proof. apply length_map. Qed.

Lemma zip_with_colvec (f : T → T → T) (u v : vector T) :
  zip_with (zip_with f) (colvec u) (colvec v) = colvec (zip_with f u v).
Proof.
  revert v. induction u as [|a u IH]; intros [|b v]; simpl; [done..|].
  by rewrite IH.
Qed.

Lemma fold_madd_colvec (vs : list (vector T)) (acc : vector T) :
  fold_left madd (map colvec vs) (colvec acc)
  = colvec (fold_left (zip_with nadd) vs acc).
Proof.
  revert acc. induction vs as [|v vs IH]; intros acc; simpl; [done|].
  unfold madd at 2. by rewrite zip_with_colvec, IH.
Qed.

Lemma zeros_colvec (n : nat) : zeros n 1 = colvec (replicate n (nzero : T)).
Proof. unfold zeros, colvec. induction n; simpl; [done|]. by f_equal. Qed.

Lemma mdivs_colvec (v : vector T) (s : T) :
  mdivs (colvec v) s = colvec (map (λ a, a / s) v).
Proof. unfold mdivs, colvec. rewrite !map_map. reflexivity. Qed.

(** The mean the estimators accumulate is the population mean. *)
Lemma mean_of_population (n : nat) (vs : list (vector T)) :
  Forall (λ v, length v = n) vs →
  GaussianProcess.mean_of n (map colvec vs) = colvec (population_mean n vs).
Proof.
  intros Hv. unfold GaussianProcess.mean_of.
  rewrite zeros_colvec, fold_madd_colvec, mdivs_colvec, length_map. f_equal.
  unfold population_mean.
  assert (Hlen : length (fold_left (zip_with nadd) vs (replicate n nzero)) = n).
  { rewrite length_fold_zip; rewrite length_replicate; [done|].
    eapply Forall_impl; [exact Hv|]. done. }
  apply (nth_ext _ _ nzero nzero).
  { by rewrite !length_map, length_seq. }
  intros i Hi. rewrite length_map, Hlen in Hi.
  rewrite (nth_map_in _ _ _ nzero) by lia.
  rewrite (nth_map_in _ _ _ 0%nat) by (rewrite length_seq; lia).
  rewrite seq_nth by lia. simpl. f_equal.
  rewrite nth_fold_zip; [|by rewrite length_replicate|by rewrite length_replicate].
  unfold vsum. f_equal. apply nth_replicate_same.
Qed.
End Columns.

(** *** Exact arithmetic *)

(** The operations of the class at [Qc], for [ring] and [field]. *)
Ltac qc_ops :=
  change (@nadd Qc Qc_Num) with Qcplus in *;
  change (@nsub Qc Qc_Num) with Qcminus in *;
  change (@nmul Qc Qc_Num) with Qcmult in *;
  change (@ndiv Qc Qc_Num) with Qcdiv in *;
  change (@nzero Qc Qc_Num) with (Q2Qc 0) in *;
  change (@of_Z Qc Qc_Num) with Qc_of_Z in *;
  change (Qc_of_Z 0) with (Q2Qc 0) in *;
  change (Qc_of_Z 1) with (Q2Qc 1) in *.

Lemma Qc_dot_single (a b : Qc) : dot [a] [b] = (a * b)%Qc.
Proof. unfold dot, vsum. simpl. qc_ops. ring. Qed.

Section Covariance.
Local Open Scope num_scope.

Lemma transpose_colvec (u : vector Qc) : u ≠ [] → transpose (colvec u) = [u].
Proof.
  intros Hu. destruct u as [|a u]; [done|].
  unfold transpose, ncols. simpl hd. simpl length. simpl seq. simpl map at 1.
  f_equal. unfold col. change (a :: u) with ([a] ++ u) at 1. 
  apply (uncol_colvec (a :: u)).
Qed.

Lemma transpose_row (u : vector Qc) : transpose [u] = colvec u.
Proof.
  unfold transpose, ncols, col, colvec. simpl.
  transitivity (map (λ a, [a]) (map (λ j, nth j u nzero) (seq 0 (length u))));
    [by rewrite map_map|].
  by rewrite map_nth_seq.
Qed.

Lemma matmul_outer (u : vector Qc) :
  u ≠ [] → matmul (colvec u) (transpose (colvec u)) = outer u.
Proof.
  intros Hu. unfold matmul. rewrite (transpose_colvec u Hu), transpose_row.
  unfold outer, colvec. rewrite map_map. apply map_ext. intros a.
  rewrite map_map. apply map_ext. intros b. apply Qc_dot_single.
Qed.

Lemma msub_colvec (v m : vector Qc) :
  msub (colvec v) (colvec m) = colvec (zip_with nsub v m).
Proof. apply zip_with_colvec. Qed.

Lemma fold_left_map_acc {A B} (f : B → B → B) (g : A → B) (l : list A) (b : B) :
  fold_left (λ acc a, f acc (g a)) l b = fold_left f (map g l) b.
Proof. revert b. induction l as [|a l IH]; intros b; simpl; auto. Qed.

Lemma nth_zip_with_sub (v m : vector Qc) (i : nat) :
  length v = length m → i < length v →
  nth i (zip_with nsub v m) nzero = nth i v nzero - nth i m nzero.
Proof.
  intros Hl Hi.
  destruct (lookup_lt_is_Some_2 v i Hi) as [a Ha].
  destruct (lookup_lt_is_Some_2 m i ltac:(lia)) as [b Hb].
  rewrite (nth_lookup_Some _ _ _ _ Ha), (nth_lookup_Some _ _ _ _ Hb).
  apply nth_lookup_Some. by rewrite lookup_zip_with, Ha, Hb.
Qed.

(** The covariance the estimators accumulate around [m], entry by entry. *)
Lemma cov_of_entries (n : nat) (vs : list (vector Qc)) (m : vector Qc) :
  1 ≤ n → Forall (λ v, length v = n) vs → length m = n →
  GaussianProcess.cov_of n (map colvec vs) (colvec m)
  = map (λ i,
        map (λ j,
            vsum (map (λ v, (nth i v nzero - nth i m nzero)
                            * (nth j v nzero - nth j m nzero)) vs)
            / of_Z (Z.of_nat (length vs)))
          (seq 0 n))
      (seq 0 n).
Proof.
  intros Hn Hv Hm. unfold GaussianProcess.cov_of.
  rewrite (fold_left_map_acc madd
             (λ v, matmul (msub v (colvec m)) (transpose (msub v (colvec m))))).
  rewrite map_map, length_map.
  assert (Hmap : map (λ v, matmul (msub (colvec v) (colvec m))
                         (transpose (msub (colvec v) (colvec m)))) vs
                 = map (λ v, outer (zip_with nsub v m)) vs).
  { apply map_ext_in. intros v Hin. rewrite msub_colvec. apply matmul_outer.
    rewrite Forall_forall in Hv. apply list_elem_of_In, Hv in Hin.
    intros Hz. apply (f_equal length) in Hz. rewrite length_zip_with in Hz.
    simpl in Hz. lia. }
  rewrite Hmap. clear Hmap.
  set (Ms := map (λ v, outer (zip_with nsub v m)) vs).
  assert (HMs : Forall (λ M, length M = n ∧ Forall (λ r, length r = n) M) Ms).
  { apply Forall_forall. intros M HM. apply list_elem_of_In, in_map_iff in HM as (v & <- & Hin).
    rewrite Forall_forall in Hv. apply list_elem_of_In, Hv in Hin.
    assert (length (zip_with nsub v m) = n) as Hz by (rewrite length_zip_with; lia).
    unfold outer. split; [by rewrite length_map|].
    apply Forall_forall. intros r Hr. apply list_elem_of_In, in_map_iff in Hr as (a & <- & _).
    by rewrite length_map. }
  assert (Hrows : length (fold_left madd Ms (zeros n n)) = n).
  { unfold madd. rewrite length_fold_zip; unfold zeros; rewrite length_replicate; [done|].
    eapply Forall_impl; [exact HMs|]. simpl. tauto. }
  unfold mdivs.
  apply (nth_ext _ _ [] []).
  { by rewrite !length_map, length_seq. }
  intros i Hi. rewrite length_map, Hrows in Hi.
  rewrite (nth_map_in _ _ _ []) by lia.
  rewrite (nth_map_in _ _ _ 0%nat) by (rewrite length_seq; lia).
  rewrite seq_nth by lia. simpl.
  unfold madd. rewrite nth_fold_zip.
  2:{ unfold zeros. rewrite length_replicate. eapply Forall_impl; [exact HMs|]. simpl. tauto. }
  2:{ unfold zeros. by rewrite length_replicate. }
  unfold zeros at 1. rewrite nth_replicate_lt by lia.
  assert (Hrow : length (fold_left (zip_with nadd) (map (λ M, nth i M []) Ms)
                           (replicate n nzero)) = n).
  { rewrite length_fold_zip; rewrite length_replicate; [done|].
    apply Forall_forall. intros r Hr. apply list_elem_of_In, in_map_iff in Hr as (M & <- & HM).
    rewrite Forall_forall in HMs. apply list_elem_of_In, HMs in HM as [HM1 HM2].
    rewrite Forall_forall in HM2. apply HM2. apply list_elem_of_In, nth_In. lia. }
  apply (nth_ext _ _ nzero nzero).
  { by rewrite !length_map, length_seq. }
  intros j Hj. rewrite length_map, Hrow in Hj.
  rewrite (nth_map_in _ _ _ nzero) by lia.
  rewrite (nth_map_in _ _ _ 0%nat) by (rewrite length_seq; lia).
  rewrite seq_nth by lia. simpl. f_equal.
  rewrite nth_fold_zip.
  2:{ rewrite length_replicate.
      apply Forall_forall. intros r Hr. apply list_elem_of_In, in_map_iff in Hr as (M & <- & HM).
      rewrite Forall_forall in HMs. apply list_elem_of_In, HMs in HM as [HM1 HM2].
      rewrite Forall_forall in HM2. apply HM2. apply list_elem_of_In, nth_In. lia. }
  2:{ by rewrite length_replicate. }
  rewrite nth_replicate_same. unfold vsum. f_equal.
  unfold Ms. rewrite !map_map. apply map_ext_in. intros v Hin.
  rewrite Forall_forall in Hv. apply list_elem_of_In, Hv in Hin.
  assert (length (zip_with nsub v m) = n) as Hz by (rewrite length_zip_with; lia).
  unfold outer.
  rewrite (nth_map_in _ _ _ nzero) by lia.
  rewrite (nth_map_in _ _ _ nzero) by lia.
  rewrite !nth_zip_with_sub by lia. reflexivity.
Qed.
End Covariance.

(** *** Resampling one trajectory *)
Section Resample.
Context {T : Type} `{Num T}.
Local Open Scope num_scope.

Lemma col_r_Ok (d : nat) (A : matrix T) :
  Forall (λ r, d < length r) A → col_r d A = Ok (col d A).
Proof.
  intros HA. unfold col_r, col. apply map_r_Ok. intros r Hr.
  rewrite Forall_forall in HA. apply HA in Hr.
  destruct (lookup_lt_is_Some_2 r d Hr) as [a Ha].
  rewrite (at_index_Some _ _ _ Ha). f_equal. symmetry. by apply nth_lookup_Some.
Qed.

Lemma np_interp_Ok (xs xp fp : vector T) :
  xp ≠ [] → length xp = length fp →
  np_interp xs xp fp = Ok (map (λ x, interp1 x xp fp) xs).
Proof.
  intros Hxp Hl. unfold np_interp. destruct xp as [|x0 xp]; [done|].
  by rewrite Hl, Nat.eqb_refl.
Qed.

Lemma transpose_transpose (A : matrix T) (c : nat) :
  A ≠ [] → 1 ≤ c → Forall (λ r, length r = c) A → transpose (transpose A) = A.
Proof.
  intros HA Hc Hrows.
  assert (Hncols : ncols A = c).
  { unfold ncols. destruct A as [|r A]; [done|]. simpl. by inversion Hrows. }
  assert (Ht : transpose A = map (λ j, col j A) (seq 0 c)).
  { unfold transpose. by rewrite Hncols. }
  assert (Hncols' : ncols (transpose A) = length A).
  { rewrite Ht. unfold ncols. destruct c as [|c]; [lia|]. simpl.
    unfold col. by rewrite length_map. }
  unfold transpose at 1. rewrite Hncols'.
  apply (nth_ext _ _ [] []); [by rewrite length_map, length_seq|].
  intros i Hi. rewrite length_map, length_seq in Hi.
  rewrite (nth_map_in _ _ _ 0%nat) by (rewrite length_seq; lia).
  rewrite seq_nth by lia. simpl.
  rewrite Ht. unfold col at 1. rewrite map_map.
  assert (Hrow : length (nth i A []) = c).
  { rewrite Forall_forall in Hrows. apply Hrows. apply list_elem_of_In, nth_In. lia. }
  transitivity (map (λ j, nth j (nth i A []) nzero) (seq 0 c)).
  - apply map_ext. intros j. unfold col.
    by rewrite (nth_map_in _ _ _ []) by lia.
  - rewrite <- Hrow. apply map_nth_seq.
Qed.

Lemma concat_map_flat_map {A B} (f : A → list B) (l : list A) :
  concat (map f l) = flat_map f l.
Proof. induction l as [|a l IH]; simpl; [done|]. by rewrite IH. Qed.

(** A trajectory resampled by the source is its interpolation at [xp],
    dimension after dimension. *)
Lemma resample_Ok (mdim : nat) (xp : vector T) (tr : trajectory T) :
  1 ≤ mdim → xp ≠ [] →
  tr.1 ≠ [] → length tr.1 = length tr.2 → Forall (λ r, length r = mdim) tr.2 →
  GaussianProcess.resample mdim xp tr = Ok (colvec (resampled mdim xp tr)).
Proof.
  intros Hm Hxp Hx Hl Hrows. destruct tr as [xn Yn]. simpl in *.
  unfold GaussianProcess.resample.
  rewrite (map_r_Ok _ (λ d, map (λ x, interp1 x xn (col d Yn)) xp)).
  2:{ intros d Hd. apply elem_of_seq in Hd. rewrite col_r_Ok, bind_Ok.
      - apply np_interp_Ok; [done|]. unfold col. by rewrite length_map.
      - eapply Forall_impl; [exact Hrows|]. simpl. lia. }
  rewrite bind_Ok. unfold reshape_F. f_equal. f_equal.
  rewrite (transpose_transpose _ (length xp)).
  - apply concat_map_flat_map.
  - destruct mdim; [lia|]. done.
  - destruct xp; [done|]. simpl. lia.
  - apply Forall_forall. intros r Hr. apply list_elem_of_In, in_map_iff in Hr as (d & <- & _).
    by rewrite length_map.
Qed.

Lemma length_resampled (mdim : nat) (xp : vector T) (tr : trajectory T) :
  length (resampled mdim xp tr) = (mdim * length xp)%nat.
Proof.
  unfold resampled. generalize 0 at 1. induction mdim as [|m IH]; intros s; simpl; [done|].
  by rewrite length_app, length_map, IH.
Qed.
End Resample.

(** *** Back to physical units *)
Section Physical.
Context {T : Type} `{Num T}.
Local Open Scope num_scope.

Lemma colvec_flat_map {A} (g : A → vector T) (l : list A) :
  colvec (flat_map g l) = flat_map (λ a, colvec (g a)) l.
Proof.
  unfold colvec. induction l as [|a l IH]; simpl; [done|].
  by rewrite map_app, IH.
Qed.

Lemma colvec_replicate (n : nat) (a : T) : colvec (replicate n a) = replicate n [a].
Proof. unfold colvec. induction n; simpl; [done|]. by f_equal. Qed.

Lemma length_blocks {A} (g : nat → A) (ngaus ndim s : nat) :
  length (flat_map (λ d, replicate ngaus (g d)) (seq s ndim)) = (ndim * ngaus)%nat.
Proof.
  revert s. induction ndim as [|n IH]; intros s; simpl; [done|].
  by rewrite length_app, length_replicate, IH.
Qed.
End Physical.

Section PhysicalQc.

Lemma np_concatenate_Ok {T : Type} (l : list (matrix T)) :
  l ≠ [] → GaussianProcess.np_concatenate l = Ok (concat l).
Proof. by destruct l. Qed.

Lemma np_ones_rows_Ok (n : nat) : GaussianProcess.np_ones_rows (Z.of_nat n) = Ok n.
Proof.
  unfold GaussianProcess.np_ones_rows.
  replace (Z.of_nat n <? 0)%Z with false by (symmetry; apply Z.ltb_ge; lia).
  by rewrite Nat2Z.id.
Qed.

Lemma outline2vectors_Ok (self : @GaussianProcess.t Qc) (ngaus : nat) :
  GaussianProcess._ngaus self = Z.of_nat ngaus →
  1 ≤ GaussianProcess._ndim self →
  length (GaussianProcess._outline self) = 2 * GaussianProcess._ndim self →
  GaussianProcess._outline2vectors self
  = Ok (colvec (offsets (GaussianProcess._outline self) ngaus (GaussianProcess._ndim self)),
        colvec (spans (GaussianProcess._outline self) ngaus (GaussianProcess._ndim self))).
Proof.
  intros Hg Hd Ho. unfold GaussianProcess._outline2vectors.
  set (outline := GaussianProcess._outline self) in *.
  set (ndim := GaussianProcess._ndim self) in *.
  rewrite Hg.
  rewrite (map_r_Ok _ (λ d,
     (GaussianProcess.ones_times ngaus (nth (d * 2) outline nzero),
      GaussianProcess.ones_times ngaus
        (nth (d * 2 + 1) outline nzero - nth (d * 2) outline nzero)%num))).
  2:{ intros d Hin. apply elem_of_seq in Hin.
      destruct (lookup_lt_is_Some_2 outline (d * 2 + 0) ltac:(lia)) as [a Ha].
      destruct (lookup_lt_is_Some_2 outline (d * 2 + 1) ltac:(lia)) as [b Hb].
      rewrite (at_index_Some _ _ _ Ha), bind_Ok, (at_index_Some _ _ _ Hb), bind_Ok.
      rewrite np_ones_rows_Ok, bind_Ok.
      rewrite Nat.add_0_r in Ha.
      by rewrite (nth_lookup_Some _ _ nzero _ Ha), (nth_lookup_Some _ _ nzero _ Hb). }
  rewrite bind_Ok, !map_map. simpl.
  assert (Hne : ∀ {A} (g : nat → A), map g (seq 0 ndim) ≠ []).
  { intros A g. destruct ndim; [lia|]. done. }
  rewrite !np_concatenate_Ok by apply Hne.
  rewrite !bind_Ok. rewrite !concat_map_flat_map.
  unfold offsets, spans. rewrite !colvec_flat_map.
  f_equal. f_equal.
  - apply flat_map_ext. intros d. rewrite colvec_replicate.
    unfold GaussianProcess.ones_times. do 2 f_equal. unfold n_one. qc_ops. ring.
  - apply flat_map_ext. intros d. rewrite colvec_replicate.
    unfold GaussianProcess.ones_times. do 2 f_equal. unfold n_one. qc_ops. ring.
Qed.

Lemma fold_zero_column (r d : vector Qc) (acc : Qc) :
  fold_left nadd (zip_with nmul r (imap (λ _ _, nzero) d)) acc = acc.
Proof.
  revert d acc. induction r as [|a r IH]; intros [|b d] acc; simpl; [done..|].
  rewrite (imap_ext _ (λ _ _, nzero)) by done. rewrite IH. qc_ops. ring.
Qed.

(** The product of a row with a column of a diagonal matrix picks one
    entry. *)
Lemma fold_unit_column (r d : vector Qc) (j : nat) (acc : Qc) :
  fold_left nadd
    (zip_with nmul r (imap (λ i a, if Nat.eqb i j then a else nzero) d)) acc
  = (acc + nth j r nzero * nth j d nzero)%num.
Proof.
  revert d j acc. induction r as [|a r IH]; intros [|b d] j acc.
  - destruct j; simpl; qc_ops; ring.
  - destruct j; simpl; qc_ops; ring.
  - destruct j; simpl; qc_ops; ring.
  - destruct j as [|j]; simpl.
    + rewrite (imap_ext _ (λ _ _, nzero)) by done.
      rewrite fold_zero_column. reflexivity.
    + rewrite (imap_ext _ (λ i a, if Nat.eqb i j then a else nzero)) by done.
      rewrite IH. qc_ops. ring.
Qed.

Lemma matmul_diagflat (sig : matrix Qc) (d : vector Qc) :
  d ≠ [] → Forall (λ r, length r = length d) sig →
  matmul sig (diagflat (colvec d)) = map (λ r, zip_with nmul r d) sig.
Proof.
  intros Hd Hsig. unfold matmul, diagflat. rewrite uncol_colvec.
  set (diag := imap (λ i a, imap (λ j _, if Nat.eqb i j then a else nzero) d) d).
  assert (Hcols : transpose diag
                  = map (λ j, imap (λ i a, if Nat.eqb i j then a else nzero) d)
                        (seq 0 (length d))).
  { unfold transpose. 
    assert (ncols diag = length d) as ->.
    { unfold ncols, diag. destruct d as [|a d]; [done|]. simpl. by rewrite length_imap. }
    apply map_ext_in. intros j Hj. apply in_seq in Hj.
    unfold col, diag.
    apply (nth_ext _ _ nzero nzero).
    { by rewrite length_map, !length_imap. }
    intros i Hi. rewrite length_map, length_imap in Hi.
    rewrite (nth_map_in _ _ _ []) by (rewrite length_imap; lia).
    destruct (lookup_lt_is_Some_2 d i Hi) as [a Ha].
    rewrite (nth_lookup_Some (imap _ d) i [] (imap (λ j0 _, if Nat.eqb i j0 then a else nzero) d)).
    2:{ by rewrite list_lookup_imap, Ha. }
    destruct (lookup_lt_is_Some_2 d j ltac:(lia)) as [b Hb].
    rewrite (nth_lookup_Some (imap _ d) j nzero (if Nat.eqb i j then a else nzero)).
    2:{ by rewrite list_lookup_imap, Hb. }
    symmetry. apply nth_lookup_Some. by rewrite list_lookup_imap, Ha. }
  rewrite Hcols. apply map_ext_in. intros r Hr.
  rewrite Forall_forall in Hsig. apply list_elem_of_In, Hsig in Hr.
  rewrite map_map.
  apply (nth_ext _ _ nzero nzero).
  { rewrite length_map, length_seq, length_zip_with. lia. }
  intros j Hj. rewrite length_map, length_seq in Hj.
  rewrite (nth_map_in _ _ _ 0%nat) by (rewrite length_seq; lia).
  rewrite seq_nth by lia. rewrite Nat.add_0_l.
  unfold dot, vsum. rewrite fold_unit_column.
  destruct (lookup_lt_is_Some_2 r j ltac:(lia)) as [a Ha].
  destruct (lookup_lt_is_Some_2 d j Hj) as [b Hb].
  rewrite (nth_lookup_Some _ _ _ _ Ha), (nth_lookup_Some _ _ _ _ Hb).
  rewrite (nth_lookup_Some (zip_with nmul r d) j nzero (nmul a b)).
  2:{ by rewrite lookup_zip_with, Ha, Hb. }
  qc_ops. ring.
Qed.

Lemma norm2real_Ok (self : @GaussianProcess.t Qc) (ngaus : nat) (m : vector Qc)
    (sig : matrix Qc) :
  GaussianProcess._ngaus self = Z.of_nat ngaus →
  1 ≤ ngaus → 1 ≤ GaussianProcess._ndim self →
  length (GaussianProcess._outline self) = 2 * GaussianProcess._ndim self →
  Forall (λ r, length r = GaussianProcess._ndim self * ngaus) sig →
  GaussianProcess._norm2real self (colvec m) sig
  = Ok (colvec (physical_mean (GaussianProcess._outline self) ngaus
                  (GaussianProcess._ndim self) m),
        physical_covariance (GaussianProcess._outline self) ngaus
          (GaussianProcess._ndim self) sig).
Proof.
  intros Hg Hn Hd Ho Hsig. unfold GaussianProcess._norm2real.
  rewrite (outline2vectors_Ok self ngaus Hg Hd Ho), bind_Ok.
  unfold mhad, madd. rewrite !zip_with_colvec. f_equal. f_equal.
  apply matmul_diagflat.
  - intros Hz. apply (f_equal length) in Hz.
    rewrite length_zip_with in Hz. unfold spans in Hz.
    rewrite length_blocks in Hz. simpl in Hz. nia.
  - eapply Forall_impl; [exact Hsig|]. simpl. intros r ->.
    rewrite length_zip_with. unfold spans. rewrite length_blocks. lia.
Qed.
End PhysicalQc.

(** *** The cells of any joint Gaussian of the right shape *)
Section CellsTotal.
Context {T : Type} `{Num T} `{!Helpers T}.

Lemma map_r_total {A B} (f : A → result B) (l : list A) :
  (∀ a, a ∈ l → ∃ b, f a = Ok b) → ∃ bs, map_r f l = Ok bs.
Proof.
  induction l as [|a l IH]; intros Hf; simpl; [by eexists|].
  destruct (Hf a) as [b ->]; [by left|].
  destruct IH as [bs ->]; [intros a' Ha'; apply Hf; by right|].
  by eexists.
Qed.

Lemma getMuSigma_total (D ngaus m : nat) (mu_y sig_y : matrix T) :
  m < ngaus →
  length mu_y = D * ngaus → Forall (λ r, r ≠ []) mu_y →
  length sig_y = D * ngaus → Forall (λ r, length r = D * ngaus) sig_y →
  ∃ cA, getMuSigma D mu_y sig_y (Z.of_nat m) (Z.of_nat ngaus) = Ok cA.
Proof.
  intros Hm Hmu Hmu0 Hsig Hrows. unfold getMuSigma.
  replace ((Z.of_nat m <? 0)%Z || (Z.of_nat m >=? Z.of_nat ngaus)%Z) with false by lia.
  assert (Hpos : ∀ d, Z.to_nat (Z.of_nat m + Z.of_nat d * Z.of_nat ngaus) = m + d * ngaus)
    by (intros; lia).
  assert (Hlt : ∀ d, d < D → m + d * ngaus < D * ngaus) by (intros; nia).
  destruct (map_r_total (λ d_row,
      mu_row ← at_index mu_y (Z.to_nat (Z.of_nat m + Z.of_nat d_row * Z.of_nat ngaus));
      c ← at_index mu_row 0;
      sig_row ← at_index sig_y (Z.to_nat (Z.of_nat m + Z.of_nat d_row * Z.of_nat ngaus));
      A_row ← map_r (λ d_col, at_index sig_row
                (Z.to_nat (Z.of_nat m + Z.of_nat d_col * Z.of_nat ngaus))) (seq 0 D);
      Ok (c, A_row)) (seq 0 D)) as [rows Hrows'].
  - intros d Hd. apply elem_of_seq in Hd. rewrite Hpos.
    destruct (lookup_lt_is_Some_2 mu_y (m + d * ngaus)) as [mrow Hmrow];
      [rewrite Hmu; apply Hlt; lia|].
    rewrite (at_index_Some _ _ _ Hmrow), bind_Ok.
    assert (mrow ≠ []) as Hne.
    { rewrite Forall_forall in Hmu0. apply Hmu0. by eapply list_elem_of_lookup_2. }
    destruct mrow as [|c mrow]; [done|].
    rewrite (at_index_Some (c :: mrow) 0 c eq_refl), bind_Ok.
    destruct (lookup_lt_is_Some_2 sig_y (m + d * ngaus)) as [srow Hsrow];
      [rewrite Hsig; apply Hlt; lia|].
    rewrite (at_index_Some _ _ _ Hsrow), bind_Ok.
    assert (length srow = D * ngaus) as Hsl.
    { rewrite Forall_forall in Hrows. apply Hrows. by eapply list_elem_of_lookup_2. }
    destruct (map_r_total (λ d_col, at_index srow
                (Z.to_nat (Z.of_nat m + Z.of_nat d_col * Z.of_nat ngaus))) (seq 0 D))
      as [arow ->].
    + intros d' Hd'. apply elem_of_seq in Hd'. rewrite Hpos.
      destruct (lookup_lt_is_Some_2 srow (m + d' * ngaus)) as [a Ha];
        [rewrite Hsl; apply Hlt; lia|].
      rewrite (at_index_Some _ _ _ Ha). by eexists.
    + rewrite bind_Ok. by eexists.
  - rewrite Hrows', bind_Ok. by eexists.
Qed.

Lemma getGMMCells_total (D ngaus : nat) (mu_y sig_y : matrix T) :
  (∀ A, ∃ B, nearest_spd A = Ok B) →
  length mu_y = D * ngaus → Forall (λ r, r ≠ []) mu_y →
  length sig_y = D * ngaus → Forall (λ r, length r = D * ngaus) sig_y →
  ∃ cells, getGMMCells D mu_y sig_y (Z.of_nat ngaus) = Ok cells.
Proof.
  intros Hspd Hmu Hmu0 Hsig Hrows. unfold getGMMCells. rewrite Nat2Z.id.
  destruct (map_r_total (λ m,
      '(c, A) ← getMuSigma D mu_y sig_y (Z.of_nat m) (Z.of_nat ngaus);
      A ← nearest_spd A; Ok (c, A)) (seq 0 ngaus)) as [cells ->].
  - intros m Hm. apply elem_of_seq in Hm.
    destruct (getMuSigma_total D ngaus m mu_y sig_y) as [[c A] ->]; [lia|done..|].
    rewrite bind_Ok. destruct (Hspd A) as [B ->]. rewrite bind_Ok. by eexists.
  - rewrite bind_Ok. by eexists.
Qed.
End CellsTotal.

(** *** The joint Gaussian of the estimator *)
Section Estimator.
Context `{!Helpers Qc}.

Lemma linspace01_Ok (ngaus : nat) :
  ∃ xp : vector Qc, linspace01 (Z.of_nat ngaus) = Ok xp ∧ length xp = ngaus.
Proof.
  unfold linspace01.
  replace (Z.of_nat ngaus <? 0)%Z with false by (symmetry; apply Z.ltb_ge; lia).
  destruct (Z.of_nat ngaus =? 1)%Z eqn:E.
  - exists [nzero]. split; [done|]. simpl. lia.
  - eexists. split; [done|]. by rewrite length_map, length_seq, Nat2Z.id.
Qed.

Lemma length_population_mean (n : nat) (vs : list (vector Qc)) :
  length (population_mean n vs) = n.
Proof. unfold population_mean. by rewrite length_map, length_seq. Qed.

(** The estimator up to the decomposition into cells: the joint Gaussian is
    the population mean and covariance of the resampled trajectories,
    converted to physical units. *)
Lemma model_by_resampling_joint (self : @GaussianProcess.t Qc) (ngaus : nat)
    (xp : vector Qc) :
  GaussianProcess._ngaus self = Z.of_nat ngaus →
  1 ≤ ngaus → 1 ≤ GaussianProcess._ndim self →
  linspace01 (Z.of_nat ngaus) = Ok xp → length xp = ngaus →
  Forall (λ tr, tr.1 ≠ [] ∧ length tr.1 = length tr.2
                ∧ Forall (λ r, length r = GaussianProcess._ndim self) tr.2)
         (GaussianProcess._cluster_data self) →
  length (GaussianProcess._outline self) = 2 * GaussianProcess._ndim self →
  let ndim := GaussianProcess._ndim self in
  let outline := GaussianProcess._outline self in
  let R := map (resampled ndim xp) (GaussianProcess._cluster_data self) in
  let mu := colvec (physical_mean outline ngaus ndim
                      (population_mean (ndim * ngaus) R)) in
  let sig := physical_covariance outline ngaus ndim
               (population_covariance (ndim * ngaus) R) in
  GaussianProcess.model_by_resampling self
  = ('(cc, cA) ← getGMMCells ndim mu sig (Z.of_nat ngaus); Ok (mu, sig, cc, cA)).
Proof.
  intros Hg Hn Hd Hxp Hlen Hwf Ho ndim outline R mu sig.
  set (n := ndim * ngaus).
  assert (HR : Forall (λ v, length v = n) R).
  { apply Forall_forall. intros v Hv. apply list_elem_of_In, in_map_iff in Hv as (tr & <- & _).
    rewrite length_resampled. by rewrite Hlen. }
  assert (Hn1 : 1 ≤ n) by (unfold n; nia).
  assert (Hcov : Forall (λ r, length r = n) (population_covariance n R)).
  { apply Forall_forall. intros r Hr. unfold population_covariance in Hr.
    apply list_elem_of_In, in_map_iff in Hr as (i & <- & _).
    by rewrite length_map, length_seq. }
  unfold GaussianProcess.model_by_resampling. rewrite Hg, Hxp, bind_Ok.
  rewrite (map_r_Ok _ (λ tr, colvec (resampled ndim xp tr))).
  2:{ intros tr Htr. rewrite Forall_forall in Hwf. destruct (Hwf tr Htr) as (H1 & H2 & H3).
      apply resample_Ok; try done. intros ->. simpl in Hlen. lia. }
  rewrite bind_Ok, Nat2Z.id. fold ndim. fold n.
  rewrite <- (map_map (resampled ndim xp) colvec). fold R.
  rewrite mean_of_population by done.
  rewrite cov_of_entries; [|done|done|apply length_population_mean].
  change (map _ (seq 0 n)) with (population_covariance n R).
  rewrite (norm2real_Ok self ngaus) by done.
  rewrite bind_Ok. reflexivity.
Qed.

Lemma model_by_resampling_moments (self : @GaussianProcess.t Qc) (ngaus : nat) :
  GaussianProcess._ngaus self = Z.of_nat ngaus →
  1 ≤ ngaus → 1 ≤ GaussianProcess._ndim self →
  Forall (λ tr, tr.1 ≠ [] ∧ length tr.1 = length tr.2
                ∧ Forall (λ r, length r = GaussianProcess._ndim self) tr.2)
         (GaussianProcess._cluster_data self) →
  length (GaussianProcess._outline self) = 2 * GaussianProcess._ndim self →
  (∀ A, ∃ B, nearest_spd A = Ok B) →
  ∃ xp cc cA,
    linspace01 (Z.of_nat ngaus) = Ok xp ∧ length xp = ngaus ∧
    let ndim := GaussianProcess._ndim self in
    let outline := GaussianProcess._outline self in
    let R := map (resampled ndim xp) (GaussianProcess._cluster_data self) in
    let mu := colvec (physical_mean outline ngaus ndim
                        (population_mean (ndim * ngaus) R)) in
    let sig := physical_covariance outline ngaus ndim
                 (population_covariance (ndim * ngaus) R) in
    GaussianProcess.model_by_resampling self = Ok (mu, sig, cc, cA)
    ∧ getGMMCells ndim mu sig (Z.of_nat ngaus) = Ok (cc, cA).
Proof.
  intros Hg Hn Hd Hwf Ho Hspd.
  destruct (linspace01_Ok ngaus) as (xp & Hxp & Hlen).
  set (ndim := GaussianProcess._ndim self) in *.
  set (outline := GaussianProcess._outline self) in *.
  set (R := map (resampled ndim xp) (GaussianProcess._cluster_data self)).
  set (n := ndim * ngaus).
  set (mu := colvec (physical_mean outline ngaus ndim (population_mean n R))).
  set (sig := physical_covariance outline ngaus ndim (population_covariance n R)).
  assert (Hcov : Forall (λ r, length r = n) (population_covariance n R)).
  { apply Forall_forall. intros r Hr. unfold population_covariance in Hr.
    apply list_elem_of_In, in_map_iff in Hr as (i & <- & _).
    by rewrite length_map, length_seq. }
  destruct (getGMMCells_total ndim ngaus mu sig Hspd) as [[cc cA] Hcells].
  { unfold mu, physical_mean. rewrite length_colvec, !length_zip_with.
    unfold spans, offsets. rewrite !length_blocks, length_population_mean. lia. }
  { apply Forall_forall. intros r Hr. unfold mu, colvec in Hr.
    apply list_elem_of_In, in_map_iff in Hr as (a & <- & _). done. }
  { unfold sig, physical_covariance, population_covariance.
    by rewrite !length_map, length_seq. }
  { apply Forall_forall. intros r Hr. unfold sig, physical_covariance in Hr.
    apply list_elem_of_In, in_map_iff in Hr as (r' & <- & Hr').
    rewrite Forall_forall in Hcov. apply list_elem_of_In, Hcov in Hr'.
    rewrite !length_zip_with. unfold spans. rewrite !length_blocks. fold n. lia. }
  exists xp, cc, cA. split; [done|]. split; [done|]. split; [|done].
  rewrite (model_by_resampling_joint self ngaus xp) by done.
  fold ndim outline R n mu sig. by rewrite Hcells, bind_Ok.
Qed.
End Estimator.

(** *** Interpolation at the samples *)
Section Interp.
Local Open Scope Qc_scope.

Lemma Qc_ltb_true (a b : Qc) : a < b → nltb a b = true.
Proof. intros Hab. simpl. by apply bool_decide_eq_true_2. Qed.

Lemma Qc_ltb_false (a b : Qc) : b ≤ a → nltb a b = false.
Proof. intros Hab. simpl. apply bool_decide_eq_false_2. by apply Qcle_not_lt. Qed.

Lemma interp_from_left (x y0 : Qc) (xs ys : vector Qc) :
  Forall (Qclt x) xs → interp_from x x y0 xs ys = y0.
Proof.
  intros Hxs. destruct xs as [|x1 xs], ys as [|y1 ys]; simpl; try done.
  inversion Hxs as [|? ? Hx1 _]; subst.
  rewrite bool_decide_eq_true_2 by done. unfold Qcdiv. ring.
Qed.

Lemma interp_from_knot (xs ys : vector Qc) (x0 y0 : Qc) (k : nat) (x y : Qc) :
  StronglySorted Qclt (x0 :: xs) → 
  xs !! k = Some x → ys !! k = Some y →
  interp_from x x0 y0 xs ys = y.
Proof.
  revert ys x0 y0 k. induction xs as [|x1 xs IH]; intros ys x0 y0 k Hs Hx Hy; [done|].
  destruct ys as [|y1 ys]; [done|].
  apply StronglySorted_inv in Hs as [Hs Hall].
  destruct k as [|k]; simpl in Hx, Hy; simplify_eq.
  - simpl. rewrite bool_decide_eq_false_2 by apply Qcle_not_lt, Qcle_refl.
    apply interp_from_left. by apply StronglySorted_inv in Hs as [_ ?].
  - assert (x1 < x) as Hlt.
    { apply StronglySorted_inv in Hs as [_ Hall1]. rewrite Forall_forall in Hall1.
      apply Hall1. by eapply list_elem_of_lookup_2. }
    simpl. rewrite bool_decide_eq_false_2.
    2:{ apply Qcle_not_lt. by apply Qclt_le_weak. }
    by eapply IH.
Qed.

Lemma interp1_knot (xs ys : vector Qc) (k : nat) (x y : Qc) :
  StronglySorted Qclt xs → 
  xs !! k = Some x → ys !! k = Some y →
  interp1 x xs ys = y.
Proof.
  intros Hs Hx Hy. destruct xs as [|x0 xs]; [done|]. destruct ys as [|y0 ys]; [done|].
  destruct k as [|k]; simpl in Hx, Hy; simplify_eq.
  - simpl. by rewrite bool_decide_eq_true_2 by apply Qcle_refl.
  - assert (x0 < x) as Hlt.
    { apply StronglySorted_inv in Hs as [_ Hall]. rewrite Forall_forall in Hall.
      apply Hall. by eapply list_elem_of_lookup_2. }
    simpl. rewrite bool_decide_eq_false_2 by (by apply Qclt_not_le).
    by eapply interp_from_knot.
Qed.

(** Interpolating at the samples themselves returns the values. *)
Lemma interp_at_samples (xs ys : vector Qc) :
  StronglySorted Qclt xs → length xs = length ys →
  map (λ x, interp1 x xs ys) xs = ys.
Proof.
  intros Hs Hl. apply (nth_ext _ _ nzero nzero); [by rewrite length_map|].
  intros k Hk. rewrite length_map in Hk.
  rewrite (nth_map_in _ _ _ nzero) by lia.
  destruct (lookup_lt_is_Some_2 xs k Hk) as [x Hx].
  destruct (lookup_lt_is_Some_2 ys k ltac:(lia)) as [y Hy].
  rewrite (nth_lookup_Some _ _ _ _ Hx), (nth_lookup_Some _ _ _ _ Hy).
  by eapply interp1_knot.
Qed.

(** Between two neighbouring samples the value lies on the chord. *)
Lemma interp_from_between (xs ys : vector Qc) (x0 y0 : Qc) (k : nat) (x a b fa fb : Qc) :
  StronglySorted Qclt (x0 :: xs) → 
  (x0 :: xs) !! k = Some a → (x0 :: xs) !! S k = Some b →
  (y0 :: ys) !! k = Some fa → (y0 :: ys) !! S k = Some fb →
  a ≤ x → x < b →
  interp_from x x0 y0 xs ys = (fb - fa) / (b - a) * (x - a) + fa.
Proof.
  revert ys x0 y0 k. induction xs as [|x1 xs IH]; intros ys x0 y0 k Hs Ha Hb Hfa Hfb Hax Hxb.
  { by destruct k. }
  destruct ys as [|y1 ys]; [by destruct k|].
  destruct k as [|k]; simpl in Ha, Hb, Hfa, Hfb; simplify_eq.
  - simpl. by rewrite bool_decide_eq_true_2.
  - apply StronglySorted_inv in Hs as [Hs Hall].
    assert (x1 ≤ a) as Hle.
    { destruct k as [|k]; simpl in Ha; simplify_eq; [apply Qcle_refl|].
      apply Qclt_le_weak. apply StronglySorted_inv in Hs as [_ Hall1].
      rewrite Forall_forall in Hall1. apply Hall1. by eapply list_elem_of_lookup_2. }
    simpl. rewrite bool_decide_eq_false_2.
    2:{ apply Qcle_not_lt. by eapply Qcle_trans. }
    by eapply (IH ys x1 y1 k).
Qed.

Lemma Qc_of_Z_lt (a b : Z) : (a < b)%Z → Qc_of_Z a < Qc_of_Z b.
Proof.
  intros Hab. unfold Qclt, Qc_of_Z. simpl. rewrite !Qred_correct.
  by rewrite <- Zlt_Qlt.
Qed.

Lemma sorted_map_seq (f : nat → Qc) (s n : nat) :
  (∀ i j : nat, (i < j)%nat → f i < f j) → StronglySorted Qclt (map f (seq s n)).
Proof.
  intros Hmono. revert s. induction n as [|n IH]; intros s; simpl; constructor.
  - apply IH.
  - apply Forall_forall. intros x Hx.
    apply list_elem_of_In, in_map_iff in Hx as (j & <- & Hj). apply in_seq in Hj.
    apply Hmono. lia.
Qed.

Lemma linspace_sorted (ngaus : nat) (xp : vector Qc) :
  (2 ≤ ngaus)%nat → linspace01 (Z.of_nat ngaus) = Ok xp → StronglySorted Qclt xp.
Proof.
  intros Hn. unfold linspace01.
  replace (Z.of_nat ngaus <? 0)%Z with false by (symmetry; apply Z.ltb_ge; lia).
  replace (Z.of_nat ngaus =? 1)%Z with false by lia.
  intros [= <-]. apply sorted_map_seq. intros i j Hij.
  simpl. unfold Qcdiv. apply Qcmult_lt_compat_r.
  - apply Qcinv_pos. apply (Qc_of_Z_lt 0). lia.
  - apply Qc_of_Z_lt. lia.
Qed.
End Interp.

Section CellsRepair.
Context {T : Type} `{Num T} `{!Helpers T}.

(** The decomposition of a joint Gaussian that holds given cells, whatever
    the repair does to their covariances. *)
Lemma getGMMCells_flattened_repair (D : nat) (cells : list (vector T * matrix T))
    (repaired : list (matrix T)) (mu_y sig_y : matrix T) :
  Forall (λ cell, length cell.1 = D ∧ length cell.2 = D ∧ is_square cell.2 = true) cells →
  Forall2 (λ cell B, nearest_spd cell.2 = Ok B) cells repaired →
  flattened (length cells) cells mu_y sig_y →
  getGMMCells D mu_y sig_y (Z.of_nat (length cells))
  = Ok (map (colvec ∘ fst) cells, repaired).
Proof.
  intros Hshape Hrep Hfl. unfold getGMMCells. rewrite Nat2Z.id.
  rewrite (map_r_seq _ (λ p, (colvec p.1.1, p.2)) (zip cells repaired) 0 (length cells)).
  - rewrite bind_Ok, !map_map. simpl. f_equal. f_equal.
    + rewrite <- (map_map fst (λ c, colvec c.1)). rewrite fst_zip; [done|].
      by rewrite (Forall2_length _ _ _ Hrep).
    + rewrite snd_zip; [done|]. by rewrite (Forall2_length _ _ _ Hrep).
  - rewrite length_zip, (Forall2_length _ _ _ Hrep). lia.
  - intros m [[c A] B] Hm. simpl.
    apply lookup_zip_Some in Hm as [Hm HB].
    rewrite Forall_lookup in Hshape. destruct (Hshape m _ Hm) as (Hc & HA & Hsq).
    simpl in Hc, HA, Hsq.
    rewrite (getMuSigma_flattened D (length cells) cells mu_y sig_y m c A); try done.
    rewrite bind_Ok. simpl.
    rewrite Forall2_lookup in Hrep. specialize (Hrep m). rewrite Hm, HB in Hrep.
    inversion Hrep as [? ? Hr|]; subst. simpl in Hr. by rewrite Hr, bind_Ok.
Qed.
End CellsRepair.

(** *** Identical trajectories *)
Section Identical.
Context `{!Helpers Qc}.

Lemma zip_with_flat_map {A B C D} (f : A → B → C) (g1 : D → list A) (g2 : D → list B)
    (l : list D) :
  (∀ d, length (g1 d) = length (g2 d)) →
  zip_with f (flat_map g1 l) (flat_map g2 l) = flat_map (λ d, zip_with f (g1 d) (g2 d)) l.
Proof.
  intros Hl. induction l as [|d l IH]; simpl; [done|].
  rewrite zip_with_app by apply Hl. by rewrite IH.
Qed.

Lemma zip_with_replicate_r {A B C} (f : A → B → C) (l : list A) (c : B) :
  zip_with f l (replicate (length l) c) = map (λ a, f a c) l.
Proof. induction l as [|a l IH]; simpl; [done|]. by rewrite IH. Qed.

Lemma map_replicate {A B} (f : A → B) (n : nat) (a : A) :
  map f (replicate n a) = replicate n (f a).
Proof. induction n as [|n IH]; simpl; [done|]. by rewrite IH. Qed.

Lemma map_const_seq {A} (c : A) (s n : nat) : map (λ _, c) (seq s n) = replicate n c.
Proof. revert s. induction n as [|n IH]; intros s; simpl; [done|]. by rewrite IH. Qed.

Lemma Qc_of_Z_succ (N : nat) :
  Qc_of_Z (Z.of_nat (S N)) = (Qc_of_Z (Z.of_nat N) + Q2Qc 1)%Qc.
Proof.
  apply Qc_is_canon. unfold Qc_of_Z. simpl. rewrite !Qred_correct.
  rewrite Nat2Z.inj_succ. unfold Z.succ. rewrite inject_Z_plus. reflexivity.
Qed.

Lemma fold_add_replicate (N : nat) (a acc : Qc) :
  fold_left nadd (replicate N a) acc = (acc + Qc_of_Z (Z.of_nat N) * a)%Qc.
Proof.
  revert acc. induction N as [|N IH]; intros acc.
  - simpl. change (Z.of_nat 0) with 0%Z. qc_ops. ring.
  - change (replicate (S N) a) with (a :: replicate N a). simpl fold_left.
    rewrite IH, Qc_of_Z_succ. qc_ops. ring.
Qed.

Lemma Qc_of_nat_nonzero (N : nat) : 1 ≤ N → Qc_of_Z (Z.of_nat N) ≠ Q2Qc 0.
Proof.
  intros HN Hz. assert (Qc_of_Z 0 < Qc_of_Z (Z.of_nat N))%Qc as Hlt
    by (apply Qc_of_Z_lt; lia).
  change (Qc_of_Z 0) with (Q2Qc 0) in Hlt. rewrite Hz in Hlt.
  by apply (Qcle_not_lt _ _ (Qcle_refl (Q2Qc 0))) in Hlt.
Qed.

(** The population mean of [N] copies of a vector is the vector. *)
Lemma population_mean_replicate (n N : nat) (v : vector Qc) :
  1 ≤ N → length v = n → population_mean n (replicate N v) = v.
Proof.
  intros HN Hv. unfold population_mean. rewrite length_replicate.
  transitivity (map (λ j, nth j v nzero) (seq 0 n));
    [|rewrite <- Hv; apply map_nth_seq].
  apply map_ext. intros i. rewrite map_replicate.
  unfold vsum. rewrite fold_add_replicate. qc_ops.
  field. by apply Qc_of_nat_nonzero.
Qed.

(** Their population covariance is zero. *)
Lemma population_covariance_replicate (n N : nat) (v : vector Qc) :
  1 ≤ N → length v = n → population_covariance n (replicate N v) = zeros n n.
Proof.
  intros HN Hv. unfold population_covariance.
  rewrite (population_mean_replicate n N v HN Hv).
  unfold zeros. rewrite <- (map_const_seq (replicate n nzero) 0 n).
  apply map_ext. intros i. rewrite <- (map_const_seq nzero 0 n).
  apply map_ext. intros j. rewrite map_replicate, length_replicate.
  unfold vsum. rewrite fold_add_replicate. qc_ops.
  field. by apply Qc_of_nat_nonzero.
Qed.

Lemma zip_zero_row (d : vector Qc) :
  zip_with nmul (replicate (length d) nzero) d = replicate (length d) nzero.
Proof.
  induction d as [|a d IH]; [done|]. cbn [length replicate zip_with].
  rewrite IH. f_equal. qc_ops. ring.
Qed.

Lemma physical_covariance_zeros (outline : vector Qc) (ngaus ndim : nat) :
  physical_covariance outline ngaus ndim (zeros (ndim * ngaus) (ndim * ngaus))
  = zeros (ndim * ngaus) (ndim * ngaus).
Proof.
  unfold physical_covariance, zeros. rewrite map_replicate. f_equal.
  assert (length (zip_with nmul (spans outline ngaus ndim) (spans outline ngaus ndim))
          = ndim * ngaus) as Hd.
  { unfold spans. rewrite length_zip_with, !length_blocks. lia. }
  remember (zip_with nmul (spans outline ngaus ndim) (spans outline ngaus ndim)) as d.
  rewrite <- Hd. apply zip_zero_row.
Qed.

(** Resampling at its own samples a curve given at the control points. *)
Lemma resampled_at_control_points (ngaus ndim : nat) (xp : vector Qc) (Y : matrix Qc) :
  StronglySorted Qclt xp → length xp = length Y →
  resampled ndim xp (xp, Y) = flat_map (λ d, col d Y) (seq 0 ndim).
Proof.
  intros Hs Hl. unfold resampled. simpl. apply flat_map_ext. intros d.
  apply interp_at_samples; [done|]. unfold col. by rewrite length_map.
Qed.

Lemma flat_map_ext_In {A B} (f g : A → list B) (l : list A) :
  (∀ a, In a l → f a = g a) → flat_map f l = flat_map g l.
Proof.
  induction l as [|a l IH]; intros Hfg; simpl; [done|].
  rewrite (Hfg a) by (by left). rewrite IH; [done|]. intros b Hb. apply Hfg. by right.
Qed.

Lemma physical_mean_curve (outline : vector Qc) (ngaus ndim : nat) (Y : matrix Qc) :
  length Y = ngaus → Forall (λ r, length r = ndim) Y →
  physical_mean outline ngaus ndim (flat_map (λ d, col d Y) (seq 0 ndim))
  = flat_map (λ d, col d (to_physical outline Y)) (seq 0 ndim).
Proof.
  intros HY Hrows. unfold physical_mean, spans, offsets.
  rewrite zip_with_flat_map.
  2:{ intros d. unfold col. by rewrite length_map, length_replicate. }
  rewrite zip_with_flat_map.
  2:{ intros d. unfold col. rewrite length_zip_with, length_map, !length_replicate. lia. }
  apply flat_map_ext_In. intros d Hd. apply in_seq in Hd.
  rewrite <- HY.
  replace (length Y) with (length (col d Y)) at 1 by (unfold col; by rewrite length_map).
  rewrite zip_with_replicate_r.
  replace (length Y) with (length (map (λ a, nmul a (nsub (nth (d * 2 + 1) outline nzero)
                                      (nth (d * 2) outline nzero))) (col d Y)))
    by (unfold col; by rewrite !length_map).
  rewrite zip_with_replicate_r.
  unfold col, to_physical. rewrite !map_map. apply map_ext_in. intros r Hr.
  rewrite Forall_forall in Hrows. apply list_elem_of_In, Hrows in Hr.
  destruct (lookup_lt_is_Some_2 r d ltac:(lia)) as [a Ha].
  rewrite (nth_lookup_Some _ _ _ _ Ha).
  symmetry. apply nth_lookup_Some. by rewrite list_lookup_imap, Ha.
Qed.

Lemma reshape_F_columns (ndim : nat) (Y : matrix Qc) :
  Y ≠ [] → Forall (λ r, length r = ndim) Y →
  reshape_F Y = colvec (flat_map (λ d, col d Y) (seq 0 ndim)).
Proof.
  intros HY Hrows. unfold reshape_F, transpose. rewrite concat_map_flat_map.
  do 3 f_equal. unfold ncols. destruct Y as [|r Y]; [done|]. simpl.
  by inversion Hrows.
Qed.

Lemma length_to_physical (outline : vector Qc) (Y : matrix Qc) :
  length (to_physical outline Y) = length Y.
Proof. apply length_map. Qed.

Lemma rows_to_physical (outline : vector Qc) (ndim : nat) (Y : matrix Qc) :
  Forall (λ r, length r = ndim) Y → Forall (λ r, length r = ndim) (to_physical outline Y).
Proof.
  intros Hrows. apply Forall_forall. intros r Hr. unfold to_physical in Hr.
  apply list_elem_of_In, in_map_iff in Hr as (r' & <- & Hr').
  rewrite length_imap. rewrite Forall_forall in Hrows. by apply Hrows, list_elem_of_In.
Qed.

(** A joint Gaussian with the given means and no covariance holds the
    cells with those means and zero covariances. *)
Lemma flattened_zero_covariance (ndim : nat) (Yp : matrix Qc) :
  Forall (λ r, length r = ndim) Yp →
  flattened (length Yp) (map (λ r, (r, zeros ndim ndim)) Yp)
    (colvec (flat_map (λ d, col d Yp) (seq 0 ndim)))
    (zeros (ndim * length Yp) (ndim * length Yp)).
Proof.
  intros Hrows m c A Hm. rewrite lookup_map in Hm.
  destruct (Yp !! m) as [r|] eqn:Hr; [|done]. simpl in Hm. injection Hm as <- <-.
  assert (m < length Yp) as Hmn by (by eapply lookup_lt_Some).
  assert (length r = ndim) as Hlr.
  { rewrite Forall_forall in Hrows. apply Hrows. by eapply list_elem_of_lookup_2. }
  split.
  - intros d a Hd. exists [a]. split; [|done].
    assert (d < ndim) by (rewrite <- Hlr; by eapply lookup_lt_Some).
    unfold colvec. rewrite lookup_map.
    rewrite (lookup_flat_map_blocks _ (length Yp)); [|by intros; unfold col; rewrite length_map|done..].
    unfold col. rewrite lookup_map, Hr. simpl. do 2 f_equal. by apply nth_lookup_Some.
  - intros d1 d2 row a Hrow Ha. unfold zeros in Hrow.
    apply lookup_replicate in Hrow as [-> Hd1].
    apply lookup_replicate in Ha as [-> Hd2].
    exists (replicate (ndim * length Yp) nzero). unfold zeros. split.
    + apply lookup_replicate_2. nia.
    + apply lookup_replicate_2. nia.
Qed.

(** Every trajectory the same curve, sampled at the control points. *)
Lemma model_by_resampling_identical (self : @GaussianProcess.t Qc) (ngaus N : nat)
    (xp : vector Qc) (Y B : matrix Qc) :
  GaussianProcess._ngaus self = Z.of_nat ngaus →
  2 ≤ ngaus → 1 ≤ GaussianProcess._ndim self → 1 ≤ N →
  linspace01 (Z.of_nat ngaus) = Ok xp →
  GaussianProcess._cluster_data self = replicate N (xp, Y) →
  length Y = ngaus → Forall (λ r, length r = GaussianProcess._ndim self) Y →
  length (GaussianProcess._outline self) = 2 * GaussianProcess._ndim self →
  nearest_spd (zeros (GaussianProcess._ndim self) (GaussianProcess._ndim self)) = Ok B →
  let n := GaussianProcess._ndim self * ngaus in
  let Yp := to_physical (GaussianProcess._outline self) Y in
  GaussianProcess.model_by_resampling self
  = Ok (reshape_F Yp, zeros n n, map colvec Yp, replicate ngaus B).
Proof.
  intros Hg Hn Hd HN Hxp Hdata HY Hrows Ho HB n Yp.
  set (ndim := GaussianProcess._ndim self) in *.
  set (outline := GaussianProcess._outline self) in *.
  destruct (linspace01_Ok ngaus) as (xp' & Hxp' & Hlen).
  rewrite Hxp in Hxp'. injection Hxp' as <-.
  assert (Hs : StronglySorted Qclt xp) by (by eapply linspace_sorted).
  rewrite (model_by_resampling_joint self ngaus xp); try done; try lia.
  2:{ rewrite Hdata. apply Forall_forall. intros tr Htr.
      apply elem_of_replicate in Htr as [-> _]. simpl. repeat split; [|lia|done].
      intros ->. simpl in Hlen. lia. }
  fold ndim outline. rewrite Hdata, map_replicate.
  rewrite (resampled_at_control_points ngaus ndim xp Y Hs) by lia.
  set (v := flat_map (λ d, col d Y) (seq 0 ndim)).
  assert (Hv : length v = ndim * ngaus).
  { unfold v. rewrite <- HY. clear. generalize 0. induction ndim as [|k IH]; intros s; simpl; [done|].
    unfold col at 1. by rewrite length_app, length_map, IH. }
  rewrite (population_mean_replicate _ N v HN Hv).
  rewrite (population_covariance_replicate _ N v HN Hv).
  rewrite physical_covariance_zeros. unfold v.
  rewrite (physical_mean_curve outline ngaus ndim Y HY Hrows). fold Yp.
  assert (HYp : length Yp = ngaus) by (unfold Yp; by rewrite length_to_physical).
  assert (HrowsYp : Forall (λ r, length r = ndim) Yp) by (by apply rows_to_physical).
  pose proof (getGMMCells_flattened_repair ndim (map (λ r, (r, zeros ndim ndim)) Yp)
                (replicate ngaus B)
                (colvec (flat_map (λ d, col d Yp) (seq 0 ndim)))
                (zeros (ndim * ngaus) (ndim * ngaus))) as Hcells.
  rewrite length_map, HYp in Hcells. rewrite Hcells.
  - rewrite bind_Ok. rewrite map_map. simpl.
    rewrite (reshape_F_columns ndim Yp); [done| |done].
    intros Hz. rewrite Hz in HYp. simpl in HYp. lia.
  - apply Forall_forall. intros cell Hc.
    apply list_elem_of_In, in_map_iff in Hc as (r & <- & Hr). simpl.
    rewrite Forall_forall in HrowsYp. split; [by apply HrowsYp, list_elem_of_In|].
    unfold zeros. rewrite length_replicate. split; [done|].
    unfold is_square. apply forallb_forall. intros r' Hr'.
    apply list_elem_of_In, elem_of_replicate in Hr' as [-> _].
    rewrite !length_replicate. apply Nat.eqb_refl.
  - rewrite <- HYp. clear -HB. induction Yp as [|r Yp IH]; simpl; constructor; [done|apply IH].
  - rewrite <- HYp. by apply flattened_zero_covariance.
Qed.
End Identical.

Section Chord.
Local Open Scope Qc_scope.
Lemma interp1_between (xs ys : vector Qc) (k : nat) (x a b fa fb : Qc) :
  StronglySorted Qclt xs →
  xs !! k = Some a → xs !! S k = Some b →
  ys !! k = Some fa → ys !! S k = Some fb →
  a ≤ x → x < b →
  interp1 x xs ys = (fb - fa) / (b - a) * (x - a) + fa.
Proof.
  intros Hs Ha Hb Hfa Hfb Hax Hxb.
  destruct xs as [|x0 xs]; [done|]. destruct ys as [|y0 ys]; [done|].
  simpl. destruct (bool_decide (x ≤ x0)) eqn:Hx0.
  - apply bool_decide_eq_true in Hx0.
    assert (x0 ≤ a) as Hle.
    { destruct k as [|k]; simpl in Ha; simplify_eq; [apply Qcle_refl|].
      apply Qclt_le_weak. apply StronglySorted_inv in Hs as [_ Hall].
      rewrite Forall_forall in Hall. apply Hall. by eapply list_elem_of_lookup_2. }
    assert (x = x0) as -> by (apply Qcle_antisym; [done | by eapply Qcle_trans]).
    assert (a = x0) as -> by (by apply Qcle_antisym).
    destruct k as [|k].
    + simpl in Hfa. simplify_eq. unfold Qcdiv. ring.
    + exfalso. simpl in Ha. apply StronglySorted_inv in Hs as [_ Hall].
      rewrite Forall_forall in Hall.
      apply (Qcle_not_lt _ _ (Qcle_refl x0)). apply Hall.
      by eapply list_elem_of_lookup_2.
  - by eapply interp_from_between.
Qed.
End Chord.

Example identical_example :
  (fst <$> (fst <$> GaussianProcess.model_by_resampling identical_process))
  = Ok ([[Qc_of_Z 0]; [Qc_of_Z 5]; [Qc_of_Z 10]; [Qc_of_Z 0]; [Qc_of_Z 2]; [Qc_of_Z 0]],
        zeros 6 6).
Proof. compute_done. Qed.

(** *** The mean in physical units *)

Section PhysicalUnits.

Lemma fold_add_affine (l : list Qc) (s o acc k : Qc) :
  fold_left nadd (map (λ a, a * s + o)%Qc l) (acc * s + k * o)%Qc
  = (fold_left nadd l acc * s + (k + Qc_of_Z (Z.of_nat (length l))) * o)%Qc.
Proof.
  revert acc k. induction l as [|a l IH]; intros acc k.
  - simpl. change (Z.of_nat 0) with 0%Z. qc_ops. ring.
  - cbn [map fold_left length].
    replace (nadd (acc * s + k * o)%Qc (a * s + o)%Qc)
      with ((acc + a) * s + (k + Q2Qc 1) * o)%Qc by (qc_ops; ring).
    rewrite IH, Qc_of_Z_succ. qc_ops. ring.
Qed.

Lemma nth_affine (v s o : vector Qc) (i : nat) :
  i < length v → length s = length v → length o = length v →
  nth i (zip_with nadd (zip_with nmul v s) o) nzero
  = (nth i v nzero * nth i s nzero + nth i o nzero)%Qc.
Proof.
  intros Hi Hs Ho.
  destruct (lookup_lt_is_Some_2 v i Hi) as [a Ha].
  destruct (lookup_lt_is_Some_2 s i ltac:(lia)) as [b Hb].
  destruct (lookup_lt_is_Some_2 o i ltac:(lia)) as [c Hc].
  rewrite (nth_lookup_Some _ _ _ _ Ha), (nth_lookup_Some _ _ _ _ Hb),
    (nth_lookup_Some _ _ _ _ Hc).
  apply nth_lookup_Some. by rewrite !lookup_zip_with, Ha, Hb, Hc.
Qed.

(** Scaling and shifting every vector scales and shifts their mean. *)
Lemma population_mean_affine (n : nat) (vs : list (vector Qc)) (s o : vector Qc) :
  vs ≠ [] → Forall (λ v, length v = n) vs → length s = n → length o = n →
  population_mean n (map (λ v, zip_with nadd (zip_with nmul v s) o) vs)
  = zip_with nadd (zip_with nmul (population_mean n vs) s) o.
Proof.
  intros Hne Hvs Hs Ho.
  assert (Hm : length (population_mean n vs) = n) by apply length_population_mean.
  apply (nth_ext _ _ nzero nzero).
  { rewrite !length_zip_with, !length_population_mean. lia. }
  intros i Hi. rewrite length_population_mean in Hi.
  rewrite nth_affine by lia.
  unfold population_mean.
  rewrite !(nth_map_in _ _ _ 0%nat) by (rewrite length_seq; lia).
  rewrite seq_nth by lia. cbn [Nat.add].
  rewrite length_map, map_map.
  rewrite (map_ext_in _ (λ v, nth i v nzero * nth i s nzero + nth i o nzero)%Qc).
  2:{ intros v Hv. rewrite Forall_forall in Hvs.
      apply nth_affine; rewrite (Hvs v) by (by apply list_elem_of_In); lia. }
  rewrite <- (map_map (λ v, nth i v nzero) (λ a, a * nth i s nzero + nth i o nzero)%Qc).
  unfold vsum.
  replace (nzero : Qc) with (nzero * nth i s nzero + nzero * nth i o nzero)%Qc at 1
    by (qc_ops; ring).
  rewrite fold_add_affine, length_map.
  assert (Qc_of_Z (Z.of_nat (length vs)) ≠ Q2Qc 0) as HN.
  { apply Qc_of_nat_nonzero. destruct vs; [done|simpl; lia]. }
  qc_ops. field. exact HN.
Qed.
End PhysicalUnits.

(** *** The moments of the resampled ensemble *)

Section ResamplingMoments.
Context `{!Helpers Qc}.

(** The layout of a resampled trajectory: the entry of dimension [d] at
    the position [xp[i]] is the interpolation of that dimension against
    the trajectory's own [x]. *)
Lemma lookup_resampled (ndim : nat) (xp : vector Qc) (tr : trajectory Qc)
    (d i : nat) (x : Qc) :
  d < ndim → xp !! i = Some x →
  resampled ndim xp tr !! (i + d * length xp) = Some (interp1 x tr.1 (col d tr.2)).
Proof.
  intros Hd Hx. unfold resampled.
  rewrite (lookup_flat_map_blocks _ (length xp));
    [|by intros; rewrite length_map|done|by eapply lookup_lt_Some].
  by rewrite lookup_map, Hx.
Qed.

Lemma lookup_linspace01 (ngaus : nat) (xp : vector Qc) (i : nat) :
  2 ≤ ngaus → linspace01 (Z.of_nat ngaus) = Ok xp → i < ngaus →
  xp !! i = Some (Qc_of_Z (Z.of_nat i) / Qc_of_Z (Z.of_nat ngaus - 1))%Qc.
Proof.
  intros Hn Hxp Hi. unfold linspace01 in Hxp.
  replace (Z.of_nat ngaus <? 0)%Z with false in Hxp by (symmetry; apply Z.ltb_ge; lia).
  replace (Z.of_nat ngaus =? 1)%Z with false in Hxp by (symmetry; apply Z.eqb_neq; lia).
  injection Hxp as <-. rewrite lookup_map, Nat2Z.id.
  rewrite lookup_seq_lt by done. done.
Qed.

(** What the resampling estimator computes for an ensemble that is not
    empty, in exact arithmetic (no rounding): it reads every trajectory
    at [ngaus] evenly spaced positions of [[0, 1]], each dimension
    interpolated against the trajectory's own [x]; it hands the
    population mean and the population covariance of these flat vectors
    to [_norm2real], which returns [mu * D + M] for the mean and, for the
    covariance, column [j] times the squared span of its dimension.  The
    mean returned is the population mean of the flat vectors in physical
    units; the covariance returned is their population covariance only
    when every span is one.  [nearest_spd] is assumed to return. *)
Lemma model_by_resampling_exact_moments
    (self : @GaussianProcess.t Qc) (ngaus : nat) :
  GaussianProcess._cluster_data self ≠ [] →
  GaussianProcess._ngaus self = Z.of_nat ngaus →
  1 ≤ ngaus → 1 ≤ GaussianProcess._ndim self →
  Forall (λ tr, tr.1 ≠ [] ∧ length tr.1 = length tr.2
                ∧ Forall (λ r, length r = GaussianProcess._ndim self) tr.2)
         (GaussianProcess._cluster_data self) →
  length (GaussianProcess._outline self) = 2 * GaussianProcess._ndim self →
  (∀ A, ∃ B, nearest_spd A = Ok B) →
  let ndim := GaussianProcess._ndim self in
  let outline := GaussianProcess._outline self in
  let ensemble := GaussianProcess._cluster_data self in
  ∃ xp mu sig cc cA,
    GaussianProcess.model_by_resampling self = Ok (mu, sig, cc, cA)
    ∧ linspace01 (Z.of_nat ngaus) = Ok xp
    ∧ length xp = ngaus
    ∧ (2 ≤ ngaus → ∀ i, i < ngaus →
       xp !! i = Some (Qc_of_Z (Z.of_nat i) / Qc_of_Z (Z.of_nat ngaus - 1))%Qc)
    ∧ (∀ tr d i x, d < ndim → xp !! i = Some x →
       resampled ndim xp tr !! (i + d * ngaus)
       = Some (interp1 x tr.1 (col d tr.2)))
    ∧ GaussianProcess._norm2real self
        (colvec (population_mean (ndim * ngaus) (map (resampled ndim xp) ensemble)))
        (population_covariance (ndim * ngaus) (map (resampled ndim xp) ensemble))
      = Ok (mu, sig)
    ∧ mu = colvec (physical_mean outline ngaus ndim
                     (population_mean (ndim * ngaus)
                        (map (resampled ndim xp) ensemble)))
    ∧ sig = physical_covariance outline ngaus ndim
              (population_covariance (ndim * ngaus)
                 (map (resampled ndim xp) ensemble))
    ∧ mu = colvec (population_mean (ndim * ngaus)
                     (map (physical_mean outline ngaus ndim)
                        (map (resampled ndim xp) ensemble)))
    ∧ (∀ N Y, 2 ≤ ngaus → 1 ≤ N → ensemble = replicate N (xp, Y) →
       mu = reshape_F (to_physical outline Y)
       ∧ sig = zeros (ndim * ngaus) (ndim * ngaus)).
Proof.
  intros Hne Hg Hn Hd Hwf Ho Hspd ndim outline ensemble.
  destruct (model_by_resampling_moments self ngaus Hg Hn Hd Hwf Ho Hspd)
    as (xp & cc & cA & Hxp & Hlen & Hrun & _).
  cbv zeta in Hrun. fold ndim outline ensemble in Hrun.
  eexists xp, _, _, cc, cA. split; [exact Hrun|].
  split; [done|]. split; [done|].
  split; [intros H2 i Hi; by apply lookup_linspace01|].
  split; [intros tr d i x Hdd Hx; rewrite <- Hlen; by apply lookup_resampled|].
  split.
  { apply (norm2real_Ok self ngaus); try done.
    apply Forall_forall. intros r Hr. unfold population_covariance in Hr.
    apply list_elem_of_In, in_map_iff in Hr as (i & <- & _).
    by rewrite length_map, length_seq. }
  split; [done|]. split; [done|].
  split.
  { f_equal. unfold physical_mean. symmetry.
    apply population_mean_affine.
    - intros Hz. apply map_eq_nil in Hz. exact (Hne Hz).
    - apply Forall_forall. intros v Hv.
      apply list_elem_of_In, in_map_iff in Hv as (tr & <- & _).
      by rewrite length_resampled, Hlen.
    - unfold spans. apply length_blocks.
    - unfold offsets. apply length_blocks. }
  intros N Y H2 HN Hdata.
  assert ((xp, Y) ∈ ensemble) as Hin.
  { rewrite Hdata. destruct N; [lia|]. simpl. left. }
  rewrite Forall_forall in Hwf. destruct (Hwf _ Hin) as (_ & HlY & Hrows).
  simpl in HlY, Hrows.
  destruct (Hspd (zeros ndim ndim)) as [B HB].
  pose proof (model_by_resampling_identical self ngaus N xp Y B Hg H2 Hd HN Hxp
                Hdata ltac:(lia) Hrows Ho HB) as Hid.
  cbv zeta in Hid. fold ndim outline in Hid.
  rewrite Hrun in Hid. by simplify_eq.
Qed.
End ResamplingMoments.

(** The three copies of one curve of [identical_process]: the mean
    returned is the curve in physical units and the covariance is zero
    (three equal values sum and divide without rounding error in exact
    arithmetic only). *)
Example model_by_resampling_exact_moments_example :
  ∃ sig cc cA,
    GaussianProcess.model_by_resampling identical_process
    = Ok (reshape_F (to_physical (GaussianProcess._outline identical_process)
                       [[Qc_of_Z 0; Qc_of_Z 0]; [Q2Qc (1 # 2); Qc_of_Z 1];
                        [Qc_of_Z 1; Qc_of_Z 0]]),
          sig, cc, cA)
    ∧ sig = zeros 6 6.
Proof.
  destruct (model_by_resampling_exact_moments identical_process 3)
    as (xp & mu & sig & cc & cA & Hrun & Hxp & _ & _ & _ & _ & _ & _ & _ & Hid).
  - discriminate.
  - reflexivity.
  - lia.
  - simpl. lia.
  - repeat constructor; done.
  - reflexivity.
  - intros A. simpl. unfold nearest_spd_model. destruct (is_spd A); eauto.
  - injection Hxp as <-.
    destruct (Hid 3 [[Qc_of_Z 0; Qc_of_Z 0]; [Q2Qc (1 # 2); Qc_of_Z 1];
                     [Qc_of_Z 1; Qc_of_Z 0]]) as [Hmu Hsig]; [lia|lia|compute_done|].
    exists sig, cc, cA. rewrite Hrun, Hmu. split; [reflexivity|exact Hsig].
Qed.

(** *** C9: the covariance returned *)

(** C9 fails in the code.  The estimator resamples as the claim says and
    returns the population mean, but the covariance it returns is not the
    population covariance of the resampled vectors: [_norm2real] scales
    column [j] by the squared span of its dimension and leaves the rows
    alone (the defect of C2).  For the two straight trajectories of
    [sloped_ensemble] and three control points, the trajectories are read
    at [0], [1/2], [1] (the midpoints on the chords), the mean returned
    is the population mean in physical units, and the covariance returned
    has the six rows [1/4, 1/4, 1/4, 1, 1, 1], whereas the population
    covariance in physical units has [1/2] between the two dimensions
    (and in normalised units [1/16] everywhere): the entry [(0, 3)] is
    [1] instead of [1/2], the entry [(3, 0)] is [1/4] instead of [1/2].
    All values are dyadic, so that floating-point arithmetic is exact on
    this input. *)
Theorem model_by_resampling_covariance_diverges :
  GaussianProcess.__init__ sloped_ensemble 3 = Ok sloped_process
  ∧ linspace01 3 = Ok [xf 0; half; xf 1]
  ∧ map_r (GaussianProcess.resample 2 [xf 0; half; xf 1])
          (GaussianProcess._cluster_data sloped_process)
    = Ok (map colvec sloped_resampled)
  ∧ map (physical_mean (GaussianProcess._outline sloped_process) 3 2) sloped_resampled
    = sloped_resampled_physical
  ∧ (fst <$> (fst <$> GaussianProcess.model_by_resampling sloped_process))
    = Ok (colvec sloped_mu, sloped_sigma)
  ∧ population_mean 6 sloped_resampled_physical = sloped_mu
  ∧ population_covariance 6 sloped_resampled_physical = sloped_covariance
  ∧ population_covariance 6 sloped_resampled = replicate 6 (replicate 6 sixteenth)
  ∧ sloped_sigma ≠ sloped_covariance
  ∧ sloped_sigma ≠ replicate 6 (replicate 6 sixteenth)
  ∧ transpose sloped_sigma ≠ sloped_sigma
  ∧ sloped_sigma !! 0 ≫= (.!! 3) = Some (xf 1)
  ∧ sloped_covariance !! 0 ≫= (.!! 3) = Some half
  ∧ sloped_sigma !! 3 ≫= (.!! 0) = Some quarter
  ∧ sloped_covariance !! 3 ≫= (.!! 0) = Some half.
Proof. repeat split; compute_done. Qed.

(** ** C2: symmetry of the joint covariance *)

(** C2 fails in the code.  [_norm2real], through which the three
    estimators return, computes [sig_y @ diagflat(D ** 2)]: column [j] of
    the covariance is scaled by the square of the span of its dimension and
    the rows are left as they are (see [norm2real_Ok]).  A symmetric
    covariance that couples two dimensions of different spans comes back
    asymmetric.  For two constant trajectories one unit apart along the
    first axis and two units apart along the second, the covariance in
    normalised units is [1/4] everywhere and the resampling estimator
    returns rows [1/4, 1/4, 1, 1]: the entry [(0, 2)] is [1], the entry
    [(2, 0)] is [1/4]. *)
Theorem norm2real_breaks_symmetry :
  GaussianProcess.__init__ skewed_ensemble 2 = Ok skewed_process
  ∧ transpose skewed_sigma_norm = skewed_sigma_norm
  ∧ GaussianProcess._norm2real skewed_process (replicate 4 [half]) skewed_sigma_norm
    = Ok ([[half]; [half]; [xf 1]; [xf 1]], skewed_sigma)
  ∧ (fst <$> (fst <$> GaussianProcess.model_by_resampling skewed_process))
    = Ok ([[half]; [half]; [xf 1]; [xf 1]], skewed_sigma)
  ∧ transpose skewed_sigma ≠ skewed_sigma
  ∧ skewed_sigma !! 0 ≫= (.!! 2) = Some (xf 1)
  ∧ skewed_sigma !! 2 ≫= (.!! 0) = Some quarter.
Proof. repeat split; compute_done. Qed.

(** ** Queries, normalisation and the outline *)

(** ** Indices of an array *)

Lemma fold_r_app {A St} (f : St → A → result St) (l1 l2 : list A) (s : St) :
  fold_r f (l1 ++ l2) s = (s' ← fold_r f l1 s; fold_r f l2 s').
Proof.
  revert s. induction l1 as [|a l1 IH]; intros s; simpl; [reflexivity|].
  destruct (f s a) as [s'|e]; simpl; [apply IH | reflexivity].
Qed.

Lemma length_indices_cons (s : nat) (sh : list nat) :
  length (indices (s :: sh)) = s * length (indices sh).
Proof.
  simpl. generalize 0. induction s as [|s IH]; intros k; simpl; [reflexivity|].
  by rewrite length_app, length_map, IH.
Qed.

(** The [k]-th index of a shape, in row-major order, is at offset [k]. *)
Lemma offset_indices (sh : list nat) (k acc : nat) (idx : list nat) :
  indices sh !! k = Some idx →
  offset sh idx acc = Some (acc * length (indices sh) + k).
Proof.
  revert k acc idx. induction sh as [|s sh IH]; intros k acc idx Hk.
  - destruct k; simpl in Hk; [|done]. injection Hk as <-. simpl. f_equal. lia.
  - assert (k < length (indices (s :: sh))) as Hlt by (by eapply lookup_lt_Some).
    rewrite length_indices_cons in Hlt.
    set (L := length (indices sh)) in *.
    assert (0 < L) as HL by (destruct L; lia).
    assert (k = k mod L + (k / L) * L) as Hdm by (pose proof (Nat.div_mod_eq k L); lia).
    assert (k / L < s) as Hd by (apply Nat.Div0.div_lt_upper_bound; lia).
    assert (k mod L < L) as Hm by (apply Nat.mod_upper_bound; lia).
    simpl in Hk. rewrite Hdm in Hk.
    rewrite (lookup_flat_map_blocks _ L) in Hk; [|by intros; rewrite length_map|done..].
    rewrite lookup_map in Hk. simpl in Hk.
    destruct (indices sh !! (k mod L)) as [idx'|] eqn:Hidx; [|done].
    injection Hk as <-. cbn [offset].
    replace (k / L <? s) with true by (symmetry; apply Nat.ltb_lt; lia).
    rewrite (IH _ _ _ Hidx). f_equal. rewrite length_indices_cons. fold L. nia.
Qed.

Lemma length_index (sh : list nat) (idx : list nat) :
  idx ∈ indices sh → length idx = length sh.
Proof.
  revert idx. induction sh as [|s sh IH]; intros idx Hin; simpl in Hin.
  - apply list_elem_of_singleton in Hin as ->. reflexivity.
  - apply list_elem_of_In, in_flat_map in Hin as (i & _ & Hin).
    apply in_map_iff in Hin as (idx' & <- & Hin). simpl. f_equal.
    apply IH. by apply list_elem_of_In.
Qed.

(** Largest entry of a list of naturals. *)
Lemma max_app (l1 l2 : list nat) :
  foldr Nat.max 0 (l1 ++ l2) = Nat.max (foldr Nat.max 0 l1) (foldr Nat.max 0 l2).
Proof. induction l1 as [|a l1 IH]; simpl; [reflexivity|]. rewrite IH. lia. Qed.

Lemma max_replicate (n a : nat) : 0 < n → foldr Nat.max 0 (replicate n a) = a.
Proof.
  destruct n as [|n]; [lia|]. intros _. induction n as [|n IH]; [simpl; lia|].
  change (replicate (S (S n)) a) with (a :: replicate (S n) a).
  cbn [foldr]. rewrite IH. lia.
Qed.

Lemma column_indices_cons (s : nat) (sh : list nat) (k : nat) :
  map (λ r, nth (S k) r 0) (indices (s :: sh))
  = concat (replicate s (map (λ r, nth k r 0) (indices sh))).
Proof.
  change (indices (s :: sh))
    with (flat_map (λ i, map (cons i) (indices sh)) (seq 0 s)).
  generalize 0 at 2. induction s as [|s IH]; intros b; simpl; [reflexivity|].
  rewrite map_app, map_map, IH. reflexivity.
Qed.

Lemma max_concat_replicate (n : nat) (l : list nat) :
  0 < n → foldr Nat.max 0 (concat (replicate n l)) = foldr Nat.max 0 l.
Proof.
  destruct n as [|n]; [lia|]. intros _. induction n as [|n IH].
  - simpl. by rewrite app_nil_r.
  - change (replicate (S (S n)) l) with (l :: replicate (S n) l).
    cbn [concat]. rewrite max_app, IH. lia.
Qed.

Lemma map_constant {A B} (b : B) (l : list A) :
  map (λ _, b) l = replicate (length l) b.
Proof. induction l as [|a l IH]; simpl; [reflexivity|]. by rewrite IH. Qed.

Lemma max_first_index (s : nat) (sh : list nat) (b : nat) :
  0 < s → 0 < length (indices sh) →
  foldr Nat.max 0 (map (λ r, nth 0 r 0)
     (flat_map (λ i, map (cons i) (indices sh)) (seq b s))) = b + s - 1.
Proof.
  intros Hs HL. destruct s as [|s]; [lia|]. clear Hs. revert b.
  assert (Hblock : ∀ b, foldr Nat.max 0 (map (λ r, nth 0 r 0) (map (cons b) (indices sh))) = b).
  { intros b. rewrite map_map. simpl.
    rewrite map_constant. by apply max_replicate. }
  induction s as [|s IH]; intros b.
  - simpl. rewrite app_nil_r, Hblock. lia.
  - change (seq b (S (S s))) with (b :: seq (S b) (S s)).
    cbn [flat_map]. rewrite map_app, max_app, IH, Hblock. lia.
Qed.

(** The shape [_points2grid] reads off the indices of a shape without an
    empty axis is that shape. *)
Lemma shape_of_indices_indices (sh : list nat) :
  Forall (λ s, 0 < s) sh → Model.shape_of_indices (indices sh) = sh.
Proof.
  intros Hsh. unfold Model.shape_of_indices.
  assert (HL : ∀ sh, Forall (λ s, 0 < s) sh → 0 < length (indices sh)).
  { clear. induction sh as [|s sh IH]; intros H; [simpl; lia|].
    inversion H; subst. rewrite length_indices_cons. specialize (IH ltac:(done)). nia. }
  assert (Hhd : length (hd [] (indices sh)) = length sh).
  { specialize (HL sh Hsh). destruct (indices sh) as [|i0 l] eqn:E; [simpl in HL; lia|].
    simpl. apply length_index. rewrite E. left. }
  rewrite Hhd. clear Hhd.
  induction Hsh as [|s sh Hs Hsh IH]; [reflexivity|].
  change (seq 0 (length (s :: sh))) with (0 :: seq 1 (length sh)).
  rewrite <- (fmap_S_seq 0). cbn [map]. f_equal.
  - pose proof (max_first_index s sh 0 Hs (HL sh Hsh)) as Hm. simpl in Hm.
    simpl. rewrite Hm. lia.
  - rewrite <- list_fmap_compose.
    rewrite <- IH at 2. apply map_ext. intros k. simpl.
    change (flat_map (λ i, map (cons i) (indices sh)) (seq 0 s)) with (indices (s :: sh)).
    rewrite column_indices_cons, max_concat_replicate by done. reflexivity.
Qed.

Section Grid.
Context {T : Type} `{Num T}.

Lemma nd_get_vector (vals : list T) (k : nat) (v : T) :
  vals !! k = Some v → nd_get (NDArray [length vals] vals) [k] = Ok v.
Proof.
  intros Hk. unfold nd_get. cbn [shape data offset].
  replace (k <? length vals) with true
    by (symmetry; apply Nat.ltb_lt; by eapply lookup_lt_Some).
  cbn [offset]. by apply at_index_Some.
Qed.

Lemma nd_set_index (sh : list nat) (dat : list T) (k : nat) (idx : list nat) (v : T) :
  indices sh !! k = Some idx → length dat = length (indices sh) →
  nd_set (NDArray sh dat) idx v = Ok (NDArray sh (<[k := v]> dat)).
Proof.
  intros Hk Hlen. unfold nd_set. cbn [shape data].
  rewrite (offset_indices _ _ _ _ Hk). rewrite Nat.mul_0_l, Nat.add_0_l.
  replace (k <? length dat) with true; [reflexivity|].
  symmetry. apply Nat.ltb_lt. rewrite Hlen. by eapply lookup_lt_Some.
Qed.

(** The loop of [_points2grid] over the first [k] indices of a shape. *)
Lemma points2grid_prefix (self : @Model.t T) (sh : list nat) (vals : list T) (k : nat) :
  length sh = (if bool_decide (Model._ndim self = 2) then 2 else 3) →
  length vals = length (indices sh) →
  k ≤ length vals →
  fold_r (λ ss '(i, y_idx),
      if bool_decide (Model._ndim self = 2) then
        match y_idx with
        | [ix; iy] => v ← nd_get (NDArray [length vals] vals) [i]; nd_set ss [ix; iy] v
        | _ => Raise (ValueError "wrong number of values to unpack")
        end
      else
        match y_idx with
        | [ix; iy; iz] =>
            v ← nd_get (NDArray [length vals] vals) [i]; nd_set ss [ix; iy; iz] v
        | _ => Raise (ValueError "wrong number of values to unpack")
        end)
    (imap pair (take k (indices sh)))
    (NDArray sh (replicate (length (indices sh)) nzero))
  = Ok (NDArray sh (take k vals ++ replicate (length vals - k) nzero)).
Proof.
  intros Hdim Hlen. induction k as [|k IH]; intros Hk.
  - simpl. by rewrite Nat.sub_0_r, Hlen.
  - destruct (lookup_lt_is_Some_2 (indices sh) k ltac:(lia)) as [idx Hidx].
    destruct (lookup_lt_is_Some_2 vals k ltac:(lia)) as [v Hv].
    rewrite (take_S_r _ _ _ Hidx), imap_app, fold_r_app, IH, bind_Ok by lia.
    rewrite length_take_le by lia. cbn [imap fold_r]. rewrite Nat.add_0_r.
    assert (length idx = length sh) as Hli
      by (apply length_index; by eapply list_elem_of_lookup_2).
    assert (Hset : (v ← nd_get (NDArray [length vals] vals) [k];
                    nd_set (NDArray sh (take k vals ++ replicate (length vals - k) nzero))
                           idx v)
                   = Ok (NDArray sh (take (S k) vals ++ replicate (length vals - S k) nzero))).
    { rewrite (nd_get_vector _ _ _ Hv), bind_Ok.
      rewrite (nd_set_index sh _ k idx v Hidx).
      2:{ rewrite length_app, length_take_le, length_replicate by lia. lia. }
      do 2 f_equal. rewrite (take_S_r _ _ _ Hv).
      replace (length vals - k) with (S (length vals - S k)) by lia.
      cbn [replicate]. rewrite insert_app_r_alt by (rewrite length_take_le; lia).
      rewrite length_take_le, Nat.sub_diag by lia. cbn [insert list_insert].
      by rewrite <- app_assoc. }
    revert Hli. rewrite Hdim. clear Hidx.
    destruct (bool_decide (Model._ndim self = 2)); intros Hli.
    + destruct idx as [|ix [|iy [|]]]; simpl in Hli; try lia.
      by rewrite Hset.
    + destruct idx as [|ix [|iy [|iz [|]]]]; simpl in Hli; try lia.
      by rewrite Hset.
Qed.

(** One value per index of a grid, in row-major order, is laid out as
    that grid. *)
Lemma points2grid_indices (self : @Model.t T) (sh : list nat) (vals : list T) :
  Forall (λ s, 0 < s) sh →
  length sh = (if bool_decide (Model._ndim self = 2) then 2 else 3) →
  length vals = length (indices sh) →
  Model._points2grid self (NDArray [length vals] vals) (indices sh)
  = Ok (NDArray sh vals).
Proof.
  intros Hpos Hdim Hlen. unfold Model._points2grid.
  rewrite (shape_of_indices_indices sh Hpos). unfold nd_full.
  pose proof (points2grid_prefix self sh vals (length vals) Hdim Hlen (le_n _)) as Hp.
  replace (take (length vals) (indices sh)) with (indices sh) in Hp
    by (rewrite Hlen; symmetry; apply firstn_all).
  rewrite Hp. by rewrite firstn_all, Nat.sub_diag, app_nil_r.
Qed.
End Grid.

Section GridPoints.
Context {T : Type} `{Num T}.

Lemma map_flat_map {A B C} (f : B → C) (g : A → list B) (l : list A) :
  map f (flat_map g l) = flat_map (λ a, map f (g a)) l.
Proof. induction l as [|a l IH]; simpl; [reflexivity|]. by rewrite map_app, IH. Qed.

Lemma flat_map_ext_seq {B} (f g : nat → list B) (s n : nat) :
  (∀ i, s ≤ i < s + n → f i = g i) → flat_map f (seq s n) = flat_map g (seq s n).
Proof.
  revert s. induction n as [|n IH]; intros s Hfg; simpl; [reflexivity|].
  rewrite Hfg by lia. rewrite IH; [reflexivity|]. intros i Hi. apply Hfg. lia.
Qed.

Lemma indices_1d (n : nat) : indices [n] = map (λ i, [i]) (seq 0 n).
Proof.
  simpl. generalize 0. induction n as [|n IH]; intros s; simpl; [reflexivity|].
  by rewrite IH.
Qed.

Lemma indices_2d (nx ny : nat) :
  indices [nx; ny]
  = map (λ '(ix, iy), [ix; iy]) (flat_map (λ ix, map (pair ix) (seq 0 ny)) (seq 0 nx)).
Proof.
  change (indices [nx; ny])
    with (flat_map (λ i, map (cons i) (indices [ny])) (seq 0 nx)).
  rewrite indices_1d, map_flat_map. apply flat_map_ext_seq. intros ix _.
  by rewrite !map_map.
Qed.

Lemma indices_3d (nx ny nz : nat) :
  indices [nx; ny; nz]
  = map (λ '(ix, iy, iz), [ix; iy; iz])
      (flat_map (λ ix, flat_map (λ iy, map (pair (ix, iy)) (seq 0 nz)) (seq 0 ny))
                (seq 0 nx)).
Proof.
  change (indices [nx; ny; nz])
    with (flat_map (λ i, map (cons i) (indices [ny; nz])) (seq 0 nx)).
  rewrite indices_2d, !map_flat_map. apply flat_map_ext_seq. intros ix _.
  rewrite !map_flat_map. apply flat_map_ext_seq. intros iy _.
  by rewrite !map_map.
Qed.

Lemma length_indices_2d (nx ny : nat) : length (indices [nx; ny]) = nx * ny.
Proof. rewrite !length_indices_cons. simpl. lia. Qed.

Lemma length_indices_3d (nx ny nz : nat) : length (indices [nx; ny; nz]) = nx * ny * nz.
Proof. rewrite !length_indices_cons. simpl. lia. Qed.

(** [a[idx]] of a well-formed array, for an index of its shape. *)
Lemma nd_get_index {A} (a : ndarray A) (k : nat) (idx : list nat) :
  indices (shape a) !! k = Some idx → length (data a) = length (indices (shape a)) →
  nd_get a idx = at_index (data a) k.
Proof.
  intros Hk Hlen. unfold nd_get. rewrite (offset_indices _ _ _ _ Hk).
  by rewrite Nat.mul_0_l, Nat.add_0_l.
Qed.

Lemma nd_get_2d {A} (a : ndarray A) (nx ny ix iy : nat) :
  shape a = [nx; ny] → ix < nx → iy < ny →
  nd_get a [ix; iy] = at_index (data a) (ix * ny + iy).
Proof.
  intros Hs Hx Hy. unfold nd_get. rewrite Hs. cbn [offset].
  replace (ix <? nx) with true by (symmetry; by apply Nat.ltb_lt).
  replace (iy <? ny) with true by (symmetry; by apply Nat.ltb_lt).
  by rewrite Nat.mul_0_l, Nat.add_0_l.
Qed.

Lemma nd_get_3d {A} (a : ndarray A) (nx ny nz ix iy iz : nat) :
  shape a = [nx; ny; nz] → ix < nx → iy < ny → iz < nz →
  nd_get a [ix; iy; iz] = at_index (data a) ((ix * ny + iy) * nz + iz).
Proof.
  intros Hs Hx Hy Hz. unfold nd_get. rewrite Hs. cbn [offset].
  replace (ix <? nx) with true by (symmetry; by apply Nat.ltb_lt).
  replace (iy <? ny) with true by (symmetry; by apply Nat.ltb_lt).
  replace (iz <? nz) with true by (symmetry; by apply Nat.ltb_lt).
  by rewrite Nat.mul_0_l, Nat.add_0_l.
Qed.

Lemma at_index_nth {A} (l : list A) (i : nat) (d : A) :
  i < length l → at_index l i = Ok (nth i l d).
Proof.
  intros Hi. destruct (lookup_lt_is_Some_2 l i Hi) as [a Ha].
  rewrite (at_index_Some _ _ _ Ha). f_equal. symmetry. by apply nth_lookup_Some.
Qed.

Lemma grid2points_2d (self : @Model.t T) (xx yy : ndarray T) (zz : option (ndarray T))
    (nx ny : nat) :
  Model._ndim self = 2 →
  shape xx = [nx; ny] → shape yy = [nx; ny] →
  length (data xx) = nx * ny → length (data yy) = nx * ny →
  0 < nx → 0 < ny →
  Model._grid2points self xx yy zz
  = Ok (map (grid_point_2d xx yy ny) (indices [nx; ny]), indices [nx; ny]).
Proof.
  intros Hdim Hsx Hsy Hlx Hly Hnx Hny. unfold Model._grid2points.
  unfold np_size. rewrite Hsx, Hsy. cbn [at_index lookup list_lookup]. rewrite !bind_Ok.
  rewrite Hdim. rewrite (bool_decide_eq_false_2 (2 = 3)) by lia.
  rewrite bind_Ok, (bool_decide_eq_true_2 (2 = 2)) by done.
  rewrite (map_r_Ok _ (λ '(ix, iy), (grid_point_2d xx yy ny [ix; iy], [ix; iy]))).
  2:{ intros [ix iy] Hin. apply list_elem_of_In, in_flat_map in Hin as (i & Hi & Hin).
      apply in_map_iff in Hin as (j & [= <- <-] & Hj).
      apply in_seq in Hi, Hj.
      rewrite (nd_get_2d xx nx ny i 0 Hsx) by lia.
      rewrite (at_index_nth _ _ nzero) by nia. rewrite bind_Ok.
      rewrite (nd_get_2d yy nx ny 0 j Hsy) by lia.
      rewrite (at_index_nth _ _ nzero) by nia. rewrite bind_Ok.
      unfold grid_point_2d. simpl. by rewrite Nat.add_0_r. }
  rewrite bind_Ok.
  destruct (flat_map (λ ix, map (pair ix) (seq 0 ny)) (seq 0 nx)) as [|p pairs] eqn:E.
  { exfalso. apply (f_equal length) in E. simpl in E.
    destruct nx as [|nx]; [lia|]. destruct ny as [|ny]; [lia|]. simpl in E. lia. }
  rewrite <- E. clear E p pairs.
  destruct (map _ _) as [|q qs] eqn:E.
  { exfalso. apply (f_equal length) in E. rewrite length_map in E.
    destruct nx as [|nx]; [lia|]. destruct ny as [|ny]; [lia|]. simpl in E. lia. }
  rewrite <- E. clear E q qs.
  rewrite !map_map, indices_2d, map_map. f_equal. f_equal.
  - apply map_ext. by intros [ix iy].
  - apply map_ext. by intros [ix iy].
Qed.

Lemma grid2points_3d (self : @Model.t T) (xx yy zz : ndarray T) (nx ny nz : nat) :
  Model._ndim self = 3 →
  shape xx = [nx; ny; nz] → shape yy = [nx; ny; nz] → shape zz = [nx; ny; nz] →
  length (data xx) = nx * ny * nz → length (data yy) = nx * ny * nz →
  length (data zz) = nx * ny * nz →
  0 < nx → 0 < ny → 0 < nz →
  Model._grid2points self xx yy (Some zz)
  = Ok (map (grid_point_3d xx yy zz ny nz) (indices [nx; ny; nz]), indices [nx; ny; nz]).
Proof.
  intros Hdim Hsx Hsy Hsz Hlx Hly Hlz Hnx Hny Hnz. unfold Model._grid2points.
  unfold np_size. rewrite Hsx, Hsy, Hsz. cbn [at_index lookup list_lookup].
  rewrite !bind_Ok.
  rewrite Hdim. rewrite (bool_decide_eq_true_2 (3 = 3)) by done.
  cbn [at_index lookup list_lookup].
  rewrite bind_Ok, (bool_decide_eq_false_2 (3 = 2)) by lia.
  rewrite (map_r_Ok _ (λ '(ix, iy, iz),
             (grid_point_3d xx yy zz ny nz [ix; iy; iz], [ix; iy; iz]))).
  2:{ intros [[ix iy] iz] Hin.
      apply list_elem_of_In, in_flat_map in Hin as (i & Hi & Hin).
      apply in_flat_map in Hin as (j & Hj & Hin).
      apply in_map_iff in Hin as (k & [= <- <- <-] & Hk).
      apply in_seq in Hi, Hj, Hk.
      assert (i * ny * nz < nx * ny * nz) as Bx.
      { assert (S i * (ny * nz) ≤ nx * (ny * nz)) by (apply Nat.mul_le_mono_r; lia).
        assert (0 < ny * nz) by nia. lia. }
      assert (j * nz < nx * ny * nz) as By.
      { assert (S j * nz ≤ ny * nz) by (apply Nat.mul_le_mono_r; lia).
        assert (1 * (ny * nz) ≤ nx * (ny * nz)) by (apply Nat.mul_le_mono_r; lia).
        lia. }
      assert (k < nx * ny * nz) as Bz.
      { assert (1 * nz ≤ ny * nz) by (apply Nat.mul_le_mono_r; lia).
        assert (1 * (ny * nz) ≤ nx * (ny * nz)) by (apply Nat.mul_le_mono_r; lia).
        lia. }
      rewrite (nd_get_3d xx nx ny nz i 0 0 Hsx) by lia.
      replace ((i * ny + 0) * nz + 0) with (i * ny * nz) by lia.
      rewrite (at_index_nth _ _ nzero) by lia. rewrite bind_Ok.
      rewrite (nd_get_3d yy nx ny nz 0 j 0 Hsy) by lia.
      replace ((0 * ny + j) * nz + 0) with (j * nz) by lia.
      rewrite (at_index_nth _ _ nzero) by lia. rewrite bind_Ok.
      rewrite (nd_get_3d zz nx ny nz 0 0 k Hsz) by lia.
      replace ((0 * ny + 0) * nz + k) with k by lia.
      rewrite (at_index_nth _ _ nzero) by lia. rewrite bind_Ok.
      reflexivity. }
  rewrite bind_Ok.
  assert (Hlen : length (flat_map (λ ix, flat_map (λ iy, map (pair (ix, iy)) (seq 0 nz))
                                                   (seq 0 ny)) (seq 0 nx)) ≠ 0).
  { pose proof (length_indices_3d nx ny nz) as HL. rewrite indices_3d, length_map in HL.
    rewrite HL. nia. }
  destruct (map _ _) as [|q qs] eqn:E.
  { exfalso. apply (f_equal length) in E. rewrite length_map in E. simpl in E. lia. }
  rewrite <- E. clear E q qs.
  rewrite !map_map, indices_3d, map_map. f_equal. f_equal.
  - apply map_ext. by intros [[ix iy] iz].
  - apply map_ext. by intros [[ix iy] iz].
Qed.
End GridPoints.

Lemma map_r_inv {A B} (f : A → result B) (l : list A) (bs : list B) :
  map_r f l = Ok bs → Forall2 (λ a b, f a = Ok b) l bs.
Proof.
  revert bs. induction l as [|a l IH]; intros bs; simpl.
  - intros [= <-]. constructor.
  - intros Hb. apply bind_inv_Ok in Hb as (b & Hfa & Hb).
    apply bind_inv_Ok in Hb as (bs' & Hbs & [= <-]). constructor; auto.
Qed.

Lemma lookup_indices_2d (nx ny ix iy : nat) :
  ix < nx → iy < ny → indices [nx; ny] !! (ix * ny + iy) = Some [ix; iy].
Proof.
  intros Hx Hy. rewrite indices_2d, lookup_map, (Nat.add_comm (ix * ny)).
  rewrite (lookup_flat_map_blocks _ ny); [|by intros; rewrite length_map, length_seq|done..].
  rewrite lookup_map, lookup_seq_lt by done. reflexivity.
Qed.

Section GridQueries.
Context {T : Type} `{Float T} `{!QueryHelpers T}.

(** X1. The points of a grid in the plane and the grid of their values.
    For [nx x ny] arrays [xx] and [yy] without an empty axis,
    [_grid2points] returns one point per index [(ix, iy)], in row-major
    order, the point [(xx[ix, 0], yy[0, iy])] with the index beside it;
    [_points2grid] puts one value per point back at the index of its
    point: the values come back as an [nx x ny] array in the same
    order. *)
Theorem grid2points_points2grid_2d (self : @Model.t T) (xx yy : ndarray T)
    (zz : option (ndarray T)) (nx ny : nat) :
  Model._ndim self = 2 →
  shape xx = [nx; ny] → shape yy = [nx; ny] →
  length (data xx) = nx * ny → length (data yy) = nx * ny →
  0 < nx → 0 < ny →
  ∃ Y_pos Y_idx,
    Model._grid2points self xx yy zz = Ok (Y_pos, Y_idx)
    ∧ length Y_pos = nx * ny
    ∧ length Y_idx = nx * ny
    ∧ (∀ ix iy, ix < nx → iy < ny →
       ∃ x y, nd_get xx [ix; 0] = Ok x ∧ nd_get yy [0; iy] = Ok y
              ∧ Y_pos !! (ix * ny + iy) = Some [x; y]
              ∧ Y_idx !! (ix * ny + iy) = Some [ix; iy])
    ∧ (∀ vals : list T, length vals = nx * ny →
       Model._points2grid self (NDArray [length vals] vals) Y_idx
       = Ok (NDArray [nx; ny] vals)).
Proof.
  intros Hdim Hsx Hsy Hlx Hly Hnx Hny.
  exists (map (grid_point_2d xx yy ny) (indices [nx; ny])), (indices [nx; ny]).
  split; [by apply grid2points_2d|].
  split; [by rewrite length_map, length_indices_2d|].
  split; [by rewrite length_indices_2d|].
  split.
  - intros ix iy Hx Hy.
    exists (nth (ix * ny) (data xx) nzero), (nth iy (data yy) nzero).
    rewrite (nd_get_2d xx nx ny ix 0 Hsx), (nd_get_2d yy nx ny 0 iy Hsy) by lia.
    rewrite Nat.add_0_r, Nat.mul_0_l, Nat.add_0_l.
    rewrite !(at_index_nth _ _ nzero) by nia.
    split; [done|]. split; [done|].
    rewrite lookup_map, lookup_indices_2d by done. done.
  - intros vals Hvals. apply points2grid_indices.
    + repeat constructor; lia.
    + by rewrite Hdim.
    + by rewrite length_indices_2d.
Qed.

(** A grid that is not memoised: the log-density of every point, laid
    out as the grid, with the [NaN]s replaced. *)
Lemma evalLogLikelihood_fresh (self : @Model.t T) (xx yy : ndarray T)
    (zz : option (ndarray T)) (sh : list nat) (Y_pos : matrix T) (logp : vector T → T) :
  shape xx = shape yy →
  Model._list_logp self = [] →
  Model._grid2points self xx yy zz = Ok (Y_pos, indices sh) →
  Forall (λ s, 0 < s) sh →
  length sh = (if bool_decide (Model._ndim self = 2) then 2 else 3) →
  length Y_pos = length (indices sh) →
  length Y_pos ≠ 1 →
  (∀ y, gauss_logLc y (Model._ndim self) (Model._cc self) (Model._cA self)
        = Ok (logp y)) →
  let ss := Model.replace_nan (NDArray sh (map logp Y_pos)) in
  Model.evalLogLikelihood self xx yy zz
  = Ok (ss, Model.set_list_logp self [(ss, xx, yy, zz)]).
Proof.
  intros Hshape Hcache Hgrid Hpos Hdim Hlen Hone Hlogp ss.
  unfold Model.evalLogLikelihood.
  rewrite bool_decide_eq_true_2 by done. cbn [negb]. rewrite Hcache.
  cbn [fold_left app]. rewrite Hgrid, bind_Ok.
  unfold Model._eval_logp.
  rewrite (map_r_Ok _ logp) by (intros; apply Hlogp). rewrite bind_Ok.
  unfold squeeze. cbn [shape data].
  rewrite filter_cons_True by (by rewrite length_map).
  rewrite filter_nil, bind_Ok.
  rewrite (points2grid_indices self sh (map logp Y_pos)); try done.
  by rewrite length_map.
Qed.
End GridQueries.

Section GridDensity.
Context {T : Type} `{Float T} `{!QueryHelpers T}.

(** X2. The log-density on a grid in the plane.  For a model with nothing
    memoised and an [nx x ny] grid of at least two points,
    [evalLogLikelihood] returns the [nx x ny] array that holds at
    [(ix, iy)] the log-density of the point [(xx[ix, 0], yy[0, iy])], the
    [NaN]s replaced, and memoises it with the grid.  The density is
    assumed to answer at every point. *)
Theorem evalLogLikelihood_grid_2d (self : @Model.t T) (xx yy : ndarray T)
    (zz : option (ndarray T)) (nx ny : nat) (logp : vector T → T) :
  Model._ndim self = 2 →
  Model._list_logp self = [] →
  shape xx = [nx; ny] → shape yy = [nx; ny] →
  length (data xx) = nx * ny → length (data yy) = nx * ny →
  2 ≤ nx * ny →
  (∀ y, gauss_logLc y 2 (Model._cc self) (Model._cA self) = Ok (logp y)) →
  let ss := Model.replace_nan
              (NDArray [nx; ny]
                 (map (λ idx, logp (grid_point_2d xx yy ny idx)) (indices [nx; ny]))) in
  Model.evalLogLikelihood self xx yy zz
  = Ok (ss, Model.set_list_logp self [(ss, xx, yy, zz)]).
Proof.
  intros Hdim Hcache Hsx Hsy Hlx Hly Hn Hlogp ss.
  assert (0 < nx ∧ 0 < ny) as [Hnx Hny] by nia.
  unfold ss. rewrite <- (map_map (grid_point_2d xx yy ny) logp).
  apply evalLogLikelihood_fresh.
  - congruence.
  - done.
  - by apply grid2points_2d.
  - repeat constructor; lia.
  - by rewrite Hdim.
  - by rewrite length_map.
  - rewrite length_map, length_indices_2d. lia.
  - by rewrite Hdim.
Qed.

(** X3. The same in space: the array holds at [(ix, iy, iz)] the
    log-density of [(xx[ix, 0, 0], yy[0, iy, 0], zz[0, 0, iz])]. *)
Theorem evalLogLikelihood_grid_3d (self : @Model.t T) (xx yy zz : ndarray T)
    (nx ny nz : nat) (logp : vector T → T) :
  Model._ndim self = 3 →
  Model._list_logp self = [] →
  shape xx = [nx; ny; nz] → shape yy = [nx; ny; nz] → shape zz = [nx; ny; nz] →
  length (data xx) = nx * ny * nz → length (data yy) = nx * ny * nz →
  length (data zz) = nx * ny * nz →
  2 ≤ nx * ny * nz →
  (∀ y, gauss_logLc y 3 (Model._cc self) (Model._cA self) = Ok (logp y)) →
  let ss := Model.replace_nan
              (NDArray [nx; ny; nz]
                 (map (λ idx, logp (grid_point_3d xx yy zz ny nz idx))
                      (indices [nx; ny; nz]))) in
  Model.evalLogLikelihood self xx yy (Some zz)
  = Ok (ss, Model.set_list_logp self [(ss, xx, yy, Some zz)]).
Proof.
  intros Hdim Hcache Hsx Hsy Hsz Hlx Hly Hlz Hn Hlogp ss.
  assert (0 < nx ∧ 0 < ny ∧ 0 < nz) as (Hnx & Hny & Hnz) by nia.
  unfold ss. rewrite <- (map_map (grid_point_3d xx yy zz ny nz) logp).
  apply evalLogLikelihood_fresh.
  - congruence.
  - done.
  - by apply grid2points_3d.
  - repeat constructor; lia.
  - by rewrite Hdim.
  - by rewrite length_map.
  - rewrite length_map, length_indices_3d. lia.
  - by rewrite Hdim.
Qed.

End GridDensity.

Lemma evalLogLikelihood_grid_2d_witness :
  let ss := Model.replace_nan
              (NDArray [2; 1]
                 (map (λ idx, stand_in_logp tube_two_cells (grid_point_2d far_xx far_yy 1 idx))
                      (indices [2; 1]))) in
  Model.evalLogLikelihood tube_two_cells far_xx far_yy None
  = Ok (ss, Model.set_list_logp tube_two_cells [(ss, far_xx, far_yy, None)]).
Proof.
  apply (evalLogLikelihood_grid_2d tube_two_cells far_xx far_yy None 2 1
           (stand_in_logp tube_two_cells)).
  - reflexivity.
  - reflexivity.
  - reflexivity.
  - reflexivity.
  - reflexivity.
  - reflexivity.
  - simpl. lia.
  - intros y. reflexivity.
Defined.


(** ** The memoised queries *)

Lemma broadcast_rev_refl (s : list nat) : broadcast_rev s s = Some s.
Proof.
  induction s as [|a s IH]; [reflexivity|].
  cbn [broadcast_rev]. rewrite IH. cbn. by rewrite Nat.eqb_refl.
Qed.

Lemma broadcast_shape_refl (s : list nat) : broadcast_shape s s = Some s.
Proof.
  unfold broadcast_shape. rewrite broadcast_rev_refl. cbn. by rewrite reverse_involutive.
Qed.

Lemma index_unit_axes (sh idx : list nat) :
  idx ∈ indices sh →
  zip_with (λ s i, if Nat.eqb s 1 then 0 else i) sh idx = idx.
Proof.
  revert idx. induction sh as [|s sh IH]; intros idx Hin.
  - simpl in Hin. apply list_elem_of_singleton in Hin as ->. reflexivity.
  - simpl in Hin. apply list_elem_of_In, in_flat_map in Hin as (i & Hi & Hin).
    apply in_map_iff in Hin as (idx' & <- & Hin). apply in_seq in Hi.
    cbn [zip_with]. rewrite IH by (by apply list_elem_of_In). f_equal.
    destruct (Nat.eqb_spec s 1); [lia|done].
Qed.

Section Memo.
Context {T : Type} `{Num T}.

(** An array of values that equal themselves is equal to itself. *)
Lemma np_all_eq_refl (a : ndarray T) :
  length (data a) = length (indices (shape a)) →
  Forall (λ x, neqb x x = true) (data a) →
  np_all_eq a a = true.
Proof.
  intros Hwf Heq. unfold np_all_eq. rewrite broadcast_shape_refl.
  apply forallb_forall. intros idx Hin. apply list_elem_of_In in Hin.
  unfold bc_get. rewrite (length_index _ _ Hin), Nat.sub_diag, drop_0.
  rewrite (index_unit_axes _ _ Hin).
  apply list_elem_of_lookup in Hin as [k Hk].
  rewrite (nd_get_index a k idx Hk Hwf).
  assert (k < length (data a)) as Hlt by (rewrite Hwf; by eapply lookup_lt_Some).
  destruct (lookup_lt_is_Some_2 _ _ Hlt) as [x Hx].
  rewrite (at_index_Some _ _ _ Hx).
  rewrite Forall_forall in Heq. apply Heq. by eapply list_elem_of_lookup_2.
Qed.

Lemma np_all_eq_opt_refl (a : option (ndarray T)) :
  (∀ z, a = Some z → length (data z) = length (indices (shape z))
                     ∧ Forall (λ x, neqb x x = true) (data z)) →
  np_all_eq_opt a a = true.
Proof.
  intros Hz. destruct a as [z|]; [|reflexivity].
  destruct (Hz z eq_refl). by apply np_all_eq_refl.
Qed.
End Memo.

Section MemoQueries.
Context {T : Type} `{Float T} `{!QueryHelpers T}.

(** X5. The memo of the log-density queries.  A call of
    [evalLogLikelihood] that returns leaves the Gaussian and the memoised
    tubes as they were, appends at most its own result to the memoised
    log-densities, and the same call on the model it leaves returns the
    same array and changes nothing.  The grids hold one entry per index
    and no [NaN]. *)
Theorem evalLogLikelihood_memoised (self self' : @Model.t T) (xx yy ss : ndarray T)
    (zz : option (ndarray T)) :
  Model.evalLogLikelihood self xx yy zz = Ok (ss, self') →
  length (data xx) = length (indices (shape xx)) →
  length (data yy) = length (indices (shape yy)) →
  Forall (λ x, neqb x x = true) (data xx) →
  Forall (λ x, neqb x x = true) (data yy) →
  (∀ z, zz = Some z → length (data z) = length (indices (shape z))
                      ∧ Forall (λ x, neqb x x = true) (data z)) →
  Model._ndim self' = Model._ndim self
  ∧ Model._mu_y self' = Model._mu_y self
  ∧ Model._sig_y self' = Model._sig_y self
  ∧ Model._cc self' = Model._cc self
  ∧ Model._cA self' = Model._cA self
  ∧ Model._list_tube self' = Model._list_tube self
  ∧ (Model._list_logp self' = Model._list_logp self
     ∨ Model._list_logp self' = Model._list_logp self ++ [(ss, xx, yy, zz)])
  ∧ Model.evalLogLikelihood self' xx yy zz = Ok (ss, self').
Proof.
  intros Hcall Hwx Hwy Hex Hey Hz. unfold Model.evalLogLikelihood in Hcall |- *.
  destruct (bool_decide (shape xx = shape yy)); [|done]. cbn [negb] in Hcall |- *.
  match type of Hcall with
  | context [fold_left ?f _ None] => set (step := f) in *
  end.
  destruct (fold_left step (Model._list_logp self) None) as [ss0|] eqn:Hhit.
  - injection Hcall as <- <-. rewrite Hhit. repeat split; auto.
  - apply bind_inv_Ok in Hcall as ([Y_pos Y_idx] & _ & Hcall).
    apply bind_inv_Ok in Hcall as (s & _ & Hcall).
    apply bind_inv_Ok in Hcall as (ss1 & _ & Hcall).
    injection Hcall as <- <-. cbn [Model.set_list_logp Model._ndim Model._mu_y Model._sig_y
      Model._cc Model._cA Model._list_tube Model._list_logp].
    repeat split; auto.
    unfold Model.logp_entry, Model.tube_entry in *.
    rewrite fold_left_app, Hhit. cbn [fold_left step].
    rewrite (np_all_eq_refl xx Hwx Hex), (np_all_eq_refl yy Hwy Hey),
      (np_all_eq_opt_refl zz Hz).
    reflexivity.
Qed.

(** X6. The memo of the tube queries: the same for [isInside_grid], the
    width being part of the memoised entry. *)
Theorem isInside_grid_memoised (self self' : @Model.t T) (sdwidth : T)
    (xx yy ss : ndarray T) (zz : option (ndarray T)) :
  Model.isInside_grid self sdwidth xx yy zz = Ok (ss, self') →
  length (data xx) = length (indices (shape xx)) →
  length (data yy) = length (indices (shape yy)) →
  Forall (λ x, neqb x x = true) (data xx) →
  Forall (λ x, neqb x x = true) (data yy) →
  (∀ z, zz = Some z → length (data z) = length (indices (shape z))
                      ∧ Forall (λ x, neqb x x = true) (data z)) →
  neqb sdwidth sdwidth = true →
  Model._ndim self' = Model._ndim self
  ∧ Model._mu_y self' = Model._mu_y self
  ∧ Model._sig_y self' = Model._sig_y self
  ∧ Model._cc self' = Model._cc self
  ∧ Model._cA self' = Model._cA self
  ∧ Model._list_logp self' = Model._list_logp self
  ∧ (Model._list_tube self' = Model._list_tube self
     ∨ Model._list_tube self' = Model._list_tube self ++ [(ss, sdwidth, xx, yy, zz)])
  ∧ Model.isInside_grid self' sdwidth xx yy zz = Ok (ss, self').
Proof.
  intros Hcall Hwx Hwy Hex Hey Hz Hsd. unfold Model.isInside_grid in Hcall |- *.
  destruct (bool_decide (shape xx = shape yy)); [|done]. cbn [negb] in Hcall |- *.
  match type of Hcall with
  | context [fold_left ?f _ None] => set (step := f) in *
  end.
  destruct (fold_left step (Model._list_tube self) None) as [ss0|] eqn:Hhit.
  - injection Hcall as <- <-. rewrite Hhit. repeat split; auto.
  - apply bind_inv_Ok in Hcall as ([Y_pos Y_idx] & _ & Hcall).
    apply bind_inv_Ok in Hcall as (s & _ & Hcall).
    apply bind_inv_Ok in Hcall as (ss1 & _ & Hcall).
    injection Hcall as <- <-. cbn [Model.set_list_tube Model._ndim Model._mu_y Model._sig_y
      Model._cc Model._cA Model._list_tube Model._list_logp].
    repeat split; auto.
    unfold Model.logp_entry, Model.tube_entry in *.
    rewrite fold_left_app, Hhit. cbn [fold_left step].
    rewrite (np_all_eq_refl xx Hwx Hex), (np_all_eq_refl yy Hwy Hey),
      (np_all_eq_opt_refl zz Hz), Hsd.
    reflexivity.
Qed.
End MemoQueries.

(** ** Tube membership of several points *)

Lemma lookup_concat_blocks {A} (rows : list (list A)) (n i j : nat) :
  Forall (λ r, length r = n) rows → i < n →
  concat rows !! (j * n + i) = rows !! j ≫= (.!! i).
Proof.
  intros Hrows Hi. revert j. induction Hrows as [|r rows Hr Hrows IH]; intros j.
  - simpl. by rewrite !lookup_nil.
  - destruct j as [|j]; simpl.
    + by rewrite lookup_app_l by lia.
    + rewrite lookup_app_r by lia. rewrite Hr.
      replace (n + j * n + i - n) with (j * n + i) by lia. apply IH.
Qed.

Lemma omap_map {A B} (f : A → option B) (g : A → B) (l : list A) :
  (∀ a, a ∈ l → f a = Some (g a)) → omap f l = map g l.
Proof.
  induction l as [|a l IH]; intros Hf; [reflexivity|].
  cbn [omap list_omap map]. rewrite Hf by left. f_equal. apply IH.
  intros b Hb. apply Hf. by right.
Qed.

Lemma existsb_ext_in {A} (p q : A → bool) (l : list A) :
  (∀ a, In a l → p a = q a) → existsb p l = existsb q l.
Proof.
  induction l as [|a l IH]; intros Hpq; simpl; [reflexivity|].
  rewrite Hpq by (by left). rewrite IH; [reflexivity|]. intros b Hb. apply Hpq. by right.
Qed.

Lemma existsb_seq_rows {A} (rows : list (list A)) (p : list A → bool) (d : list A) :
  existsb (λ j, p (nth j rows d)) (seq 0 (length rows)) = existsb p rows.
Proof.
  rewrite <- (map_nth_seq rows d) at 2.
  generalize (seq 0 (length rows)). intros l.
  induction l as [|j l IH]; simpl; [reflexivity|]. by rewrite IH.
Qed.

(** The membership array [np.array(rows).squeeze().transpose()] reduced
    along axis 1, for at least two rows of at least two entries. *)
Lemma membership_any (rows : list (list bool)) (n : nat) :
  Forall (λ r, length r = n) rows → 2 ≤ length rows → 2 ≤ n →
  (arr ← np_array_rows rows; np_any_axis1 (nd_transpose (squeeze arr)))
  = Ok (NDArray [n] (map (λ i, existsb (λ r, nth i r false) rows) (seq 0 n))).
Proof.
  intros Hf Hk Hn. unfold np_array_rows.
  destruct rows as [|r0 rows']; [simpl in Hk; lia|].
  cbv beta iota.
  set (rows := r0 :: rows') in *.
  assert (forallb (λ r, Nat.eqb (length r) (length r0)) rows = true) as ->.
  { apply forallb_forall. intros r Hr. apply Nat.eqb_eq.
    rewrite Forall_forall in Hf. apply list_elem_of_In in Hr.
    rewrite (Hf r Hr). symmetry. apply Hf. by left. }
  assert (length r0 = n) as -> by (rewrite Forall_forall in Hf; apply Hf; by left).
  clearbody rows. clear r0 rows'.
  rewrite bind_Ok. unfold squeeze. cbn [shape data].
  rewrite !filter_cons_True by lia. rewrite filter_nil.
  unfold nd_transpose. cbn [shape data].
  set (k := length rows) in *.
  assert (Hcol : ∀ j, j < n →
            omap (λ i, concat rows !! (i * n + j)) (seq 0 k)
            = map (λ i, nth j (nth i rows []) false) (seq 0 k)).
  { intros j Hj. apply omap_map. intros i Hi. apply elem_of_seq in Hi.
    rewrite (lookup_concat_blocks rows n j i Hf Hj).
    destruct (lookup_lt_is_Some_2 rows i ltac:(lia)) as [r Hr].
    rewrite Hr. cbn. rewrite (nth_lookup_Some _ _ [] _ Hr).
    assert (length r = n) as Hlr
      by (rewrite Forall_forall in Hf; apply Hf; by eapply list_elem_of_lookup_2).
    destruct (lookup_lt_is_Some_2 r j ltac:(lia)) as [b Hb].
    rewrite Hb. f_equal. symmetry. by apply nth_lookup_Some. }
  rewrite (flat_map_ext_seq _ (λ j, map (λ i, nth j (nth i rows []) false) (seq 0 k)))
    by (intros j Hj; apply Hcol; lia).
  unfold np_any_axis1. cbn [shape data]. do 2 f_equal.
  apply map_ext_in. intros i Hi. apply in_seq in Hi.
  rewrite <- (existsb_seq_rows rows (λ r, nth i r false) []). fold k.
  apply existsb_ext_in. intros j Hj. apply in_seq in Hj.
  rewrite (Nat.add_comm (i * k)).
  rewrite (lookup_flat_map_blocks _ k);
    [|by intros; rewrite length_map, length_seq|lia..].
  rewrite Nat.add_0_l, lookup_map, lookup_seq_lt by lia. reflexivity.
Qed.

Section Clouds.
Context {T : Type} `{Float T} `{!QueryHelpers T}.

(** The loop of [_get_point_cloud] from cell [s] on, the ellipses known. *)
Lemma point_cloud_loop_slabs (self : @Model.t T) (sdwidth : T) (nsamples : nat)
    (ells : list (matrix T)) (k s : nat) (acc : list (matrix T)) :
  (Model._ndim self = 2 ∨ Model._ndim self = 3) →
  (∀ i c A, Model._cc self !! i = Some c → Model._cA self !! i = Some A →
     ellipse_points (Model._ndim self) c A sdwidth nsamples = Ok (nth i ells [])) →
  s + k < length (Model._cc self) → s + k < length (Model._cA self) →
  fold_r (λ '(list_points_cloud, Yi) i,
      c ← at_index (Model._cc self) (i + 1);
      A ← at_index (Model._cA self) (i + 1);
      Yi1 ← Model._getEllipse self c A sdwidth nsamples;
      Y ← Model.concat_clouds Yi Yi1;
      Ok (list_points_cloud ++ [unique_rows Y], Yi1))
    (seq s k) (acc, Some (nth s ells []))
  = Ok (acc ++ map (λ i, unique_rows (nth i ells [] ++ nth (S i) ells [])) (seq s k),
        Some (nth (s + k) ells [])).
Proof.
  intros Hdim Hell. revert s acc. induction k as [|k IH]; intros s acc Hc HA.
  - simpl. by rewrite app_nil_r, Nat.add_0_r.
  - cbn [seq fold_r map].
    destruct (lookup_lt_is_Some_2 (Model._cc self) (s + 1) ltac:(lia)) as [c Hcs].
    destruct (lookup_lt_is_Some_2 (Model._cA self) (s + 1) ltac:(lia)) as [A HAs].
    rewrite (at_index_Some _ _ _ Hcs), bind_Ok, (at_index_Some _ _ _ HAs), bind_Ok.
    rewrite (getEllipse_Some _ _ _ _ _ _ Hdim (Hell _ _ _ Hcs HAs)), bind_Ok.
    cbn [Model.concat_clouds]. rewrite bind_Ok.
    replace (s + 1) with (S s) by lia.
    rewrite bind_Ok, IH by lia. rewrite <- app_assoc. cbn [app].
    by replace (S s + k) with (s + S k) by lia.
Qed.

(** X7. The clouds of a tube.  [_get_point_cloud] returns one cloud per
    pair of adjacent cells, in order: the points of the two ellipses
    without repeated rows.  A tube of [n] cells has [n - 1] clouds. *)
Theorem get_point_cloud_slabs (self : @Model.t T) (sdwidth : T) (nsamples : nat)
    (ells : list (matrix T)) :
  (Model._ndim self = 2 ∨ Model._ndim self = 3) →
  length (Model._cA self) = length (Model._cc self) →
  1 ≤ length (Model._cc self) →
  (∀ i c A, Model._cc self !! i = Some c → Model._cA self !! i = Some A →
     ellipse_points (Model._ndim self) c A sdwidth nsamples = Ok (nth i ells [])) →
  Model._get_point_cloud self sdwidth nsamples
  = Ok (map (λ i, unique_rows (nth i ells [] ++ nth (S i) ells []))
            (seq 0 (length (Model._cc self) - 1))).
Proof.
  intros Hdim HcA Hn Hell. unfold Model._get_point_cloud.
  destruct (lookup_lt_is_Some_2 (Model._cc self) 0 ltac:(lia)) as [c Hcs].
  destruct (lookup_lt_is_Some_2 (Model._cA self) 0 ltac:(lia)) as [A HAs].
  rewrite (at_index_Some _ _ _ Hcs), bind_Ok, (at_index_Some _ _ _ HAs), bind_Ok.
  rewrite (getEllipse_Some _ _ _ _ _ _ Hdim (Hell _ _ _ Hcs HAs)), bind_Ok.
  rewrite (point_cloud_loop_slabs self sdwidth nsamples ells) by (done || lia).
  reflexivity.
Qed.

(** X8. Tubes without slabs.  Without cells [_get_point_cloud] and
    [isInside_pnts] raise [IndexError] at the first cell; with one cell
    there are no clouds, and [isInside_pnts] raises the axis error of
    [np.any(..., axis=1)] whatever the points. *)
Theorem isInside_pnts_without_slabs (self : @Model.t T) (P : matrix T) (sdwidth : T)
    (nsamples : nat) :
  (Model._cc self = [] →
   Model._get_point_cloud self sdwidth nsamples = Raise IndexError
   ∧ Model.isInside_pnts self P sdwidth nsamples = Raise IndexError)
  ∧ (∀ c A Y, Model._cc self = [c] → Model._cA self !! 0 = Some A →
     (Model._ndim self = 2 ∨ Model._ndim self = 3) →
     ellipse_points (Model._ndim self) c A sdwidth nsamples = Ok Y →
     Model._get_point_cloud self sdwidth nsamples = Ok []
     ∧ Model.isInside_pnts self P sdwidth nsamples = Raise AxisError).
Proof.
  split.
  - intros Hcc.
    assert (Model._get_point_cloud self sdwidth nsamples = Raise IndexError) as Hcloud
      by (unfold Model._get_point_cloud; by rewrite Hcc).
    split; [done|]. unfold Model.isInside_pnts. by rewrite Hcloud.
  - intros c A Y Hcc HA Hdim HY.
    assert (Model._get_point_cloud self sdwidth nsamples = Ok []) as Hcloud.
    { unfold Model._get_point_cloud. rewrite Hcc. cbn [at_index lookup list_lookup].
      rewrite bind_Ok, (at_index_Some _ _ _ HA), bind_Ok.
      rewrite (getEllipse_Some _ _ _ _ _ _ Hdim HY), bind_Ok. reflexivity. }
    split; [done|]. unfold Model.isInside_pnts. rewrite Hcloud. reflexivity.
Qed.

(** X9. Tube membership of several points in a tube of several slabs: a
    point is inside exactly when [in_hull] finds it in the cloud of some
    slab.  [isInside_pnts] returns one boolean per point. *)
Theorem isInside_pnts_any_slab (self : @Model.t T) (P : matrix T) (sdwidth : T)
    (nsamples : nat) (clouds : list (matrix T)) (rows : list (list bool)) :
  Model._get_point_cloud self sdwidth nsamples = Ok clouds →
  map_r (in_hull P) clouds = Ok rows →
  Forall (λ r, length r = length P) rows →
  2 ≤ length clouds → 2 ≤ length P →
  Model.isInside_pnts self P sdwidth nsamples
  = Ok (NDArray [length P]
          (map (λ i, existsb (λ r, nth i r false) rows) (seq 0 (length P)))).
Proof.
  intros Hclouds Hrows Hlen Hk Hn. unfold Model.isInside_pnts.
  rewrite Hclouds, bind_Ok, Hrows, bind_Ok.
  apply membership_any; [done| |done].
  by rewrite (map_r_length _ _ _ Hrows).
Qed.
End Clouds.

Section GridMembership.
Context {T : Type} `{Float T} `{!QueryHelpers T}.

(** X10. Tube membership on a grid in the plane.  For a model with
    nothing memoised, at least two slabs and an [nx x ny] grid of at
    least two points, [isInside_grid] samples the ellipses with [12]
    points and returns the [nx x ny] array that holds [1.0] at [(ix, iy)]
    when [in_hull] finds the point [(xx[ix, 0], yy[0, iy])] in the cloud
    of some slab and [0.0] otherwise, and memoises it with the grid and
    the width. *)
Theorem isInside_grid_2d (self : @Model.t T) (sdwidth : T) (xx yy : ndarray T)
    (zz : option (ndarray T)) (nx ny : nat)
    (clouds : list (matrix T)) (rows : list (list bool)) :
  Model._ndim self = 2 →
  Model._list_tube self = [] →
  shape xx = [nx; ny] → shape yy = [nx; ny] →
  length (data xx) = nx * ny → length (data yy) = nx * ny →
  2 ≤ nx * ny →
  Model._get_point_cloud self sdwidth 12 = Ok clouds →
  2 ≤ length clouds →
  map_r (in_hull (map (grid_point_2d xx yy ny) (indices [nx; ny]))) clouds = Ok rows →
  Forall (λ r, length r = nx * ny) rows →
  let ss := NDArray [nx; ny]
              (map (λ i, Model.float_of_bool (existsb (λ r, nth i r false) rows))
                   (seq 0 (nx * ny))) in
  Model.isInside_grid self sdwidth xx yy zz
  = Ok (ss, Model.set_list_tube self [(ss, sdwidth, xx, yy, zz)]).
Proof.
  intros Hdim Hcache Hsx Hsy Hlx Hly Hn Hclouds Hk Hrows Hlen ss.
  assert (0 < nx ∧ 0 < ny) as [Hnx Hny] by nia.
  unfold Model.isInside_grid.
  rewrite bool_decide_eq_true_2 by congruence. cbn [negb]. rewrite Hcache.
  cbn [fold_left app].
  rewrite (grid2points_2d self xx yy zz nx ny) by done. rewrite bind_Ok.
  set (P := map (grid_point_2d xx yy ny) (indices [nx; ny])) in *.
  assert (length P = nx * ny) as HP by (unfold P; by rewrite length_map, length_indices_2d).
  unfold Model.isInside_pnts. rewrite Hclouds, bind_Ok, Hrows, bind_Ok.
  rewrite (membership_any rows (length P));
    [|by rewrite HP|by rewrite (map_r_length _ _ _ Hrows)|lia].
  rewrite bind_Ok. cbn [shape data]. rewrite map_map, HP.
  unfold ss.
  set (vals := map (λ i, Model.float_of_bool (existsb (λ r, nth i r false) rows))
                   (seq 0 (nx * ny))).
  assert (length vals = nx * ny) as Hvals by (unfold vals; by rewrite length_map, length_seq).
  rewrite <- Hvals at 1.
  rewrite points2grid_indices; [rewrite bind_Ok; reflexivity| | |].
  - repeat constructor; lia.
  - by rewrite Hdim.
  - by rewrite Hvals, length_indices_2d.
Qed.
End GridMembership.

Section Mean.
Context {T : Type} `{Num T} `{!Helpers T}.

(** What a list comprehension returns, read off each of its calls. *)
Lemma map_r_inv_map {A B C} (f : A → result B) (g : B → C) (h : A → C)
    (l : list A) (bs : list B) :
  map_r f l = Ok bs → (∀ a b, f a = Ok b → g b = h a) → map g bs = map h l.
Proof.
  intros Hbs Hgh. apply map_r_inv in Hbs.
  induction Hbs as [|a b l bs Hab _ IH]; simpl; [reflexivity|].
  by rewrite (Hgh a b Hab), IH.
Qed.

(** The centre [_getMuSigma] returns: the entries [npoint + d*ngaus] of
    [mu_y]. *)
Lemma getMuSigma_centre (D ngaus m : nat) (mu_y sig_y c A : matrix T) :
  getMuSigma D mu_y sig_y (Z.of_nat m) (Z.of_nat ngaus) = Ok (c, A) →
  c = colvec (map (λ d, nth 0 (nth (m + d * ngaus) mu_y []) nzero) (seq 0 D)).
Proof.
  unfold getMuSigma. destruct (_ || _); [done|]. intros Hc.
  apply bind_inv_Ok in Hc as (rows & Hrows & Heq). cbv beta in Heq.
  injection Heq as <- <-. f_equal.
  apply (map_r_inv_map _ _ _ _ _ Hrows). intros d [a r] Hd. simpl.
  apply bind_inv_Ok in Hd as (mu_row & Hmu & Hd).
  apply bind_inv_Ok in Hd as (a' & Ha & Hd).
  apply bind_inv_Ok in Hd as (sig_row & _ & Hd).
  apply bind_inv_Ok in Hd as (A_row & _ & Heq). injection Heq as <- <-.
  unfold at_index in Hmu, Ha.
  replace (Z.to_nat (Z.of_nat m + Z.of_nat d * Z.of_nat ngaus)) with (m + d * ngaus)
    in Hmu by lia.
  destruct (mu_y !! (m + d * ngaus)) as [r|] eqn:Er; [|done]. injection Hmu as <-.
  destruct (r !! 0) as [a''|] eqn:Ea; [|done]. injection Ha as <-.
  rewrite (nth_lookup_Some _ _ _ _ Er). symmetry. by apply nth_lookup_Some.
Qed.

Lemma getGMMCells_centres (D ngaus : nat) (mu_y sig_y : matrix T)
    (cc cA : list (matrix T)) :
  getGMMCells D mu_y sig_y (Z.of_nat ngaus) = Ok (cc, cA) →
  cc = map (λ m, colvec (map (λ d, nth 0 (nth (m + d * ngaus) mu_y []) nzero) (seq 0 D)))
           (seq 0 ngaus).
Proof.
  unfold getGMMCells. rewrite Nat2Z.id. intros Hc.
  apply bind_inv_Ok in Hc as (cells & Hcells & Heq). cbv beta in Heq.
  injection Heq as <- <-.
  apply (map_r_inv_map _ _ _ _ _ Hcells). intros m [c A] Hm. simpl.
  apply bind_inv_Ok in Hm as ([c0 A0] & Hms & Hm).
  apply bind_inv_Ok in Hm as (A1 & _ & Heq). injection Heq as <- <-.
  by apply getMuSigma_centre in Hms.
Qed.
End Mean.

Section MeanPath.
Context {T : Type} `{Num T} `{!Helpers T}.

Lemma transpose_column (mu : matrix T) :
  mu ≠ [] → Forall (λ r, length r = 1) mu → concat (transpose mu) = uncol mu.
Proof.
  intros Hne Hrows. unfold transpose, ncols.
  destruct mu as [|r mu]; [done|]. inversion Hrows as [|? ? Hr _]; subst.
  cbn [hd]. rewrite Hr. cbn [seq map concat]. by rewrite app_nil_r.
Qed.

Lemma nth_uncol (mu : matrix T) (k : nat) :
  nth k (uncol mu) nzero = nth 0 (nth k mu []) nzero.
Proof. unfold uncol. apply (map_nth (λ r, nth 0 r nzero) mu []). Qed.

Lemma reshape_F_cols_column (mu : matrix T) (ndim ngaus : nat) :
  1 ≤ ndim → 1 ≤ ngaus →
  length mu = ndim * ngaus → Forall (λ r, length r = 1) mu →
  Model.reshape_F_cols mu ndim
  = Ok (map (λ i, map (λ d, nth 0 (nth (i + d * ngaus) mu []) nzero) (seq 0 ndim))
            (seq 0 ngaus)).
Proof.
  intros Hd Hg Hlen Hrows. unfold Model.reshape_F_cols.
  rewrite transpose_column; [|intros ->; simpl in Hlen; nia|done].
  assert (length (uncol mu) = ngaus * ndim) as Hl
    by (unfold uncol; rewrite length_map; lia).
  rewrite Hl, Nat.Div0.mod_mul, Nat.div_mul by lia.
  replace (ndim =? 0) with false by (symmetry; apply Nat.eqb_neq; lia).
  cbn [orb negb Nat.eqb]. f_equal.
  apply map_ext. intros i. apply map_ext. intros d. apply nth_uncol.
Qed.

Lemma length_col (d : nat) (A : matrix T) : length (col d A) = length A.
Proof. unfold col. apply length_map. Qed.

Lemma transpose_three (x y z : vector T) :
  transpose [x; y; z]
  = map (λ j, [nth j x nzero; nth j y nzero; nth j z nzero]) (seq 0 (length x)).
Proof. reflexivity. Qed.

Lemma nth_col_rows (ngaus ndim j d : nat) (f : nat → nat → T) :
  j < ngaus → d < ndim →
  nth j (col d (map (λ i, map (λ d, f i d) (seq 0 ndim)) (seq 0 ngaus))) nzero = f j d.
Proof.
  intros Hj Hd. unfold col. rewrite map_map.
  rewrite (nth_map_in _ _ _ 0) by (by rewrite length_seq).
  rewrite seq_nth by done. cbn [Nat.add].
  rewrite (nth_map_in _ _ _ 0) by (by rewrite length_seq).
  by rewrite seq_nth.
Qed.

(** X11. The mean path.  For a tube in the plane or in space whose cells
    are those of its mean vector, [getMean] returns the centres of the
    cells in order, one row per cell; in the plane a third coordinate
    [0] is added. *)
Theorem getMean_cell_centres (self : @Model.t T) (ngaus : nat) :
  (Model._ndim self = 2 ∨ Model._ndim self = 3) →
  1 ≤ ngaus →
  length (Model._mu_y self) = Model._ndim self * ngaus →
  Forall (λ r, length r = 1) (Model._mu_y self) →
  Model._getGMMCells (Model._ndim self) (Model._mu_y self) (Model._sig_y self)
    (Z.of_nat ngaus) = Ok (Model._cc self, Model._cA self) →
  Model.getMean self
  = Returns
      (map (λ c, uncol c ++ (if bool_decide (Model._ndim self = 2) then [nzero] else []))
           (Model._cc self)).
Proof.
  intros Hdim Hg Hlen Hrows Hcells. unfold Model.getMean.
  apply getGMMCells_centres in Hcells. rewrite Hcells. clear Hcells.
  rewrite (reshape_F_cols_column _ _ ngaus) by (done || lia).
  rewrite map_map.
  pose (f := λ i d, nth 0 (nth (i + d * ngaus) (Model._mu_y self) []) nzero).
  destruct Hdim as [Hdim | Hdim]; rewrite Hdim.
  - rewrite (bool_decide_eq_true_2 (2 = 2)) by done.
    rewrite transpose_three. f_equal.
    rewrite length_col, length_map, length_seq.
    change (map (λ i, map (λ d, nth 0 (nth (i + d * ngaus) (Model._mu_y self) []) nzero)
                          (seq 0 2)) (seq 0 ngaus))
      with (map (λ i, map (λ d, f i d) (seq 0 2)) (seq 0 ngaus)).
    apply map_ext_in. intros j Hj. apply in_seq in Hj.
    rewrite (nth_col_rows ngaus 2 j 0 f), (nth_col_rows ngaus 2 j 1 f) by lia.
    rewrite (nth_map_in _ _ _ nzero) by (rewrite length_col, length_map, length_seq; lia).
    rewrite uncol_colvec. reflexivity.
  - rewrite (bool_decide_eq_false_2 (3 = 2)) by lia.
    rewrite (bool_decide_eq_true_2 (3 = 3)) by done.
    rewrite transpose_three. f_equal.
    rewrite length_col, length_map, length_seq.
    change (map (λ i, map (λ d, nth 0 (nth (i + d * ngaus) (Model._mu_y self) []) nzero)
                          (seq 0 3)) (seq 0 ngaus))
      with (map (λ i, map (λ d, f i d) (seq 0 3)) (seq 0 ngaus)).
    apply map_ext_in. intros j Hj. apply in_seq in Hj.
    rewrite (nth_col_rows ngaus 3 j 0 f), (nth_col_rows ngaus 3 j 1 f),
      (nth_col_rows ngaus 3 j 2 f) by lia.
    rewrite uncol_colvec. reflexivity.
Qed.

(** X12. [getMean] returns nothing for a tube that is neither in the
    plane nor in space: either the mean vector cannot be reshaped
    ([ValueError]), or the coordinates [x], [y], [z] are never bound and
    reading [x] fails. *)
Theorem getMean_other_dimensions (self : @Model.t T) :
  Model._ndim self ≠ 2 → Model._ndim self ≠ 3 →
  (∃ Y, Model.reshape_F_cols (Model._mu_y self) (Model._ndim self) = Ok Y
        ∧ Model.getMean self = UnboundLocalError "x")
  ∨ (∃ msg, Model.getMean self = Raises (ValueError msg)).
Proof.
  intros H2 H3. unfold Model.getMean.
  destruct (Model.reshape_F_cols _ _) as [Y|e] eqn:E.
  - left. exists Y. split; [done|]. by rewrite !bool_decide_eq_false_2.
  - right. unfold Model.reshape_F_cols in E.
    destruct (_ || _); [|done]. injection E as <-. eauto.
Qed.
End MeanPath.

(** ** Normalisation of [x] *)

Lemma finite_list (l : list xfloat) :
  Forall (λ a, isfinite a = true) l → l = map Fin (map unfin l).
Proof.
  induction 1 as [|a l Ha _ IH]; simpl; [reflexivity|].
  rewrite <- IH. by destruct a.
Qed.

Section Extremes.
Local Open Scope Qc_scope.

Lemma qmin_spec (m a : Qc) : qmin m a ≤ m ∧ qmin m a ≤ a ∧ (qmin m a = m ∨ qmin m a = a).
Proof.
  unfold qmin. case_bool_decide as Hlt.
  - split; [by apply Qclt_le_weak|]. split; [apply Qcle_refl|by right].
  - split; [apply Qcle_refl|]. split; [by apply Qcnot_lt_le|by left].
Qed.

Lemma qmax_spec (m a : Qc) : m ≤ qmax m a ∧ a ≤ qmax m a ∧ (qmax m a = m ∨ qmax m a = a).
Proof.
  unfold qmax. case_bool_decide as Hlt.
  - split; [by apply Qclt_le_weak|]. split; [apply Qcle_refl|by right].
  - split; [apply Qcle_refl|]. split; [by apply Qcnot_lt_le|by left].
Qed.

Lemma fold_qmin_spec (l : list Qc) (a : Qc) :
  fold_left qmin l a ≤ a
  ∧ Forall (λ x, fold_left qmin l a ≤ x) l
  ∧ (fold_left qmin l a = a ∨ fold_left qmin l a ∈ l).
Proof.
  revert a. induction l as [|b l IH]; intros a; simpl.
  - split; [apply Qcle_refl|]. split; [constructor|by left].
  - destruct (IH (qmin a b)) as (H1 & H2 & H3).
    destruct (qmin_spec a b) as (Ha & Hb & Hab).
    split; [by eapply Qcle_trans|]. split.
    + constructor; [by eapply Qcle_trans|done].
    + destruct H3 as [-> | H3]; [|right; by right].
      destruct Hab as [-> | ->]; [by left | right; by left].
Qed.

Lemma fold_qmax_spec (l : list Qc) (a : Qc) :
  a ≤ fold_left qmax l a
  ∧ Forall (λ x, x ≤ fold_left qmax l a) l
  ∧ (fold_left qmax l a = a ∨ fold_left qmax l a ∈ l).
Proof.
  revert a. induction l as [|b l IH]; intros a; simpl.
  - split; [apply Qcle_refl|]. split; [constructor|by left].
  - destruct (IH (qmax a b)) as (H1 & H2 & H3).
    destruct (qmax_spec a b) as (Ha & Hb & Hab).
    split; [by eapply Qcle_trans|]. split.
    + constructor; [by eapply Qcle_trans|done].
    + destruct H3 as [-> | H3]; [|right; by right].
      destruct Hab as [-> | ->]; [by left | right; by left].
Qed.
End Extremes.

Lemma fold_pick_min (qs : list Qc) (a : Qc) :
  fold_left (Model.pick nltb) (map Fin qs) (Fin a) = Fin (fold_left qmin qs a).
Proof.
  revert a. induction qs as [|b qs IH]; intros a; simpl; [reflexivity|].
  rewrite <- IH. f_equal. unfold Model.pick, qmin. simpl. by case_bool_decide.
Qed.

Lemma fold_pick_max (qs : list Qc) (a : Qc) :
  fold_left (Model.pick (λ a m : xfloat, nltb m a)) (map Fin qs) (Fin a)
  = Fin (fold_left qmax qs a).
Proof.
  revert a. induction qs as [|b qs IH]; intros a; simpl; [reflexivity|].
  rewrite <- IH. f_equal. unfold Model.pick, qmax. simpl. by case_bool_decide.
Qed.

(** [x.min()] and [x.max()] of finite values. *)
Lemma np_min_Fin (a : Qc) (qs : list Qc) :
  Model.np_min (map Fin (a :: qs)) = Ok (Fin (fold_left qmin qs a)).
Proof. unfold Model.np_min. simpl. by rewrite fold_pick_min. Qed.

Lemma np_max_Fin (a : Qc) (qs : list Qc) :
  Model.np_max (map Fin (a :: qs)) = Ok (Fin (fold_left qmax qs a)).
Proof. unfold Model.np_max. simpl. by rewrite fold_pick_max. Qed.

Section MinMax.
Local Open Scope Qc_scope.

(** One trajectory of finite values seen by the loop of [_getMinMax]. *)
Lemma getMinMax_step (tr : trajectory xfloat) (lo hi : Qc) :
  finite_x tr →
  ∃ m M : Qc,
    Model.np_min tr.1 = Ok (Fin m) ∧ Model.np_max tr.1 = Ok (Fin M)
    ∧ Fin m ∈ tr.1 ∧ Fin M ∈ tr.1
    ∧ (∀ a, Fin a ∈ tr.1 → m ≤ a ≤ M).
Proof.
  intros [Hne Hfin]. destruct tr as [x Y]. simpl in *.
  rewrite (finite_list x Hfin) in *. clear Hfin.
  destruct (map unfin x) as [|q0 qs]; [done|]. clear Hne.
  exists (fold_left qmin qs q0), (fold_left qmax qs q0).
  rewrite np_min_Fin, np_max_Fin.
  destruct (fold_qmin_spec qs q0) as (Hm1 & Hm2 & Hm3).
  destruct (fold_qmax_spec qs q0) as (HM1 & HM2 & HM3).
  split; [done|]. split; [done|]. split; [|split].
  - destruct Hm3 as [-> | Hin]; [by left|]. right.
    apply list_elem_of_In, in_map. by apply list_elem_of_In.
  - destruct HM3 as [-> | Hin]; [by left|]. right.
    apply list_elem_of_In, in_map. by apply list_elem_of_In.
  - intros a Ha. apply list_elem_of_In in Ha. simpl in Ha.
    destruct Ha as [[= ->] | Ha]; [done|].
    apply in_map_iff in Ha as (b & [= ->] & Hb). apply list_elem_of_In in Hb.
    rewrite Forall_forall in Hm2, HM2. split; auto.
Qed.

Lemma getMinMax_from (cd : list (trajectory xfloat)) (lo hi : Qc) :
  Forall finite_x cd →
  ∃ lo' hi' : Qc,
    fold_r minmax_step cd (Fin lo, Fin hi) = Ok (Fin lo', Fin hi')
    ∧ lo' ≤ lo ∧ hi ≤ hi'
    ∧ (∀ tr a, tr ∈ cd → Fin a ∈ tr.1 → lo' ≤ a ≤ hi')
    ∧ (lo' = lo ∨ ∃ tr, tr ∈ cd ∧ Fin lo' ∈ tr.1)
    ∧ (hi' = hi ∨ ∃ tr, tr ∈ cd ∧ Fin hi' ∈ tr.1).
Proof.
  intros Hcd. revert lo hi. induction Hcd as [|tr cd Htr _ IH]; intros lo hi.
  - exists lo, hi. simpl. split; [done|]. split; [apply Qcle_refl|].
    split; [apply Qcle_refl|]. split; [intros tr a Hin; by apply elem_of_nil in Hin|].
    split; by left.
  - destruct (getMinMax_step tr lo hi Htr) as (m & M & Hmin & Hmax & Hm & HM & Hb).
    cbn [fold_r]. unfold minmax_step at 2. destruct tr as [x Y]. simpl in Hmin, Hmax, Hm, HM, Hb.
    rewrite Hmin, bind_Ok, Hmax, bind_Ok. cbv zeta.
    change (nltb (Fin m) (Fin lo)) with (bool_decide (m < lo)).
    change (nltb (Fin hi) (Fin M)) with (bool_decide (hi < M)).
    replace (if bool_decide (m < lo) then Fin m else Fin lo) with (Fin (qmin lo m))
      by (unfold qmin; by case_bool_decide).
    replace (if bool_decide (hi < M) then Fin M else Fin hi) with (Fin (qmax hi M))
      by (unfold qmax; by case_bool_decide).
    rewrite bind_Ok.
    destruct (IH (qmin lo m) (qmax hi M)) as (lo' & hi' & Hf & Hlo & Hhi & Hall & Hal & Hah).
    destruct (qmin_spec lo m) as (Q1 & Q2 & Q3).
    destruct (qmax_spec hi M) as (R1 & R2 & R3).
    exists lo', hi'. split; [done|].
    split; [by eapply Qcle_trans|]. split; [by eapply Qcle_trans|]. split; [|split].
    + intros tr a Hin Ha. apply elem_of_cons in Hin as [-> | Hin]; [|by eapply Hall].
      simpl in Ha. destruct (Hb a Ha). split.
      * eapply Qcle_trans; [exact Hlo|]. by eapply Qcle_trans.
      * eapply Qcle_trans; [|exact Hhi]. by eapply Qcle_trans.
    + destruct Hal as [-> | (tr & Hin & Ha)].
      * destruct Q3 as [-> | ->]; [by left|]. right. exists (x, Y). split; [by left|done].
      * right. exists tr. split; [by right|done].
    + destruct Hah as [-> | (tr & Hin & Ha)].
      * destruct R3 as [-> | ->]; [by left|]. right. exists (x, Y). split; [by left|done].
      * right. exists tr. split; [by right|done].
Qed.

Lemma getMinMax_unfold (cd : list (trajectory xfloat)) :
  Model._getMinMax cd = fold_r minmax_step cd (PInf, NInf).
Proof. reflexivity. Qed.

(** The least and the greatest [x] of an ensemble of finite values. *)
Lemma getMinMax_extremes (cd : list (trajectory xfloat)) :
  cd ≠ [] → Forall finite_x cd →
  ∃ lo hi : Qc,
    Model._getMinMax cd = Ok (Fin lo, Fin hi)
    ∧ (∀ tr a, tr ∈ cd → Fin a ∈ tr.1 → lo ≤ a ≤ hi)
    ∧ (∃ tr, tr ∈ cd ∧ Fin lo ∈ tr.1)
    ∧ (∃ tr, tr ∈ cd ∧ Fin hi ∈ tr.1).
Proof.
  intros Hne Hcd. destruct cd as [|tr cd]; [done|]. clear Hne.
  pose proof (Forall_inv Hcd) as Htr.
  destruct (getMinMax_step tr (Qc_of_Z 0) (Qc_of_Z 0) Htr)
    as (m & M & Hmin & Hmax & Hm & HM & Hb).
  assert (Model._getMinMax (tr :: cd) = fold_r minmax_step (tr :: cd) (Fin m, Fin M)) as ->.
  { rewrite getMinMax_unfold. cbn [fold_r]. unfold minmax_step at 2 4.
    destruct tr as [x Y]. simpl in Hmin, Hmax. rewrite Hmin, Hmax, !bind_Ok. cbv zeta.
    change (nltb (Fin m) PInf) with true. change (nltb NInf (Fin M)) with true.
    cbv iota.
    change (nltb (Fin m) (Fin m)) with (bool_decide (m < m)).
    change (nltb (Fin M) (Fin M)) with (bool_decide (M < M)).
    rewrite !bool_decide_eq_false_2; [done|..];
      intros Hlt; by apply (Qcle_not_lt _ _ (Qcle_refl _)) in Hlt. }
  destruct (getMinMax_from (tr :: cd) m M Hcd) as (lo & hi & Hf & Hlo & Hhi & Hall & Hal & Hah).
  exists lo, hi. split; [done|]. split; [done|]. split.
  - destruct Hal as [-> | ?]; [|done]. exists tr. split; [by left|done].
  - destruct Hah as [-> | ?]; [|done]. exists tr. split; [by left|done].
Qed.

(** X13. The range of [x] over an ensemble.  For trajectories with
    finite values of [x], at least one each, [_getMinMax] returns the
    least and the greatest value of [x] over all trajectories: both
    occur in the ensemble and every value lies between them. *)
Theorem getMinMax_range (cd : list (trajectory xfloat)) :
  cd ≠ [] → Forall finite_x cd →
  ∃ lo hi : Qc,
    Model._getMinMax cd = Ok (Fin lo, Fin hi)
    ∧ (∀ tr a, tr ∈ cd → Fin a ∈ tr.1 → lo ≤ a ≤ hi)
    ∧ (∃ tr, tr ∈ cd ∧ Fin lo ∈ tr.1)
    ∧ (∃ tr, tr ∈ cd ∧ Fin hi ∈ tr.1).
Proof. apply getMinMax_extremes. Qed.
End MinMax.

Section Normalise.
Local Open Scope Qc_scope.

Lemma Qc_zero : Qc_of_Z 0 = 0.
Proof. reflexivity. Qed.


Lemma norm_entry_degenerate (v : Qc) :
  ndiv (nsub (Fin v) (Fin v)) (nsub (Fin v) (Fin v)) = NaN.
Proof.
  cbn. replace (v + - v) with (Qc_of_Z 0) by (rewrite Qc_zero; ring).
  rewrite bool_decide_eq_true_2 by done. reflexivity.
Qed.

End Normalise.

Section NormaliseData.
Local Open Scope Qc_scope.



(** X15. An ensemble whose [x] holds one value only has the range
    [(v, v)], and normalisation divides zero by zero: every [x] becomes
    [NaN]. *)
Theorem normalise_data_single_value (cd : list (trajectory xfloat)) (v : Qc) :
  cd ≠ [] →
  Forall (λ tr, tr.1 ≠ [] ∧ Forall (λ a, a = Fin v) tr.1) cd →
  Model._getMinMax cd = Ok (Fin v, Fin v)
  ∧ Model._normalise_data cd = Ok (map (λ tr, (map (λ _, NaN) tr.1, tr.2)) cd).
Proof.
  intros Hne Hcd.
  assert (Forall finite_x cd) as Hfin.
  { eapply Forall_impl; [exact Hcd|]. intros tr [Hx Hv]. split; [done|].
    eapply Forall_impl; [exact Hv|]. by intros a ->. }
  destruct (getMinMax_extremes cd Hne Hfin) as (lo & hi & Hmm & _ & (trl & Hl & Hlo) & (trh & Hh & Hhi)).
  rewrite Forall_forall in Hcd.
  assert (lo = v) as ->.
  { destruct (Hcd _ Hl) as [_ Hv]. rewrite Forall_forall in Hv.
    by injection (Hv _ Hlo). }
  assert (hi = v) as ->.
  { destruct (Hcd _ Hh) as [_ Hv]. rewrite Forall_forall in Hv.
    by injection (Hv _ Hhi). }
  split; [done|]. unfold Model._normalise_data. rewrite Hmm, bind_Ok. f_equal.
  apply map_ext_in. intros [x Y] Hin. apply list_elem_of_In in Hin.
  cbn [fst snd]. f_equal. unfold Model._getNorm.
  destruct (Hcd _ Hin) as [_ Hv]. simpl in Hv. rewrite Forall_forall in Hv.
  apply map_ext_in. intros a Ha. apply list_elem_of_In in Ha.
  rewrite (Hv a Ha). apply norm_entry_degenerate.
Qed.
End NormaliseData.

Section NormaliseEdges.
Context {T : Type} `{Float T}.

(** X16. Ensembles without values of [x].  The empty ensemble is
    normalised to itself; a trajectory with an empty [x] makes
    [_getMinMax], and with it [_normalise_data], raise the [ValueError] of
    the minimum of an empty array. *)
Theorem normalise_data_empty (cd : list (trajectory T)) :
  Model._normalise_data ([] : list (trajectory T)) = Ok []
  ∧ ((∃ tr, tr ∈ cd ∧ tr.1 = []) →
     ∃ msg, Model._getMinMax cd = Raise (ValueError msg)
            ∧ Model._normalise_data cd = Raise (ValueError msg)).
Proof.
  split; [reflexivity|]. intros Hex.
  assert (∃ msg, Model._getMinMax cd = Raise (ValueError msg)) as [msg Hmm].
  { unfold Model._getMinMax. generalize (finf, nzero - finf)%num.
    induction cd as [|[x Y] cd IH]; intros [xmin xmax].
    - destruct Hex as (tr & Hin & _). by apply elem_of_nil in Hin.
    - cbn [fold_r]. destruct x as [|a x].
      + eexists. reflexivity.
      + cbn [Model.np_min Model.np_max]. rewrite !bind_Ok. apply IH.
        destruct Hex as (tr & Hin & Htr). exists tr. split; [|done].
        apply elem_of_cons in Hin as [-> | Hin]; [done|done]. }
  exists msg. split; [done|]. unfold Model._normalise_data. by rewrite Hmm.
Qed.
End NormaliseEdges.

Section CellEntries.
Context {T : Type} `{Num T} `{!Helpers T}.

Lemma map_r_inv_lookup {A B} (f : A → result B) (l : list A) (bs : list B) i a :
  map_r f l = Ok bs → l !! i = Some a → ∃ b, bs !! i = Some b ∧ f a = Ok b.
Proof.
  intros Hbs Ha. apply map_r_inv in Hbs.
  destruct (Forall2_lookup_l _ _ _ _ _ Hbs Ha) as (b & Hb & Hab). eauto.
Qed.

(** X17. One cell of a joint Gaussian.  Whatever [_getMuSigma] returns
    for cell [m] is read off the positions [m + d*ngaus]: the centre from
    [mu_y], the covariance from the rows and columns of [sig_y] at these
    positions, before any repair; [m] is below [ngaus], and a symmetric
    [sig_y] gives a symmetric covariance. *)
Theorem getMuSigma_entries (D ngaus m : nat) (mu_y sig_y c A : matrix T) :
  getMuSigma D mu_y sig_y (Z.of_nat m) (Z.of_nat ngaus) = Ok (c, A) →
  m < ngaus
  ∧ c = colvec (map (λ d, nth 0 (nth (m + d * ngaus) mu_y []) nzero) (seq 0 D))
  ∧ A = map (λ d1, map (λ d2, nth (m + d2 * ngaus) (nth (m + d1 * ngaus) sig_y []) nzero)
                       (seq 0 D))
            (seq 0 D)
  ∧ ((∀ i j, nth j (nth i sig_y []) nzero = nth i (nth j sig_y []) nzero) →
     ∀ d1 d2, d1 < D → d2 < D →
       nth d2 (nth d1 A []) nzero = nth d1 (nth d2 A []) nzero).
Proof.
  intros Hc.
  assert (m < ngaus) as Hm.
  { unfold getMuSigma in Hc.
    destruct ((Z.of_nat m <? 0)%Z || (Z.of_nat m >=? Z.of_nat ngaus)%Z) eqn:E; [done|].
    lia. }
  split; [done|]. split; [by eapply getMuSigma_centre|].
  assert (A = map (λ d1, map (λ d2, nth (m + d2 * ngaus) (nth (m + d1 * ngaus) sig_y []) nzero)
                                 (seq 0 D)) (seq 0 D)) as HA.
  { unfold getMuSigma in Hc. destruct (_ || _); [done|].
    apply bind_inv_Ok in Hc as (rows & Hrows & Heq). cbv beta in Heq.
    injection Heq as <- <-.
    apply (map_r_inv_map _ _ _ _ _ Hrows). intros d [a r] Hd. simpl.
    apply bind_inv_Ok in Hd as (mu_row & _ & Hd).
    apply bind_inv_Ok in Hd as (a' & _ & Hd).
    apply bind_inv_Ok in Hd as (sig_row & Hsig & Hd).
    apply bind_inv_Ok in Hd as (A_row & HArow & Heq). injection Heq as <- <-.
    rewrite <- (map_id A_row).
    apply (map_r_inv_map _ _ _ _ _ HArow). intros d2 b Hb. simpl.
    unfold at_index in Hsig, Hb.
    replace (Z.to_nat (Z.of_nat m + Z.of_nat d * Z.of_nat ngaus)) with (m + d * ngaus)
      in Hsig by lia.
    replace (Z.to_nat (Z.of_nat m + Z.of_nat d2 * Z.of_nat ngaus)) with (m + d2 * ngaus)
      in Hb by lia.
    destruct (sig_y !! (m + d * ngaus)) as [r|] eqn:Er; [|done]. injection Hsig as <-.
    destruct (r !! (m + d2 * ngaus)) as [b'|] eqn:Eb; [|done]. injection Hb as <-.
    rewrite (nth_lookup_Some _ _ _ _ Er). symmetry. by apply nth_lookup_Some. }
  split; [done|].
  intros Hsym d1 d2 H1 H2. rewrite HA.
  rewrite !(nth_map_in _ _ _ 0) by (rewrite length_seq; lia).
  rewrite !seq_nth by lia. cbn [Nat.add]. apply Hsym.
Qed.
End CellEntries.

Section UnitOutline.

Lemma blocks_constant {A} (c : A) (n k s : nat) :
  flat_map (λ _, replicate n c) (seq s k) = replicate (k * n) c.
Proof.
  revert s. induction k as [|k IH]; intros s; simpl; [reflexivity|].
  by rewrite IH, replicate_add.
Qed.

Lemma nth_unit_outline (ndim d : nat) :
  d < ndim →
  nth (d * 2) (unit_outline ndim) nzero = Qc_of_Z 0
  ∧ nth (d * 2 + 1) (unit_outline ndim) nzero = Qc_of_Z 1.
Proof.
  intros Hd. unfold unit_outline. split; apply nth_lookup_Some.
  - rewrite <- (Nat.add_0_l (d * 2)).
    by rewrite (lookup_flat_map_blocks _ 2) by (done || lia).
  - rewrite (Nat.add_comm (d * 2)).
    by rewrite (lookup_flat_map_blocks _ 2) by (done || lia).
Qed.

Lemma spans_unit_outline (ngaus ndim : nat) :
  spans (unit_outline ndim) ngaus ndim = replicate (ndim * ngaus) (Qc_of_Z 1).
Proof.
  unfold spans. rewrite <- (blocks_constant _ ngaus ndim 0).
  apply flat_map_ext_seq. intros d Hd.
  by destruct (nth_unit_outline ndim d ltac:(lia)) as [-> ->].
Qed.

Lemma offsets_unit_outline (ngaus ndim : nat) :
  offsets (unit_outline ndim) ngaus ndim = replicate (ndim * ngaus) (Qc_of_Z 0).
Proof.
  unfold offsets. rewrite <- (blocks_constant _ ngaus ndim 0).
  apply flat_map_ext_seq. intros d Hd.
  by destruct (nth_unit_outline ndim d ltac:(lia)) as [-> _].
Qed.

Lemma length_unit_outline (ndim : nat) : length (unit_outline ndim) = 2 * ndim.
Proof.
  unfold unit_outline.
  assert (∀ s, length (flat_map (λ _ : nat, [Qc_of_Z 0; Qc_of_Z 1]) (seq s ndim))
               = 2 * ndim) as Hs; [|apply Hs].
  induction ndim as [|n IH]; intros s; [done|].
  cbn [seq flat_map]. rewrite length_app, IH. simpl. lia.
Qed.

Lemma affine_unit (m : vector Qc) :
  zip_with nadd (zip_with nmul m (replicate (length m) (Qc_of_Z 1)))
           (replicate (length m) (Qc_of_Z 0)) = m.
Proof.
  induction m as [|a m IH]; [reflexivity|].
  cbn [length replicate zip_with]. rewrite IH. f_equal. qc_ops. ring.
Qed.

Lemma scale_unit (r : vector Qc) :
  zip_with nmul r (zip_with nmul (replicate (length r) (Qc_of_Z 1))
                                 (replicate (length r) (Qc_of_Z 1))) = r.
Proof.
  induction r as [|a r IH]; [reflexivity|].
  cbn [length replicate zip_with]. rewrite IH. f_equal. qc_ops. ring.
Qed.

(** X18. Data that fill the unit box are in physical units already:
    with the outline [[0, 1]] in every dimension [_norm2real] returns the
    mean and the covariance it was given. *)
Theorem norm2real_unit_outline (self : @GaussianProcess.t Qc) (ngaus : nat)
    (m : vector Qc) (sig : matrix Qc) :
  GaussianProcess._ngaus self = Z.of_nat ngaus →
  1 ≤ ngaus → 1 ≤ GaussianProcess._ndim self →
  GaussianProcess._outline self = unit_outline (GaussianProcess._ndim self) →
  length m = GaussianProcess._ndim self * ngaus →
  Forall (λ r, length r = GaussianProcess._ndim self * ngaus) sig →
  GaussianProcess._norm2real self (colvec m) sig = Ok (colvec m, sig).
Proof.
  intros Hg Hn Hd Ho Hm Hsig.
  rewrite (norm2real_Ok self ngaus m sig Hg Hn Hd); [|by rewrite Ho, length_unit_outline|done].
  rewrite Ho. unfold physical_mean, physical_covariance.
  rewrite spans_unit_outline, offsets_unit_outline, <- Hm.
  rewrite affine_unit. f_equal. f_equal.
  rewrite <- (map_id sig) at 2. apply map_ext_in. intros r Hr.
  rewrite Forall_forall in Hsig. apply list_elem_of_In in Hr.
  rewrite Hm, <- (Hsig r Hr). apply scale_unit.
Qed.
End UnitOutline.

Section OutlineVectors.
Context {T : Type} `{Num T}.

Lemma map_r_first_error {A B} (f : A → result B) (l1 l2 : list A) (a : A) (g : A → B) e :
  (∀ x, x ∈ l1 → f x = Ok (g x)) → f a = Raise e →
  map_r f (l1 ++ a :: l2) = Raise e.
Proof.
  intros Hok Ha. induction l1 as [|x l1 IH]; simpl.
  - by rewrite Ha.
  - rewrite Hok by left. rewrite bind_Ok, IH; [done|]. intros y Hy. apply Hok. by right.
Qed.

(** X19. The vectors of the outline.  [_outline2vectors] raises the
    [ValueError] of an empty concatenation for a process without
    dimensions and [IndexError] for an outline shorter than two bounds
    per dimension; otherwise both vectors have one row per dimension and
    control point. *)
Theorem outline2vectors_shape_and_errors (self : @GaussianProcess.t T) :
  (GaussianProcess._ndim self = 0 →
   GaussianProcess._outline2vectors self
   = Raise (ValueError "need at least one array to concatenate"))
  ∧ ((0 ≤ GaussianProcess._ngaus self)%Z →
     length (GaussianProcess._outline self) < 2 * GaussianProcess._ndim self →
     GaussianProcess._outline2vectors self = Raise IndexError)
  ∧ ((0 ≤ GaussianProcess._ngaus self)%Z →
     1 ≤ GaussianProcess._ndim self →
     2 * GaussianProcess._ndim self ≤ length (GaussianProcess._outline self) →
     ∃ M D, GaussianProcess._outline2vectors self = Ok (M, D)
            ∧ length M = GaussianProcess._ndim self * Z.to_nat (GaussianProcess._ngaus self)
            ∧ length D = GaussianProcess._ndim self * Z.to_nat (GaussianProcess._ngaus self)).
Proof.
  set (ndim := GaussianProcess._ndim self).
  set (outline := GaussianProcess._outline self).
  set (n := Z.to_nat (GaussianProcess._ngaus self)).
  set (f := λ d : nat,
         xmin ← at_index outline (d * 2 + 0);
         xmax ← at_index outline (d * 2 + 1);
         rows ← GaussianProcess.np_ones_rows (GaussianProcess._ngaus self);
         Ok (GaussianProcess.ones_times rows xmin,
             GaussianProcess.ones_times rows (nsub xmax xmin))).
  set (g := λ d : nat,
         (GaussianProcess.ones_times n (nth (d * 2 + 0) outline nzero),
          GaussianProcess.ones_times n (nsub (nth (d * 2 + 1) outline nzero)
                                             (nth (d * 2 + 0) outline nzero)))).
  assert (Hok : (0 ≤ GaussianProcess._ngaus self)%Z →
                ∀ d, d * 2 + 1 < length outline → f d = Ok (g d)).
  { intros Hng d Hd. unfold f, g.
    rewrite !(at_index_nth _ _ nzero) by lia. cbn [mbind result_bind].
    unfold GaussianProcess.np_ones_rows.
    replace (GaussianProcess._ngaus self <? 0)%Z with false
      by (symmetry; apply Z.ltb_ge; lia).
    reflexivity. }
  split; [|split].
  - intros H0. unfold GaussianProcess._outline2vectors. fold ndim. by rewrite H0.
  - intros Hng Hshort. specialize (Hok Hng).
    unfold GaussianProcess._outline2vectors. fold ndim outline.
    change (map_r _ (seq 0 ndim)) with (map_r f (seq 0 ndim)).
    set (k := length outline / 2).
    assert (k < ndim) as Hk by (apply Nat.Div0.div_lt_upper_bound; lia).
    assert (length outline < k * 2 + 2) as Hk2
      by (pose proof (Nat.div_mod_eq (length outline) 2);
          pose proof (Nat.mod_upper_bound (length outline) 2); lia).
    assert (k * 2 ≤ length outline) as Hk0
      by (pose proof (Nat.div_mod_eq (length outline) 2); lia).
    replace (seq 0 ndim) with (seq 0 k ++ k :: seq (S k) (ndim - S k)).
    2:{ change (k :: seq (S k) (ndim - S k)) with (seq (0 + k) (S (ndim - S k))).
        rewrite <- (seq_app k (S (ndim - S k)) 0). f_equal. lia. }
    rewrite (map_r_first_error f _ _ k g IndexError); [reflexivity| |].
    + intros d Hd. apply elem_of_seq in Hd. apply Hok. lia.
    + unfold f, at_index.
      destruct (outline !! (k * 2 + 0)) as [a|] eqn:Ea; [|done]. rewrite bind_Ok.
      rewrite (lookup_ge_None_2 outline (k * 2 + 1)) by lia. reflexivity.
  - intros Hng Hd Hlen. specialize (Hok Hng).
    unfold GaussianProcess._outline2vectors. fold ndim outline.
    change (map_r _ (seq 0 ndim)) with (map_r f (seq 0 ndim)).
    rewrite (map_r_Ok f g) by (intros d Hin; apply elem_of_seq in Hin; apply Hok; lia).
    rewrite bind_Ok.
    assert (seq 0 ndim ≠ []) as Hne by (destruct ndim; [lia|done]).
    rewrite !np_concatenate_Ok, !bind_Ok
      by (intros Hz; apply Hne; by repeat apply map_eq_nil in Hz).
    eexists _, _. split; [reflexivity|].
    rewrite !map_map. unfold g. cbn [fst snd]. unfold GaussianProcess.ones_times.
    split.
    + rewrite <- flat_map_concat_map. apply length_blocks.
    + rewrite <- flat_map_concat_map. apply length_blocks.
Qed.
End OutlineVectors.

Section Settings.
Context {T : Type} `{Float T} `{!Linalg T} `{!BasisLib T} `{!Helpers T}.

(** X20. The settings are checked before the data are read, key by key:
    a missing [model_type], one that is not a string, a missing [ngaus],
    one that is not an integer and, for the models [ML] and [EM], a
    missing [basis_type], a missing [nbasis] and an [nbasis] below [2]
    each raise their own error, whatever the ensemble. *)
Theorem Model_init_rejects_settings (cluster_data : list (trajectory T))
    (settings : gmap string pyval) :
  (settings !! "model_type" = None →
   Model.__init__ cluster_data settings
   = Raise (ValueError "settings has no model_type"))
  ∧ (∀ v, settings !! "model_type" = Some v → (∀ s, v ≠ PyStr s) →
     Model.__init__ cluster_data settings = Raise (TypeError "expected string"))
  ∧ (∀ model_type, settings !! "model_type" = Some (PyStr model_type) →
     (settings !! "ngaus" = None →
      Model.__init__ cluster_data settings = Raise (ValueError "settings has no ngaus"))
     ∧ (∀ v, settings !! "ngaus" = Some v → (∀ z, v ≠ PyInt z) →
        Model.__init__ cluster_data settings = Raise (TypeError "expected int"))
     ∧ (∀ ngaus, settings !! "ngaus" = Some (PyInt ngaus) →
        model_type = "ML" ∨ model_type = "EM" →
        (settings !! "basis_type" = None →
         Model.__init__ cluster_data settings
         = Raise (ValueError "settings has no basis_type"))
        ∧ (∀ b, settings !! "basis_type" = Some b →
           (settings !! "nbasis" = None →
            Model.__init__ cluster_data settings
            = Raise (ValueError "settings has no nbasis"))
           ∧ (∀ nbasis, settings !! "nbasis" = Some (PyInt nbasis) → (nbasis < 2)%Z →
              Model.__init__ cluster_data settings
              = Raise (ValueError "nbasis should be larger than 2"))))).
Proof.
  unfold Model.__init__, Model.check_settings.
  split; [by intros ->|]. split.
  { intros v -> Hv. destruct v as [s| |]; [by destruct (Hv s)|done..]. }
  intros model_type ->. split; [by intros ->|]. split.
  { intros v -> Hv. destruct v as [|z|]; [done|by destruct (Hv z)|done]. }
  intros ngaus -> Hmt.
  assert (bool_decide (model_type = "ML") || bool_decide (model_type = "EM") = true) as ->.
  { destruct Hmt as [->| ->]; reflexivity. }
  split; [by intros ->|]. intros b ->. split; [by intros ->|].
  intros nbasis -> Hlt. by rewrite (proj2 (Z.ltb_lt _ _) Hlt).
Qed.

(** X21. A model type that is none of [resampling], [ML], [EM] passes
    the checks of the settings.  The constructor then reads the
    dimension, normalises the data and builds the process, and the first
    error among these is raised; only when all three succeed is the model
    type refused with [NotImplementedError]. *)
Theorem Model_init_unknown_model_type (cluster_data : list (trajectory T))
    (settings : gmap string pyval) (model_type : string) (ngaus : Z) :
  settings !! "model_type" = Some (PyStr model_type) →
  settings !! "ngaus" = Some (PyInt ngaus) →
  model_type ≠ "resampling" → model_type ≠ "ML" → model_type ≠ "EM" →
  Model.check_settings settings = Ok (model_type, ngaus)
  ∧ (∀ e, getDimension cluster_data = Raise e →
       Model.__init__ cluster_data settings = Raise e)
  ∧ (∀ ndim e, getDimension cluster_data = Ok ndim →
       Model._normalise_data cluster_data = Raise e →
       Model.__init__ cluster_data settings = Raise e)
  ∧ (∀ ndim norm e, getDimension cluster_data = Ok ndim →
       Model._normalise_data cluster_data = Ok norm →
       GaussianProcess.__init__ norm ngaus = Raise e →
       Model.__init__ cluster_data settings = Raise e)
  ∧ (∀ ndim norm gp, getDimension cluster_data = Ok ndim →
       Model._normalise_data cluster_data = Ok norm →
       GaussianProcess.__init__ norm ngaus = Ok gp →
       Model.__init__ cluster_data settings = Raise NotImplementedError).
Proof.
  intros Hmt Hng Hr Hml Hem.
  assert (Model.check_settings settings = Ok (model_type, ngaus)) as Hcheck.
  { unfold Model.check_settings. rewrite Hmt, Hng.
    by rewrite !bool_decide_eq_false_2 by done. }
  split; [done|]. unfold Model.__init__. rewrite Hcheck, bind_Ok.
  split; [by intros e ->|].
  split; [intros ndim e Hd Hn; by rewrite Hd, bind_Ok, Hn|].
  split; [intros ndim norm e Hd Hn Hg; by rewrite Hd, bind_Ok, Hn, bind_Ok, Hg|].
  intros ndim norm gp Hd Hn Hg. rewrite Hd, bind_Ok, Hn, bind_Ok, Hg, bind_Ok.
  unfold Model.run_estimator. by rewrite !bool_decide_eq_false_2 by done.
Qed.
End Settings.

(** ** Expectation maximization without data *)

Section EmptyEnsemble.
Context {T : Type} `{Float T} `{!Linalg T} `{!BasisLib T} `{!Helpers T}.

(** X22. Expectation maximization needs a trajectory.  On a process
    without trajectories, once the basis is built and the identity is
    inverted, the first iteration finds no expected weights and
    [model_by_em] raises [IndexError]. *)
Theorem model_by_em_empty_ensemble (self : @GaussianProcess.t T) (type_basis : pyval)
    (nbasis maximum_iterations : Z) (b : basis) (sig_w_inv : matrix T) :
  GaussianProcess._cluster_data self = [] →
  (0 ≤ nbasis)%Z → (1 ≤ maximum_iterations)%Z →
  Basis_new type_basis nbasis (GaussianProcess._ndim self) = Ok b →
  linalg_inv (eye (Z.to_nat nbasis * GaussianProcess._ndim self)) = Ok sig_w_inv →
  GaussianProcess._from_clusterdata2cells (GaussianProcess._cluster_data self) b
  = Ok ([], [])
  ∧ (∀ mu_w BETA_EM, GaussianProcess._Ewc_Ewwc [] [] mu_w sig_w_inv BETA_EM = Ok ([], []))
  ∧ GaussianProcess._E_mu [] = Raise IndexError
  ∧ GaussianProcess.model_by_em self type_basis nbasis maximum_iterations
    = Raise IndexError.
Proof.
  intros Hcd Hnb Hit Hb Hinv.
  split; [by rewrite Hcd|]. split; [done|]. split; [done|].
  unfold GaussianProcess.model_by_em. rewrite Hcd, Hb, bind_Ok.
  change (GaussianProcess._from_clusterdata2cells [] b) with (Ok ([] : list (matrix T), [] : list (matrix T))).
  rewrite bind_Ok. cbv beta iota. rewrite Hinv, bind_Ok.
  destruct (Z.to_nat maximum_iterations) as [|n] eqn:En; [lia|].
  reflexivity.
Qed.
End EmptyEnsemble.


(** ** The properties at example inputs *)

Lemma grid2points_points2grid_2d_witness :
  ∃ Y_pos Y_idx,
    Model._grid2points tube_two_cells far_xx far_yy None = Ok (Y_pos, Y_idx)
    ∧ length Y_pos = 2 * 1
    ∧ length Y_idx = 2 * 1
    ∧ (∀ ix iy, ix < 2 → iy < 1 →
       ∃ x y, nd_get far_xx [ix; 0] = Ok x ∧ nd_get far_yy [0; iy] = Ok y
              ∧ Y_pos !! (ix * 1 + iy) = Some [x; y]
              ∧ Y_idx !! (ix * 1 + iy) = Some [ix; iy])
    ∧ (∀ vals : list xfloat, length vals = 2 * 1 →
       Model._points2grid tube_two_cells (NDArray [length vals] vals) Y_idx
       = Ok (NDArray [2; 1] vals)).
Proof.
  apply (grid2points_points2grid_2d tube_two_cells far_xx far_yy None 2 1).
  - reflexivity.
  - reflexivity.
  - reflexivity.
  - reflexivity.
  - reflexivity.
  - lia.
  - lia.
Defined.

Lemma evalLogLikelihood_grid_3d_witness :
  let ss := Model.replace_nan
              (NDArray [1; 1; 2]
                 (map (λ idx, stand_in_logp tube_in_space
                                (grid_point_3d two_heights two_heights two_heights 1 2 idx))
                      (indices [1; 1; 2]))) in
  Model.evalLogLikelihood tube_in_space two_heights two_heights (Some two_heights)
  = Ok (ss, Model.set_list_logp tube_in_space
              [(ss, two_heights, two_heights, Some two_heights)]).
Proof.
  apply (evalLogLikelihood_grid_3d tube_in_space two_heights two_heights two_heights
           1 1 2 (stand_in_logp tube_in_space)).
  - reflexivity.
  - reflexivity.
  - reflexivity.
  - reflexivity.
  - reflexivity.
  - reflexivity.
  - reflexivity.
  - reflexivity.
  - simpl. lia.
  - intros y. reflexivity.
Defined.

Lemma evalLogLikelihood_memoised_witness :
  let self' := Model.set_list_logp tube_two_cells [(far_logp, far_xx, far_yy, None)] in
  Model._ndim self' = Model._ndim tube_two_cells
  ∧ Model._mu_y self' = Model._mu_y tube_two_cells
  ∧ Model._sig_y self' = Model._sig_y tube_two_cells
  ∧ Model._cc self' = Model._cc tube_two_cells
  ∧ Model._cA self' = Model._cA tube_two_cells
  ∧ Model._list_tube self' = Model._list_tube tube_two_cells
  ∧ (Model._list_logp self' = Model._list_logp tube_two_cells
     ∨ Model._list_logp self'
       = Model._list_logp tube_two_cells ++ [(far_logp, far_xx, far_yy, None)])
  ∧ Model.evalLogLikelihood self' far_xx far_yy None = Ok (far_logp, self').
Proof.
  apply (evalLogLikelihood_memoised tube_two_cells).
  - compute_done.
  - reflexivity.
  - reflexivity.
  - repeat constructor.
  - repeat constructor.
  - intros z Hz. discriminate Hz.
Defined.

Lemma isInside_grid_memoised_witness :
  let self' := Model.set_list_tube tube_three_cells
                 [(near_far_tube, xf 1, near_far_xx, near_far_yy, None)] in
  Model._ndim self' = Model._ndim tube_three_cells
  ∧ Model._mu_y self' = Model._mu_y tube_three_cells
  ∧ Model._sig_y self' = Model._sig_y tube_three_cells
  ∧ Model._cc self' = Model._cc tube_three_cells
  ∧ Model._cA self' = Model._cA tube_three_cells
  ∧ Model._list_logp self' = Model._list_logp tube_three_cells
  ∧ (Model._list_tube self' = Model._list_tube tube_three_cells
     ∨ Model._list_tube self'
       = Model._list_tube tube_three_cells
         ++ [(near_far_tube, xf 1, near_far_xx, near_far_yy, None)])
  ∧ Model.isInside_grid self' (xf 1) near_far_xx near_far_yy None
    = Ok (near_far_tube, self').
Proof.
  apply (isInside_grid_memoised tube_three_cells).
  - compute_done.
  - reflexivity.
  - reflexivity.
  - repeat constructor.
  - repeat constructor.
  - intros z Hz. discriminate Hz.
  - reflexivity.
Defined.

Lemma get_point_cloud_slabs_witness :
  ∃ clouds, Model._get_point_cloud tube_three_cells (xf 1) 12 = Ok clouds
            ∧ length clouds = 2.
Proof.
  rewrite (get_point_cloud_slabs tube_three_cells (xf 1) 12
             (map (stand_in_ellipse tube_three_cells (xf 1) 12) (seq 0 3))).
  - eexists. split; [reflexivity|]. reflexivity.
  - left. reflexivity.
  - reflexivity.
  - simpl. lia.
  - intros i c A Hc HA.
    destruct i as [|[|[|i]]]; simpl in Hc, HA; try discriminate Hc;
      injection Hc as <-; injection HA as <-; reflexivity.
Defined.

Lemma isInside_pnts_without_slabs_witness :
  Model._get_point_cloud tube_one_cell (xf 1) 12 = Ok []
  ∧ Model.isInside_pnts tube_one_cell two_points (xf 1) 12 = Raise AxisError.
Proof.
  apply (proj2 (isInside_pnts_without_slabs tube_one_cell two_points (xf 1) 12)
           [[xf 0]; [xf 0]] unit_cov
           (stand_in_ellipse tube_one_cell (xf 1) 12 0)).
  - reflexivity.
  - reflexivity.
  - left. reflexivity.
  - reflexivity.
Defined.

Lemma isInside_pnts_any_slab_witness :
  Model.isInside_pnts tube_three_cells two_points (xf 1) 12
  = Ok (NDArray [2] [true; false]).
Proof.
  apply (isInside_pnts_any_slab tube_three_cells two_points (xf 1) 12
           three_cell_clouds two_points_rows).
  - compute_done.
  - compute_done.
  - repeat constructor.
  - simpl. lia.
  - simpl. lia.
Defined.

Lemma isInside_grid_2d_witness :
  Model.isInside_grid tube_three_cells (xf 1) near_far_xx near_far_yy None
  = Ok (near_far_tube,
        Model.set_list_tube tube_three_cells
          [(near_far_tube, xf 1, near_far_xx, near_far_yy, None)]).
Proof.
  rewrite (isInside_grid_2d tube_three_cells (xf 1) near_far_xx near_far_yy None 2 1
             three_cell_clouds near_far_rows).
  - compute_done.
  - reflexivity.
  - reflexivity.
  - reflexivity.
  - reflexivity.
  - reflexivity.
  - reflexivity.
  - simpl. lia.
  - compute_done.
  - simpl. lia.
  - compute_done.
  - repeat constructor.
Defined.

Lemma getMean_cell_centres_witness :
  Model.getMean tube_two_cells
  = Returns
      (map (λ c, uncol c ++ (if bool_decide (Model._ndim tube_two_cells = 2)
                             then [nzero] else []))
           (Model._cc tube_two_cells)).
Proof.
  apply (getMean_cell_centres tube_two_cells 2).
  - left. reflexivity.
  - lia.
  - reflexivity.
  - repeat constructor.
  - compute_done.
Defined.

Lemma getMean_other_dimensions_witness :
  (∃ Y, Model.reshape_F_cols (Model._mu_y tube_on_a_line)
          (Model._ndim tube_on_a_line) = Ok Y
        ∧ Model.getMean tube_on_a_line = UnboundLocalError "x")
  ∨ (∃ msg, Model.getMean tube_on_a_line = Raises (ValueError msg)).
Proof.
  apply (getMean_other_dimensions tube_on_a_line).
  - simpl. lia.
  - simpl. lia.
Defined.

Lemma getMinMax_range_witness :
  ∃ lo hi : Qc,
    Model._getMinMax staggered_ensemble = Ok (Fin lo, Fin hi)
    ∧ (∀ tr a, tr ∈ staggered_ensemble → Fin a ∈ tr.1 → (lo ≤ a ≤ hi)%Qc)
    ∧ (∃ tr, tr ∈ staggered_ensemble ∧ Fin lo ∈ tr.1)
    ∧ (∃ tr, tr ∈ staggered_ensemble ∧ Fin hi ∈ tr.1).
Proof.
  apply (getMinMax_range staggered_ensemble).
  - discriminate.
  - repeat constructor; discriminate.
Defined.


Lemma normalise_data_single_value_witness :
  Model._getMinMax stalled_ensemble = Ok (Fin (Qc_of_Z 2), Fin (Qc_of_Z 2))
  ∧ Model._normalise_data stalled_ensemble
    = Ok (map (λ tr, (map (λ _, NaN) tr.1, tr.2)) stalled_ensemble).
Proof.
  apply (normalise_data_single_value stalled_ensemble (Qc_of_Z 2)).
  - discriminate.
  - repeat constructor; discriminate.
Defined.

Lemma normalise_data_empty_witness :
  ∃ msg, Model._getMinMax [([] : vector xfloat, [] : matrix xfloat)]
         = Raise (ValueError msg)
         ∧ Model._normalise_data [([] : vector xfloat, [] : matrix xfloat)]
           = Raise (ValueError msg).
Proof.
  apply (proj2 (normalise_data_empty [([] : vector xfloat, [] : matrix xfloat)])).
  exists ([], []). split; [left|reflexivity].
Defined.

Lemma getMuSigma_entries_witness :
  let mu_y := Model._mu_y tube_two_cells in
  let sig_y := Model._sig_y tube_two_cells in
  1 < 2
  ∧ [[xf 1]; [xf 0]]
    = colvec (map (λ d, nth 0 (nth (1 + d * 2) mu_y []) nzero) (seq 0 2))
  ∧ unit_cov
    = map (λ d1, map (λ d2, nth (1 + d2 * 2) (nth (1 + d1 * 2) sig_y []) nzero)
                     (seq 0 2))
          (seq 0 2)
  ∧ ((∀ i j, nth j (nth i sig_y []) nzero = nth i (nth j sig_y []) nzero) →
     ∀ d1 d2, d1 < 2 → d2 < 2 →
       nth d2 (nth d1 unit_cov []) nzero = nth d1 (nth d2 unit_cov []) nzero).
Proof.
  apply (getMuSigma_entries 2 2 1 (Model._mu_y tube_two_cells)
           (Model._sig_y tube_two_cells) [[xf 1]; [xf 0]] unit_cov).
  reflexivity.
Defined.

Lemma norm2real_unit_outline_witness :
  GaussianProcess._norm2real plane_process
    (colvec (map Qc_of_Z [1; 2; 3; 4]%Z))
    (map (map Qc_of_Z) [[1; 2; 3; 4]; [2; 1; 2; 3]; [3; 2; 1; 2]; [4; 3; 2; 1]]%Z)
  = Ok (colvec (map Qc_of_Z [1; 2; 3; 4]%Z),
        map (map Qc_of_Z) [[1; 2; 3; 4]; [2; 1; 2; 3]; [3; 2; 1; 2]; [4; 3; 2; 1]]%Z).
Proof.
  apply (norm2real_unit_outline plane_process 2).
  - reflexivity.
  - lia.
  - simpl. lia.
  - reflexivity.
  - reflexivity.
  - repeat constructor.
Defined.

Lemma outline2vectors_shape_and_errors_witness :
  ∃ M D, GaussianProcess._outline2vectors plane_process = Ok (M, D)
         ∧ length M = 2 * 2 ∧ length D = 2 * 2.
Proof.
  apply (proj2 (proj2 (outline2vectors_shape_and_errors plane_process))).
  - simpl. lia.
  - simpl. lia.
  - simpl. lia.
Defined.

Lemma Model_init_rejects_settings_witness :
  Model.__init__ skewed_ensemble ∅ = Raise (ValueError "settings has no model_type").
Proof.
  apply (proj1 (Model_init_rejects_settings skewed_ensemble ∅)).
  reflexivity.
Defined.

Lemma Model_init_unknown_model_type_witness :
  Model.__init__ skewed_ensemble spline_settings = Raise NotImplementedError.
Proof.
  destruct (Model_init_unknown_model_type skewed_ensemble spline_settings "spline" 2)
    as (_ & _ & _ & _ & Hraise).
  - reflexivity.
  - reflexivity.
  - discriminate.
  - discriminate.
  - discriminate.
  - destruct (getDimension skewed_ensemble) as [ndim|e] eqn:Hd; [|discriminate Hd].
    destruct (Model._normalise_data skewed_ensemble) as [norm|e] eqn:Hn;
      [|discriminate Hn].
    destruct (GaussianProcess.__init__ norm 2) as [gp|e] eqn:Hg.
    + exact (Hraise ndim norm gp eq_refl eq_refl Hg).
    + exfalso. revert Hg. injection Hn as <-. discriminate.
Defined.

Lemma model_by_em_empty_ensemble_witness :
  @GaussianProcess.model_by_em xfloat _ _ _ ones_BasisLib _ empty_process
    (PyStr "bernstein") 2 1
  = Raise IndexError.
Proof.
  apply (@model_by_em_empty_ensemble xfloat _ _ _ ones_BasisLib _ empty_process
           (PyStr "bernstein") 2 1 () (eye 4)).
  - reflexivity.
  - lia.
  - lia.
  - reflexivity.
  - compute_done.
Defined.
